(** * Cebus: the Copilot worker's approval gate and turn life cycle, and the
      chat view's static-log reconciler and plan-approval handler.

    The definitions below are a shallow embedding of

    - [src/orchestration/worker/copilot-worker.ts]: [CopilotWorker.execute]
      (the promise executor with its idle timer, abort listener and session
      event handler, and the code after the [await]), [resolveApproval],
      [clearPendingApprovals], [mapPermissionKind] and the
      [onPermissionRequest] closure of [getOrCreateSession];
    - the chat application component: the promotion effect that moves
      finished messages into the static log, and the plan-approval key
      handler.

    Conventions.  JS strings are [string], one character for each code unit,
    so that the model covers the strings whose code units lie below 256.  A JS
    number that only ever holds an integer is a [Z] (or an [N] for a
    counter), so the loss of precision of a double above 2^53 is not
    modelled; the auto-approve budget, which the code computes from a budget
    that a response may lack, is a [JsNumber]: an integer or [NaN].  A [Map]
    is an association list kept in insertion order, a [Set] of ids is a
    [gset string].  Every callback of the event loop runs to completion: one
    callback is one transition of the model.  Wall-clock time is a logical
    clock [clock]; a timeout is the instant at which it is due.  A message
    timestamp is the number of milliseconds that [getTime] returns for it.
    The text shown to the user for tool activity, token-usage counters, debug
    logging and latency measurements do not influence control flow and are
    left out; so the error that [execute] throws is recorded by its code and
    by the error message that its own message wraps, without the latency that
    the code puts in front of it.  The subscription of the session handler is
    left out too: [unsubscribe] is only called by a callback that sets
    [resolved], and from then on the handler returns at once. *)

From stdpp Require Import base option list strings pretty gmap sorting.
From Stdlib Require Import Ascii ZArith Lia.

Local Open Scope Z_scope.
Local Open Scope string_scope.
Local Open Scope list_scope.

(** ** Permission kinds *)

(** [CopilotWorker.mapPermissionKind]: a [switch] over the SDK's kind string. *)
Definition mapPermissionKind (kind : string) : string :=
  if String.eqb kind "shell" || String.eqb kind "command" then "shell"
  else if String.eqb kind "write" || String.eqb kind "file-write"
          || String.eqb kind "create-directory" then "write"
  else if String.eqb kind "read" || String.eqb kind "file-read" then "read"
  else if String.eqb kind "mcp" then "mcp"
  else if String.eqb kind "url" || String.eqb kind "fetch" then "url"
  else "write".

(** The members of the [PermissionKind] union. *)
Definition PermissionKinds : list string :=
  ["shell"; "write"; "read"; "mcp"; "url"].

(** The [case] labels of [mapPermissionKind]. *)
Definition recognizedKinds : list string :=
  ["shell"; "command"; "write"; "file-write"; "create-directory";
   "read"; "file-read"; "mcp"; "url"; "fetch"].

(** ** JS [Map] with string keys, in insertion order *)

Section JsMap.
Context {V : Type}.

Fixpoint map_get (k : string) (m : list (string * V)) : option V :=
  match m with
  | [] => None
  | (k', v) :: m' => if String.eqb k k' then Some v else map_get k m'
  end.

Fixpoint map_delete (k : string) (m : list (string * V)) : list (string * V) :=
  match m with
  | [] => []
  | (k', v) :: m' =>
      if String.eqb k k' then map_delete k m' else (k', v) :: map_delete k m'
  end.

(** [Map.prototype.set]: an existing key keeps its place. *)
Fixpoint map_set (k : string) (v : V) (m : list (string * V)) : list (string * V) :=
  match m with
  | [] => [(k, v)]
  | (k', v') :: m' =>
      if String.eqb k k' then (k, v) :: m' else (k', v') :: map_set k v m'
  end.
End JsMap.

(** ** Data of the worker *)

(** A JS number that holds an integer, or [NaN]. *)
Inductive JsNumber :=
| Num (z : Z)
| NaN.

Coercion Num : Z >-> JsNumber.

(** [x === n] and [x > n] for a number [x] and an integer [n], and [x--]. *)
Definition num_eq (x : JsNumber) (n : Z) : bool :=
  match x with
  | Num z => (z =? n)%Z
  | NaN => false
  end.
Definition num_gt (x : JsNumber) (n : Z) : bool :=
  match x with
  | Num z => (n <? z)%Z
  | NaN => false
  end.
Definition decrement (x : JsNumber) : JsNumber :=
  match x with
  | Num z => Num (z - 1)
  | NaN => NaN
  end.

(** [Math.max(n, x)]. *)
Definition Math_max (n : Z) (x : JsNumber) : JsNumber :=
  match x with
  | Num z => Num (Z.max n z)
  | NaN => NaN
  end.

(** Modelled from the spec: the type [ApprovalResponse], which is declared in
    [orchestration/types] and is not among the sources.  The spec has
    [{approved, budget}], with a budget that is [N], [-1], [1] or the
    default; [None] is the budget of a response that carries none
    ([undefined]). *)
Record ApprovalResponse := mkResponse { approved : bool; budget : option Z }.

(** [x === n] and [x - n] for an integer [n] and an [x] that is an integer or
    [undefined]: [undefined - n] is [NaN]. *)
Definition strict_eq (x : option Z) (n : Z) : bool :=
  match x with
  | Some z => (z =? n)%Z
  | None => false
  end.
Definition minus (x : option Z) (n : Z) : JsNumber :=
  match x with
  | Some z => Num (z - n)
  | None => NaN
  end.

(** The part of [AgentProfile] the worker reads. *)
Record AgentProfile := mkProfile {
  profile_id : string;
  availableTools : option (list string)
}.

(** [toolsEnabled], computed when the session is created. *)
Definition toolsEnabled (p : AgentProfile) : bool :=
  match availableTools p with
  | None => true
  | Some tools => negb (Nat.eqb (length tools) 0)
  end.

(** The part of [ExecutionContext] the worker reads. *)
Record ExecutionContext := mkContext {
  timeoutBudget : Z;
  hasCancellationToken : bool
}.

(** A permission request of the SDK: its kind, and its other own properties
    in the order in which [Object.entries] lists them, each key once. *)
Record PermissionRequest := mkRequest {
  req_kind : string;
  req_entries : list (string * string)
}.

(** Events handed to the [onStream] callback. *)
Inductive OrchestrationStreamEvent :=
| Ev_start (agentId traceId : string)
| Ev_token (agentId traceId token : string)
| Ev_agent_activity (agentId traceId : string) (toolName : option string)
    (kind : string)
| Ev_approval_required (agentId traceId toolName approvalId permissionKind : string)
    (parameters : list (string * string))
| Ev_complete (agentId traceId content : string)
| Ev_error (agentId traceId code message : string) (recoverable : bool).

(** Values that reach the [catch] block of [execute]: an
    [OrchestrationError], another [Error], or a value that is not an [Error]
    (with its rendering by [String]). *)
Inductive Thrown :=
| OrchestrationError (code message : string)
| PlainError (message : string)
| NotAnError (text : string).

(** How the promise awaited by [execute] was settled. *)
Inductive Settlement :=
| Resolve (content : string)
| Reject (err : Thrown).

(** How a call of [execute] ended: the response it returned, or the
    [OrchestrationError] it threw, given by its code and by the error message
    [errorMsg] of the [catch] block, which the message of the thrown error
    wraps as [Copilot worker <id> failed after <latency>ms: <errorMsg>]. *)
Inductive TurnOutcome :=
| Returned (content : string)
| Threw (code cause : string).

(** Events of the SDK session, as far as the handler of [execute] tells them
    apart.  Optional data fields are [option]s. *)
Inductive SessionEvent :=
| AssistantMessageDelta (deltaContent : option string)
| AssistantMessage (content : option string)
| AssistantUsage
| SessionIdle
| ToolExecutionStart (toolName toolCallId : option string)
| ToolExecutionProgress (progressMessage toolName : option string)
| ToolExecutionPartialResult (partialOutput : option string)
| ToolExecutionComplete (toolCallId toolName : option string)
| SessionError (message : option string)
| OtherSessionEvent (type : string).

(** A resolver stored in [pendingApprovals]: the closure that settles the
    promise returned for the permission request [promise_of]. *)
Record Resolver := mkResolver { promise_of : string }.

(** What [onPermissionRequest] returns: an answer, or a promise that stays
    pending until the approval is resolved. *)
Inductive PermissionReply :=
| Answer (kind : string)
| Suspended (approvalId : string).

(** The fields of a [CopilotWorker]. *)
Record Fields := mkFields {
  autoApproveBudget : JsNumber;
  pendingApprovals : list (string * Resolver);
  approvalCounter : N;
  currentOnStream : bool;
  currentTraceId : option string;
  resetIdleTimeout : bool;
  toolCallArgs : gmap string string
}.

(** The variables of one call of [execute] that its callbacks share. *)
Record Closure := mkClosure {
  traceId : string;
  context : ExecutionContext;
  fullContent : string;
  resolved : bool;
  timer : option Z;
  settled : option Settlement
}.

(** Where a call of [execute] stands. *)
Inductive Turn :=
| NoTurn
| AwaitingSession (trace : string) (ctx : ExecutionContext)
| InPromise (c : Closure).

(** What the rest of the program observes. *)
Record World := mkWorld {
  clock : Z;
  emitted : list OrchestrationStreamEvent;
  replies : list (string * string);
  outcomes : list TurnOutcome
}.

Record Worker := mkWorker { fields : Fields; turn : Turn; world : World }.

(** ** Field updates *)

Definition set_autoApproveBudget (b : JsNumber) (f : Fields) : Fields :=
  mkFields b (pendingApprovals f) (approvalCounter f) (currentOnStream f)
    (currentTraceId f) (resetIdleTimeout f) (toolCallArgs f).
Definition set_pendingApprovals (m : list (string * Resolver)) (f : Fields) : Fields :=
  mkFields (autoApproveBudget f) m (approvalCounter f) (currentOnStream f)
    (currentTraceId f) (resetIdleTimeout f) (toolCallArgs f).
Definition set_approvalCounter (n : N) (f : Fields) : Fields :=
  mkFields (autoApproveBudget f) (pendingApprovals f) n (currentOnStream f)
    (currentTraceId f) (resetIdleTimeout f) (toolCallArgs f).
Definition set_currentOnStream (b : bool) (f : Fields) : Fields :=
  mkFields (autoApproveBudget f) (pendingApprovals f) (approvalCounter f) b
    (currentTraceId f) (resetIdleTimeout f) (toolCallArgs f).
Definition set_currentTraceId (t : option string) (f : Fields) : Fields :=
  mkFields (autoApproveBudget f) (pendingApprovals f) (approvalCounter f)
    (currentOnStream f) t (resetIdleTimeout f) (toolCallArgs f).
Definition set_resetIdleTimeout (b : bool) (f : Fields) : Fields :=
  mkFields (autoApproveBudget f) (pendingApprovals f) (approvalCounter f)
    (currentOnStream f) (currentTraceId f) b (toolCallArgs f).
Definition set_toolCallArgs (m : gmap string string) (f : Fields) : Fields :=
  mkFields (autoApproveBudget f) (pendingApprovals f) (approvalCounter f)
    (currentOnStream f) (currentTraceId f) (resetIdleTimeout f) m.

Definition set_fullContent (s : string) (c : Closure) : Closure :=
  mkClosure (traceId c) (context c) s (resolved c) (timer c) (settled c).
Definition set_resolved (b : bool) (c : Closure) : Closure :=
  mkClosure (traceId c) (context c) (fullContent c) b (timer c) (settled c).
Definition set_timer (t : option Z) (c : Closure) : Closure :=
  mkClosure (traceId c) (context c) (fullContent c) (resolved c) t (settled c).

(** [resolve] and [reject] of a promise: only the first call settles it. *)
Definition settle (r : Settlement) (c : Closure) : Closure :=
  match settled c with
  | Some _ => c
  | None =>
      mkClosure (traceId c) (context c) (fullContent c) (resolved c) (timer c) (Some r)
  end.

Definition with_fields (g : Fields -> Fields) (w : Worker) : Worker :=
  mkWorker (g (fields w)) (turn w) (world w).
Definition with_turn (t : Turn) (w : Worker) : Worker :=
  mkWorker (fields w) t (world w).

(** A call of an [onStream] callback. *)
Definition emit (e : OrchestrationStreamEvent) (w : Worker) : Worker :=
  mkWorker (fields w) (turn w)
    (mkWorld (clock (world w)) (emitted (world w) ++ [e]) (replies (world w))
       (outcomes (world w))).

(** The promise of a permission request is settled with [kind]. *)
Definition reply (promise kind : string) (w : Worker) : Worker :=
  mkWorker (fields w) (turn w)
    (mkWorld (clock (world w)) (emitted (world w))
       (replies (world w) ++ [(promise, kind)]) (outcomes (world w))).

Definition finish (o : TurnOutcome) (w : Worker) : Worker :=
  mkWorker (fields w) (turn w)
    (mkWorld (clock (world w)) (emitted (world w)) (replies (world w))
       (outcomes (world w) ++ [o])).

Definition advance (dt : Z) (w : Worker) : Worker :=
  mkWorker (fields w) (turn w)
    (mkWorld (clock (world w) + Z.max 0 dt) (emitted (world w)) (replies (world w))
       (outcomes (world w))).

(** ** The approval gate *)

(** The resolver closure built by [onPermissionRequest]. *)
Definition call_resolver (r : Resolver) (response : ApprovalResponse) (w : Worker)
  : Worker :=
  if approved response then reply (promise_of r) "approved" w
  else reply (promise_of r) "denied-interactively-by-user" w.

(** [resetTimeout] of the running call of [execute]: clear the timer, publish
    itself as [this.resetIdleTimeout], and arm the timer anew. *)
Definition resetTimeout (w : Worker) : Worker :=
  match turn w with
  | InPromise c =>
      mkWorker (set_resetIdleTimeout true (fields w))
        (InPromise
           (set_timer (Some (clock (world w) + Z.max 0 (timeoutBudget (context c)))) c))
        (world w)
  | _ => w
  end.

(** [clearTimeout(timer)]. *)
Definition clearTimeout (w : Worker) : Worker :=
  match turn w with
  | InPromise c => with_turn (InPromise (set_timer None c)) w
  | _ => w
  end.

(** [CopilotWorker.resolveApproval]. *)
Definition resolveApproval (approvalId : string) (response : ApprovalResponse)
    (w : Worker) : Worker :=
  match map_get approvalId (pendingApprovals (fields w)) with
  | None => w
  | Some resolver =>
      let w1 :=
        with_fields
          (set_pendingApprovals (map_delete approvalId (pendingApprovals (fields w)))) w in
      let w2 := if resetIdleTimeout (fields w1) then resetTimeout w1 else w1 in
      let w3 :=
        if approved response && negb (strict_eq (budget response) 1) then
          with_fields
            (set_autoApproveBudget
               (if strict_eq (budget response) (-1) then Num (-1)
                else Math_max 0 (minus (budget response) 1))) w2
        else w2 in
      call_resolver resolver response w3
  end.

(** [CopilotWorker.clearPendingApprovals]. *)
Definition clearPendingApprovals (w : Worker) : Worker :=
  let w1 :=
    fold_left (fun acc kr => call_resolver (snd kr) (mkResponse false (Some 0)) acc)
      (pendingApprovals (fields w)) w in
  with_fields (set_pendingApprovals []) w1.

(** The id built for the [n]-th approval request of agent [agent]. *)
Definition approvalId_of (agent : string) (n : N) : string :=
  agent +:+ "-perm-" +:+ pretty n.

(** [request.toolName]. *)
Definition req_toolName (request : PermissionRequest) : option string :=
  map_get "toolName" (req_entries request).

(** The [parameters] of an approval event: the loop over
    [Object.entries(request)] copies every own property but [kind], in
    order. *)
Definition parameters_of (request : PermissionRequest) : list (string * string) :=
  fold_left
    (fun parameters kv =>
       if String.eqb (fst kv) "kind" then parameters
       else map_set (fst kv) (snd kv) parameters)
    (req_entries request) [].

(** The [onPermissionRequest] callback given to the SDK session. *)
Definition onPermissionRequest (p : AgentProfile) (request : PermissionRequest)
    (w : Worker) : PermissionReply * Worker :=
  let permKind := mapPermissionKind (req_kind request) in
  if String.eqb permKind "read" then (Answer "approved", w)
  else if negb (toolsEnabled p) then (Answer "denied-by-rules", w)
  else if negb (num_eq (autoApproveBudget (fields w)) 0) then
    (Answer "approved",
     if num_gt (autoApproveBudget (fields w)) 0 then
       with_fields (set_autoApproveBudget (decrement (autoApproveBudget (fields w)))) w
     else w)
  else
    let n := (approvalCounter (fields w) + 1)%N in
    let w1 := with_fields (set_approvalCounter n) w in
    let approvalId := approvalId_of (profile_id p) n in
    if negb (currentOnStream (fields w1)) then (Answer "denied-by-rules", w1)
    else
      let w2 :=
        emit
          (Ev_approval_required (profile_id p)
             (default EmptyString (currentTraceId (fields w1)))
             (default (req_kind request) (req_toolName request))
             approvalId permKind (parameters_of request)) w1 in
      (Suspended approvalId,
       with_fields
         (fun f => set_pendingApprovals
                     (map_set approvalId (mkResolver approvalId) (pendingApprovals f)) f)
         w2).

(** A run of permission requests, each answered before the next arrives. *)
Fixpoint permissionRequests (p : AgentProfile) (requests : list PermissionRequest)
    (w : Worker) : list PermissionReply * Worker :=
  match requests with
  | [] => ([], w)
  | r :: rs =>
      let '(a, w1) := onPermissionRequest p r w in
      let '(answers, w2) := permissionRequests p rs w1 in
      (a :: answers, w2)
  end.

(** ** One call of [execute] *)

(** JS truthiness of an optional string: [undefined] and the empty string are
    falsy. *)
Definition truthy (o : option string) : option string :=
  match o with
  | Some s => if String.eqb s EmptyString then None else Some s
  | None => None
  end.

Definition HIDDEN_TOOLS : list string := ["report_intent"].

Definition hidden_tool (toolName : string) : bool :=
  existsb (String.eqb toolName) HIDDEN_TOOLS.

Definition with_closure (g : Closure -> Closure) (w : Worker) : Worker :=
  match turn w with
  | InPromise c => with_turn (InPromise (g c)) w
  | _ => w
  end.

(** The synchronous start of [execute], up to [await getOrCreateSession].
    The coordinator starts no second turn for a worker whose turn is under
    way, so a call in another phase is left out: it changes nothing here. *)
Definition execute_begin (trace : string) (ctx : ExecutionContext) (w : Worker)
  : Worker :=
  match turn w with
  | NoTurn =>
      with_turn (AwaitingSession trace ctx)
        (with_fields
           (fun f => set_currentTraceId (Some trace)
                       (set_currentOnStream true (set_autoApproveBudget 0 f))) w)
  | _ => w
  end.

(** The [finally] block. *)
Definition finally (w : Worker) : Worker :=
  with_turn NoTurn
    (with_fields
       (fun f => set_resetIdleTimeout false
                   (set_currentTraceId None (set_currentOnStream false f))) w).

Definition errorMsg_of (err : Thrown) : string :=
  match err with
  | OrchestrationError _ message => message
  | PlainError message => message
  | NotAnError _ => "Unknown Copilot worker error"
  end.

Definition errorCode_of (err : Thrown) : string :=
  match err with
  | OrchestrationError code _ => code
  | _ => "WORKER_EXECUTION"
  end.

(** The [catch] block: deny what is pending, report the error, rethrow. *)
Definition catch_block (p : AgentProfile) (trace : string) (err : Thrown)
    (w : Worker) : Worker :=
  let w1 := clearPendingApprovals w in
  let errorMsg := errorMsg_of err in
  let errorCode := errorCode_of err in
  let w2 :=
    emit (Ev_error (profile_id p) trace errorCode errorMsg
            (negb (String.eqb errorCode "CANCELLED"))) w1 in
  finish (Threw errorCode errorMsg) w2.

(** The session is there: the [start] event, then the promise executor, which
    declares the shared variables and arms the idle timer. *)
Definition session_ready (p : AgentProfile) (w : Worker) : Worker :=
  match turn w with
  | AwaitingSession trace ctx =>
      let w1 := emit (Ev_start (profile_id p) trace) w in
      resetTimeout (with_turn (InPromise (mkClosure trace ctx EmptyString false None None)) w1)
  | _ => w
  end.

(** [getOrCreateSession] threw. *)
Definition session_failed (p : AgentProfile) (err : Thrown) (w : Worker) : Worker :=
  match turn w with
  | AwaitingSession trace ctx => finally (catch_block p trace err w)
  | _ => w
  end.

(** The handler subscribed with [session.on]. *)
Definition on_session_event (p : AgentProfile) (event : SessionEvent) (w : Worker)
  : Worker :=
  match turn w with
  | InPromise c0 =>
      if resolved c0 then w
      else
        let w := resetTimeout w in
        match event with
        | AssistantMessageDelta deltaContent =>
            match truthy deltaContent with
            | Some delta =>
                emit (Ev_token (profile_id p) (traceId c0) delta)
                  (with_closure (fun c => set_fullContent (fullContent c +:+ delta) c) w)
            | None => w
            end
        | AssistantMessage content =>
            match truthy content with
            | Some content => with_closure (set_fullContent content) w
            | None => w
            end
        | AssistantUsage => w
        | SessionIdle =>
            let w := clearTimeout w in
            with_closure
              (fun c => if resolved c then c
                        else settle (Resolve (fullContent c)) (set_resolved true c)) w
        | ToolExecutionStart toolName toolCallId =>
            let toolName := default "unknown" toolName in
            if hidden_tool toolName then w
            else
              let w :=
                match truthy toolCallId with
                | Some callId =>
                    with_fields
                      (fun f => set_toolCallArgs (<[callId := toolName]> (toolCallArgs f)) f)
                      w
                | None => w
                end in
              emit (Ev_agent_activity (profile_id p) (traceId c0) (Some toolName) "start") w
        | ToolExecutionProgress progressMessage toolName =>
            match truthy progressMessage with
            | Some _ =>
                emit (Ev_agent_activity (profile_id p) (traceId c0) toolName "progress") w
            | None => w
            end
        | ToolExecutionPartialResult partialOutput =>
            match truthy partialOutput with
            | Some _ =>
                emit (Ev_agent_activity (profile_id p) (traceId c0) None "progress") w
            | None => w
            end
        | ToolExecutionComplete toolCallId eventToolName =>
            let callId := truthy toolCallId in
            let stored := callId ≫= (fun k => toolCallArgs (fields w) !! k) in
            let toolName :=
              match stored with
              | Some t => t
              | None => default "unknown" eventToolName
              end in
            let w :=
              match callId with
              | Some k => with_fields (fun f => set_toolCallArgs (delete k (toolCallArgs f)) f) w
              | None => w
              end in
            if hidden_tool toolName then w
            else
              emit (Ev_agent_activity (profile_id p) (traceId c0) (Some toolName) "complete") w
        | SessionError message =>
            let w := clearTimeout w in
            with_closure
              (fun c =>
                 if resolved c then c
                 else
                   let c := set_resolved true c in
                   let errMsg := default "Unknown Copilot error" message in
                   if (0 <? String.length (fullContent c))%nat then
                     settle (Resolve (fullContent c)) c
                   else
                     settle
                       (Reject
                          (OrchestrationError "WORKER_EXECUTION"
                             ("Copilot error: " +:+ errMsg))) c) w
        | OtherSessionEvent _ => w
        end
  | _ => w
  end.

(** The callback of [setTimeout]; it runs once the timer is due. *)
Definition on_timer (p : AgentProfile) (w : Worker) : Worker :=
  match turn w with
  | InPromise c0 =>
      match timer c0 with
      | Some due =>
          if (due <=? clock (world w))%Z then
            let w := clearTimeout w in
            if resolved c0 then w
            else if (0 <? length (pendingApprovals (fields w)))%nat then resetTimeout w
            else
              with_closure
                (fun c =>
                   settle
                     (Reject
                        (OrchestrationError "TIMEOUT"
                           ("Copilot worker " +:+ profile_id p +:+ " idle for "
                            +:+ pretty (timeoutBudget (context c))
                            +:+ "ms with no activity")))
                     (set_resolved true c)) w
          else w
      | None => w
      end
  | _ => w
  end.

(** The [abort] listener of the cancellation token. *)
Definition on_abort (p : AgentProfile) (w : Worker) : Worker :=
  match turn w with
  | InPromise c0 =>
      if hasCancellationToken (context c0) then
        let w := clearTimeout w in
        with_closure
          (fun c =>
             if resolved c then c
             else
               settle
                 (Reject
                    (OrchestrationError "CANCELLED"
                       ("Copilot worker " +:+ profile_id p +:+ " was cancelled")))
                 (set_resolved true c)) w
      else w
  | _ => w
  end.

(** The [catch] callback of [session.send]. *)
Definition on_send_failed (err : Thrown) (w : Worker) : Worker :=
  let w := clearTimeout w in
  with_closure
    (fun c =>
       if resolved c then c
       else
         settle
           (Reject (match err with NotAnError text => PlainError text | e => e end))
           (set_resolved true c)) w.

(** The code of [execute] after the [await] of the promise, run as soon as
    the promise is settled. *)
Definition after_promise (p : AgentProfile) (w : Worker) : Worker :=
  match turn w with
  | InPromise c =>
      match settled c with
      | Some (Resolve result) =>
          finally
            (finish (Returned result)
               (emit (Ev_complete (profile_id p) (traceId c) result) w))
      | Some (Reject err) => finally (catch_block p (traceId c) err w)
      | None => w
      end
  | _ => w
  end.

(** ** The worker as a transition system *)

(** What can happen to a worker: a call of [execute]; the outcome of
    [getOrCreateSession]; an event of the session; the idle timer running
    out; the cancellation token aborting; [session.send] failing; a
    permission request of the SDK; a call of [resolveApproval]; time
    passing. *)
Inductive Action :=
| Execute (trace : string) (ctx : ExecutionContext)
| SessionReady
| SessionFailed (err : Thrown)
| Event (e : SessionEvent)
| TimerFires
| Abort
| SendFailed (err : Thrown)
| PermissionRequested (r : PermissionRequest)
| ApprovalResolved (approvalId : string) (response : ApprovalResponse)
| Elapse (dt : Z).

(** One transition.  A callback that settles the promise of the turn is
    followed at once by the rest of [execute]. *)

Definition step (p : AgentProfile) (a : Action) (w : Worker) : Worker :=
  match a with
  | Execute trace ctx => execute_begin trace ctx w
  | SessionReady => session_ready p w
  | SessionFailed err => session_failed p err w
  | Event e => after_promise p (on_session_event p e w)
  | TimerFires => after_promise p (on_timer p w)
  | Abort => after_promise p (on_abort p w)
  | SendFailed err => after_promise p (on_send_failed err w)
  | PermissionRequested r => snd (onPermissionRequest p r w)
  | ApprovalResolved approvalId response => resolveApproval approvalId response w
  | Elapse dt => advance dt w
  end.

Definition run (p : AgentProfile) (actions : list Action) (w : Worker) : Worker :=
  fold_left (fun acc a => step p a acc) actions w.

(** A freshly constructed worker. *)
Definition new_worker : Worker :=
  mkWorker (mkFields 0 [] 0 false None false ∅) NoTurn (mkWorld 0 [] [] []).

(** The states a worker can be in; [p] is the profile its session was
    created for. *)
Definition reachable (p : AgentProfile) (w : Worker) : Prop :=
  exists actions, w = run p actions new_worker.

(** ** The chat application: static log and plan approval *)

Record Message := mkMessage {
  msg_id : string;
  senderId : string;
  msg_content : string;
  status : string;
  timestamp : Z
}.

(** Modelled from the spec: the [Plan] type is declared outside the sources at
    hand; the spec describes it as an ordered sequence of steps, each bound to
    an agent. *)
Record PlanStep := mkPlanStep { step_agent : string; step_task : string }.
Definition Plan : Type := list PlanStep.

Inductive StaticEntry :=
| MessageEntry (id : string) (message : Message)
| PlanEntry (id : string) (plan : Plan) (approved : bool).

Record PendingPlanApproval := mkPendingPlan {
  pending_plan : Plan;
  originalMessage : string;
  analysis : string
}.

Record PlanProgress := mkPlanProgress {
  progress_plan : Plan;
  completed : Z;
  activeAgent : option string
}.

Record OrchestratorMessage := mkOrchestratorMessage {
  om_kind : string;
  om_content : string;
  om_timestamp : Z
}.

(** A call [sendMessage(content, directedTo, flag, analysis)]. *)
Record SendCall := mkSendCall {
  send_content : string;
  send_directedTo : option (list string);
  send_flag : bool;
  send_analysis : option string
}.

(** The state of [ChatApp] and of its stream processor that the two handlers
    below read and write. *)
Record ChatApp := mkChatApp {
  staticIds : gset string;
  staticEntries : list StaticEntry;
  pendingPlanApproval : option PendingPlanApproval;
  orchestratorMessages : list OrchestratorMessage;
  planProgress : option PlanProgress;
  sendMessage_calls : list SendCall
}.

(** *** Promotion of finished messages *)

Definition isComplete (message : Message) : bool :=
  String.eqb (status message) "complete" || String.eqb (status message) "sent"
  || String.eqb (status message) "error".

(** The [for] loop of the promotion effect: [ids] is [staticIds.current],
    [newlyCompleted] the array being filled. *)
Fixpoint promotion_scan (streamingMessageIds : gset string) (messages : list Message)
    (ids : gset string) (newlyCompleted : list Message)
  : gset string * list Message :=
  match messages with
  | [] => (ids, newlyCompleted)
  | message :: rest =>
      if decide (msg_id message ∈ ids) then
        promotion_scan streamingMessageIds rest ids newlyCompleted
      else if decide (msg_id message ∈ streamingMessageIds) then
        promotion_scan streamingMessageIds rest ids newlyCompleted
      else if isComplete message then
        promotion_scan streamingMessageIds rest ({[msg_id message]} ∪ ids)
          (newlyCompleted ++ [message])
      else promotion_scan streamingMessageIds rest ids newlyCompleted
  end.

(** [Array.prototype.indexOf]: the first index, or -1. *)
Fixpoint indexOf (x : string) (l : list string) : Z :=
  match l with
  | [] => -1
  | y :: l' =>
      if String.eqb y x then 0
      else let i := indexOf x l' in if (i =? -1)%Z then -1 else i + 1
  end.

(** The comparator given to [newlyCompleted.sort]. *)
Definition compare_completed (streamingOrder : list string) (a b : Message) : Z :=
  let orderA := indexOf (senderId a) streamingOrder in
  let orderB := indexOf (senderId b) streamingOrder in
  if (orderA =? -1)%Z && (orderB =? -1)%Z then timestamp a - timestamp b
  else if (orderA =? -1)%Z then -1
  else if (orderB =? -1)%Z then 1
  else orderA - orderB.

(** [Array.prototype.sort] is a stable sort: an element is moved in front of
    another only when the comparator says so.  Insertion from the right gives
    that order for every comparator that is a total preorder. *)
Section ArraySort.
Context {A : Type} (cmp : A -> A -> Z).

Fixpoint sort_insert (x : A) (l : list A) : list A :=
  match l with
  | [] => [x]
  | y :: l' => if (cmp x y <=? 0)%Z then x :: l else y :: sort_insert x l'
  end.

Fixpoint Array_sort (l : list A) : list A :=
  match l with
  | [] => []
  | x :: l' => sort_insert x (Array_sort l')
  end.
End ArraySort.

Definition set_static (ids : gset string) (entries : list StaticEntry) (app : ChatApp)
  : ChatApp :=
  mkChatApp ids entries (pendingPlanApproval app) (orchestratorMessages app)
    (planProgress app) (sendMessage_calls app).

(** The promotion effect, run whenever [messages] changes. *)
Definition promote (messages : list Message) (streamingMessageIds : gset string)
    (streamingOrder : list string) (app : ChatApp) : ChatApp :=
  let '(ids, newlyCompleted) :=
    promotion_scan streamingMessageIds messages (staticIds app) [] in
  if (0 <? length newlyCompleted)%nat then
    set_static ids
      (staticEntries app
       ++ map (fun m => MessageEntry (msg_id m) m)
            (Array_sort (compare_completed streamingOrder) newlyCompleted))
      app
  else set_static ids (staticEntries app) app.

(** *** The plan-approval key handler *)

(** [String.prototype.toLowerCase] on the code units below 256: the letters
    [A] to [Z] and the capital letters of Latin-1, from 192 to 222 without
    the multiplication sign 215, become the letter 32 places further on; every
    other code unit stays. *)
Definition lower_ascii (c : ascii) : ascii :=
  let n := nat_of_ascii c in
  if ((65 <=? n) && (n <=? 90)
      || (192 <=? n) && (n <=? 222) && negb (n =? 215))%nat
  then ascii_of_nat (n + 32) else c.

Fixpoint toLowerCase (s : string) : string :=
  match s with
  | EmptyString => EmptyString
  | String c s' => String (lower_ascii c) (toLowerCase s')
  end.

Definition set_pendingPlanApproval (o : option PendingPlanApproval) (app : ChatApp)
  : ChatApp :=
  mkChatApp (staticIds app) (staticEntries app) o (orchestratorMessages app)
    (planProgress app) (sendMessage_calls app).
Definition setOrchestratorMessages
    (g : list OrchestratorMessage -> list OrchestratorMessage) (app : ChatApp)
  : ChatApp :=
  mkChatApp (staticIds app) (staticEntries app) (pendingPlanApproval app)
    (g (orchestratorMessages app)) (planProgress app) (sendMessage_calls app).
Definition setPlanProgress (o : option PlanProgress) (app : ChatApp) : ChatApp :=
  mkChatApp (staticIds app) (staticEntries app) (pendingPlanApproval app)
    (orchestratorMessages app) o (sendMessage_calls app).
Definition sendMessage (call : SendCall) (app : ChatApp) : ChatApp :=
  mkChatApp (staticIds app) (staticEntries app) (pendingPlanApproval app)
    (orchestratorMessages app) (planProgress app) (sendMessage_calls app ++ [call]).

(** The body of the handler; [now] is the reading of the clock. *)
Definition plan_input_handler (input : string) (now : Z) (app : ChatApp) : ChatApp :=
  let lower := toLowerCase input in
  if negb (String.eqb lower "y") && negb (String.eqb lower "n") then app
  else
    let approval := pendingPlanApproval app in
    let approved := String.eqb lower "y" in
    let app1 :=
      match approval with
      | Some a =>
          set_static (staticIds app)
            (staticEntries app
             ++ [PlanEntry ("plan-" +:+ pretty now) (pending_plan a) approved]) app
      | None => app
      end in
    let app2 := set_pendingPlanApproval None app1 in
    if negb approved then
      setPlanProgress None
        (setOrchestratorMessages
           (fun prev => prev ++ [mkOrchestratorMessage "status" "Plan rejected by user." now])
           app2)
    else
      match approval with
      | Some a =>
          sendMessage (mkSendCall (originalMessage a) None false (Some (analysis a)))
            (setPlanProgress (Some (mkPlanProgress (pending_plan a) 0 None))
               (setOrchestratorMessages
                  (fun prev =>
                     prev ++ [mkOrchestratorMessage "status" "Plan approved. Executing..." now])
                  app2))
      | None => app2
      end.

(** [useInput(handler, { isActive: pendingPlanApproval !== null })]. *)
Definition plan_input (input : string) (now : Z) (app : ChatApp) : ChatApp :=
  match pendingPlanApproval app with
  | Some _ => plan_input_handler input now app
  | None => app
  end.

(** ** The prompt sent to the session *)

(** The line feed, written [\n] in the source. *)
Definition LF : string := String (ascii_of_nat 10) EmptyString.

(** An entry of the conversation history handed to [execute]. *)
Record HistoryMessage := mkHistoryMessage {
  h_role : string;
  h_content : string;
  h_name : option string
}.

(** [m.role === 'assistant' && m.name !== myName]. *)
Definition other_agent (myName : string) (m : HistoryMessage) : bool :=
  String.eqb (h_role m) "assistant"
  && negb (match h_name m with
           | Some name => String.eqb name myName
           | None => false
           end).

(** [Array.prototype.join]. *)
Fixpoint join (sep : string) (l : list string) : string :=
  match l with
  | [] => EmptyString
  | [s] => s
  | s :: l' => s +:+ sep +:+ join sep l'
  end.

(** [CopilotWorker.buildPromptWithHistory]; the last argument and the second
    component of the result are the field [otherAgentMessagesSeen] before and
    after the call. *)
Definition buildPromptWithHistory (message : string) (history : list HistoryMessage)
    (myName : string) (orchestratorGuidance : option string)
    (otherAgentMessagesSeen : nat) : string * nat :=
  let otherAgentMessages := List.filter (other_agent myName) history in
  let newMessages := drop otherAgentMessagesSeen otherAgentMessages in
  let seen := length otherAgentMessages in
  let guidancePrefix :=
    match truthy orchestratorGuidance with
    | Some guidance => "[Orchestrator Instructions]" +:+ LF +:+ guidance +:+ LF +:+ LF
    | None => EmptyString
    end in
  if Nat.eqb (length newMessages) 0 then (guidancePrefix +:+ message, seen)
  else
    let lines :=
      map (fun m => default "Another model" (h_name m) +:+ ": " +:+ h_content m)
        newMessages in
    (guidancePrefix +:+ message +:+ LF +:+ LF +:+ "<group_chat_context>" +:+ LF
     +:+ join (LF +:+ LF) lines +:+ LF +:+ "</group_chat_context>",
     seen).

(** ** Tool arguments *)

(** A value of the argument record of a tool call: a string, or something
    that is not a string. *)
Inductive JsValue :=
| JsString (s : string)
| JsOther.

(** [typeof val === 'string' && val.length > 0] for the property [key] of
    [args]; the record lists its own properties in the order of
    [Object.values]. *)
Definition string_arg (args : list (string * JsValue)) (key : string) : option string :=
  match map_get key args with
  | Some (JsString val) => if (0 <? String.length val)%nat then Some val else None
  | _ => None
  end.

(** The loop [for (const key of keys) ...] that returns at the first key
    holding a non-empty string. *)
Fixpoint first_string_arg (keys : list string) (args : list (string * JsValue))
  : option string :=
  match keys with
  | [] => None
  | key :: keys' =>
      match string_arg args key with
      | Some val => Some val
      | None => first_string_arg keys' args
      end
  end.

Definition detail_keys : list string :=
  ["path"; "filePath"; "file"; "filename"; "query"; "pattern"; "command"; "cmd";
   "url"; "name"].

(** [CopilotWorker.extractArgDetail]; lengths count characters of ASCII
    text. *)
Definition extractArgDetail (args : list (string * JsValue)) : option string :=
  match first_string_arg detail_keys args with
  | Some val =>
      Some (if (60 <? String.length val)%nat then String.substring 0 57 val +:+ "..." else val)
  | None => None
  end.

Definition path_keys : list string :=
  ["path"; "filePath"; "file_path"; "file"; "filename"; "file_name"; "target";
   "targetPath"; "target_path"; "destination"; "uri"; "resource"; "source";
   "sourcePath"; "source_path"; "directory"; "dir"; "folder"].

(** The character class [\w]. *)
Definition word_char (c : ascii) : bool :=
  let n := nat_of_ascii c in
  ((48 <=? n) && (n <=? 57) || (65 <=? n) && (n <=? 90) || (97 <=? n) && (n <=? 122)
   || (n =? 95))%nat.

(** [/[/\\]/.test(val)]. *)
Definition has_separator (val : string) : bool :=
  existsb (fun c => (nat_of_ascii c =? 47)%nat || (nat_of_ascii c =? 92)%nat)
    (String.list_ascii_of_string val).

(** The regular expression [\.\w{j}$] for one length [j] of the extension. *)
Definition extension_of_length (val : list ascii) (j : nat) : bool :=
  (j + 1 <=? length val)%nat
  && match drop (length val - (j + 1)) val with
     | c :: w => (nat_of_ascii c =? 46)%nat && forallb word_char w
     | [] => false
     end.

(** [/\.\w{1,10}$/.test(val)]. *)
Definition has_extension (val : string) : bool :=
  existsb (extension_of_length (String.list_ascii_of_string val)) (seq 1 10).

(** The loop over [Object.values(args)]. *)
Fixpoint first_path_like (values : list JsValue) : option string :=
  match values with
  | [] => None
  | JsString val :: values' =>
      if (0 <? String.length val)%nat && has_separator val && has_extension val
      then Some val else first_path_like values'
  | JsOther :: values' => first_path_like values'
  end.

(** [CopilotWorker.extractPathArg]. *)
Definition extractPathArg (args : list (string * JsValue)) : option string :=
  match first_string_arg path_keys args with
  | Some val => Some val
  | None => first_path_like (map snd args)
  end.

(** ** The live area of the chat view *)

(** [[...new Set(items)]]: the items in the order of their first occurrence. *)
Definition Set_values (items : list string) : list string :=
  fold_left (fun acc x => if decide (x ∈ acc) then acc else acc ++ [x]) items [].

(** [allActiveIds] of [ChatApp]. *)
Definition allActiveIds (streamingParticipants waitingParticipants : list string)
  : list string :=
  Set_values (streamingParticipants ++ waitingParticipants).

(** ** The message input *)

(** [String.prototype.slice(from, to)] for indices that are not negative. *)
Definition slice (s : string) (from to : nat) : string :=
  String.substring from (to - from) s.

(** [String.prototype.slice(from)]. *)
Definition slice_from (s : string) (from : nat) : string :=
  String.substring from (String.length s - from) s.

Record MentionContext := mkMentionContext {
  mention_isActive : bool;
  mention_query : string;
  mention_startIndex : Z
}.

(** The loop of [getMentionContext] when it is about to read [value[i - 1]];
    the result is [startIndex]. *)
Fixpoint mention_scan (value : string) (i : nat) : Z :=
  match i with
  | O => -1
  | S j =>
      match String.get j value with
      | Some c =>
          if Ascii.eqb c "@" then Z.of_nat j
          else if Ascii.eqb c " " || Ascii.eqb c (ascii_of_nat 10) then -1
          else mention_scan value j
      | None => mention_scan value j
      end
  end.

(** [getMentionContext]. *)
Definition getMentionContext (value : string) (cursorPosition : nat) : MentionContext :=
  let startIndex := mention_scan value cursorPosition in
  if (startIndex =? -1)%Z then mkMentionContext false EmptyString (-1)
  else
    mkMentionContext true
      (toLowerCase (slice value (Z.to_nat startIndex + 1) cursorPosition)) startIndex.

Record CommandContext := mkCommandContext {
  command_isActive : bool;
  command_query : string
}.

(** [getCommandContext]. *)
Definition getCommandContext (value : string) (cursorPosition : nat) : CommandContext :=
  if negb (String.prefix "/" value) then mkCommandContext false EmptyString
  else
    match String.index 0 " " value with
    | Some spaceIndex =>
        if (spaceIndex <? cursorPosition)%nat then mkCommandContext false EmptyString
        else mkCommandContext true (toLowerCase (slice value 1 cursorPosition))
    | None => mkCommandContext true (toLowerCase (slice value 1 cursorPosition))
    end.

(** [insertMention]: the new value and the new cursor position. *)
Definition insertMention (value : string) (cursorPosition : nat) (startIndex : nat)
    (nickname : string) : string * nat :=
  let before := slice value 0 startIndex in
  let after := slice_from value cursorPosition in
  (before +:+ "@" +:+ nickname +:+ " " +:+ after,
   (String.length before + String.length nickname + 2)%nat).

(** [insertCommand]. *)
Definition insertCommand (name : string) : string * nat :=
  let newValue := "/" +:+ name +:+ " " in
  (newValue, String.length newValue).

Definition PROMPT_WIDTH : Z := 2.

Record Viewport := mkViewport { visible : string; viewCol : Z; scrolled : bool }.

(** [viewportFor]; [termCols] is the width of the terminal. *)
Definition viewportFor (termCols : Z) (line : string) (col extraPrefix : Z) : Viewport :=
  let avail := termCols - PROMPT_WIDTH - extraPrefix - 1 in
  if (avail <=? 0)%Z || (Z.of_nat (String.length line) <=? avail)%Z then
    mkViewport line col false
  else
    let start := col - avail / 2 in
    let start := if (start <? 0)%Z then 0 else start in
    let start :=
      if (Z.of_nat (String.length line) <? start + avail)%Z
      then Z.max (Z.of_nat (String.length line) - avail) 0 else start in
    mkViewport (slice line (Z.to_nat start) (Z.to_nat (start + avail))) (col - start)
      (0 <? start)%Z.

(** The window of at most six options shown around the highlighted one:
    [startIdx] and [endIdx]. *)
Definition option_window (autocompleteIndex total : Z) : Z * Z :=
  let maxVisible := 6 in
  let startIdx :=
    if (maxVisible <? total)%Z
    then Z.max 0 (Z.min (autocompleteIndex - 2) (total - maxVisible)) else 0 in
  (startIdx, Z.min (startIdx + maxVisible) total).

(** The updates of [autocompleteIndex] on the up and down arrows, for a list
    of [n] options. *)
Definition option_up (n prev : Z) : Z := if (0 <? prev)%Z then prev - 1 else n - 1.
Definition option_down (n prev : Z) : Z := if (prev <? n - 1)%Z then prev + 1 else 0.

(** [String.prototype.split('\n')]. *)
Fixpoint split_lines (value : string) : list string :=
  match value with
  | EmptyString => [EmptyString]
  | String c rest =>
      if Ascii.eqb c (ascii_of_nat 10) then EmptyString :: split_lines rest
      else
        match split_lines rest with
        | line :: lines => String c line :: lines
        | [] => [String c EmptyString]
        end
  end.

(** The loop that finds the line and the column of the cursor, at line [i]
    with [offset] characters before it. *)
Fixpoint locate_cursor (lines : list string) (cursorPosition offset i : nat) : nat * nat :=
  match lines with
  | [] => (0, 0)%nat
  | line :: lines' =>
      if (cursorPosition <=? offset + String.length line)%nat
      then (i, cursorPosition - offset)%nat
      else locate_cursor lines' cursorPosition (offset + String.length line + 1) (S i)
  end.

(** [cursorLine] and [cursorCol] of [MessageInput]. *)
Definition cursor_line_col (value : string) (cursorPosition : nat) : nat * nat :=
  if (0 <? String.length value)%nat
  then locate_cursor (split_lines value) cursorPosition 0 0
  else (0, 0)%nat.

(** *** The editing state of [MessageInput] and its key handler *)

Record Participant := mkParticipant {
  p_id : string;
  p_type : string;
  p_nickname : string;
  p_displayName : string
}.

Record SlashCommand := mkSlashCommand { cmd_name : string; cmd_description : string }.

Definition AVAILABLE_COMMANDS : list SlashCommand :=
  [mkSlashCommand "exit" "Exit the chat and show session summary";
   mkSlashCommand "quit" "Same as /exit";
   mkSlashCommand "help" "Show available commands";
   mkSlashCommand "clear" "Clear chat display";
   mkSlashCommand "list" "Show all participants";
   mkSlashCommand "add" "Add a model (provider:model[:nickname])";
   mkSlashCommand "remove" "Remove a model by nickname";
   mkSlashCommand "rename" "Rename a participant"].

(** The key flags that the handler reads. *)
Record Key := mkKey {
  upArrow : bool;
  downArrow : bool;
  leftArrow : bool;
  rightArrow : bool;
  tab : bool;
  return_ : bool;
  escape : bool;
  ctrl : bool;
  meta : bool;
  backspace : bool;
  delete_ : bool
}.

(** The calls the component makes on its callback properties. *)
Inductive InputCall :=
| OnSubmit (content : string) (directedTo : option (list string))
| OnCommand (command : string) (args : list string)
| OnCancelStream
| OnExit.

(** The result of the mention parser of the core. *)
Record ParseResult := mkParseResult {
  parse_type : string;
  targetIds : list string;
  cleanedContent : string
}.

(** What the handlers read from outside the state: the properties of the
    component, with [None] as [selectedTarget] for the value ['all'] and
    [false] for an absent optional callback, and the flag [isPasting] of the
    bracketed paste. *)
Record InputProps := mkInputProps {
  participants : list Participant;
  disabled : bool;
  isPasting : bool;
  selectedTarget : option Participant;
  isStreaming : bool;
  has_onCancelStream : bool;
  has_onExit : bool;
  has_onCommand : bool
}.

(** The state and the refs of the component, the lengths of the two option
    lists at the last run of the effect that depends on them, and the calls
    made so far. *)
Record InputState := mkInputState {
  value : string;
  cursorPosition : nat;
  autocompleteIndex : Z;
  exitHintActive : bool;
  exitHintTimer : bool;
  pastedContent : option string;
  messageHistory : list string;
  historyIndex : Z;
  savedInput : string;
  rendered_options : nat * nat;
  calls : list InputCall
}.

(** White space as [trim] and [\s] know it, among the characters below 256. *)
Definition is_space (c : ascii) : bool :=
  let n := nat_of_ascii c in
  ((n =? 32) || (9 <=? n) && (n <=? 13) || (n =? 160))%nat.

Fixpoint trimStart (s : string) : string :=
  match s with
  | EmptyString => EmptyString
  | String c s' => if is_space c then trimStart s' else s
  end.

(** [String.prototype.trim]. *)
Definition trim (s : string) : string :=
  String.rev (trimStart (String.rev (trimStart s))).

(** [String.prototype.split(/\s+/)]: [current] is the piece being read and
    [in_space] says that the last character read was white space. *)
Fixpoint split_spaces_from (s current : string) (in_space : bool) : list string :=
  match s with
  | EmptyString => [current]
  | String c s' =>
      if is_space c then
        if in_space then split_spaces_from s' current true
        else current :: split_spaces_from s' EmptyString true
      else split_spaces_from s' (current +:+ String c EmptyString) false
  end.

Definition split_spaces (s : string) : list string :=
  split_spaces_from s EmptyString false.

(** [String.prototype.includes]. *)
Definition includes (s query : string) : bool :=
  match String.index 0 query s with
  | Some _ => true
  | None => false
  end.

Definition nonempty (s : string) : bool := (0 <? String.length s)%nat.

(** [autocompleteOptions]. *)
Definition autocompleteOptions (props : InputProps) (mentionContext : MentionContext)
  : list Participant :=
  if negb (mention_isActive mentionContext) then []
  else
    let models := List.filter (fun p => String.eqb (p_type p) "model") (participants props) in
    if negb (nonempty (mention_query mentionContext)) then models
    else
      List.filter
        (fun p =>
           includes (toLowerCase (p_nickname p)) (mention_query mentionContext)
           || includes (toLowerCase (p_displayName p)) (mention_query mentionContext))
        models.

(** [commandOptions]. *)
Definition commandOptions (commandContext : CommandContext) : list SlashCommand :=
  if negb (command_isActive commandContext) then []
  else if negb (nonempty (command_query commandContext)) then AVAILABLE_COMMANDS
  else
    List.filter
      (fun cmd => includes (toLowerCase (cmd_name cmd)) (command_query commandContext))
      AVAILABLE_COMMANDS.

(** [options[autocompleteIndex]]. *)
Definition option_at {A} (options : list A) (index : Z) : option A :=
  if (index <? 0)%Z then None else options !! Z.to_nat index.

Definition set_text (v : string) (c : nat) (st : InputState) : InputState :=
  mkInputState v c (autocompleteIndex st) (exitHintActive st)
    (exitHintTimer st) (pastedContent st) (messageHistory st) (historyIndex st)
    (savedInput st) (rendered_options st) (calls st).
Definition set_autocompleteIndex (i : Z) (st : InputState) : InputState :=
  mkInputState (value st) (cursorPosition st) i (exitHintActive st)
    (exitHintTimer st) (pastedContent st) (messageHistory st) (historyIndex st)
    (savedInput st) (rendered_options st) (calls st).
Definition set_exitHint (active timer : bool) (st : InputState) : InputState :=
  mkInputState (value st) (cursorPosition st) (autocompleteIndex st) active
    timer (pastedContent st) (messageHistory st) (historyIndex st)
    (savedInput st) (rendered_options st) (calls st).
Definition set_pastedContent (p : option string) (st : InputState) : InputState :=
  mkInputState (value st) (cursorPosition st) (autocompleteIndex st) (exitHintActive st)
    (exitHintTimer st) p (messageHistory st) (historyIndex st)
    (savedInput st) (rendered_options st) (calls st).
Definition set_messageHistory (h : list string) (st : InputState) : InputState :=
  mkInputState (value st) (cursorPosition st) (autocompleteIndex st) (exitHintActive st)
    (exitHintTimer st) (pastedContent st) h (historyIndex st)
    (savedInput st) (rendered_options st) (calls st).
Definition set_historyIndex (i : Z) (st : InputState) : InputState :=
  mkInputState (value st) (cursorPosition st) (autocompleteIndex st) (exitHintActive st)
    (exitHintTimer st) (pastedContent st) (messageHistory st) i
    (savedInput st) (rendered_options st) (calls st).
Definition set_savedInput (s : string) (st : InputState) : InputState :=
  mkInputState (value st) (cursorPosition st) (autocompleteIndex st) (exitHintActive st)
    (exitHintTimer st) (pastedContent st) (messageHistory st) (historyIndex st)
    s (rendered_options st) (calls st).
Definition set_rendered_options (n : nat * nat) (st : InputState) : InputState :=
  mkInputState (value st) (cursorPosition st) (autocompleteIndex st) (exitHintActive st)
    (exitHintTimer st) (pastedContent st) (messageHistory st) (historyIndex st)
    (savedInput st) n (calls st).
Definition call (c : InputCall) (st : InputState) : InputState :=
  mkInputState (value st) (cursorPosition st) (autocompleteIndex st) (exitHintActive st)
    (exitHintTimer st) (pastedContent st) (messageHistory st) (historyIndex st)
    (savedInput st) (rendered_options st) (calls st ++ [c]).

(** [prev => (prev ? prev + text : text)] on [pastedContent]. *)
Definition add_pasted (prev : option string) (text : string) : option string :=
  match prev with
  | Some p => if nonempty p then Some (p +:+ text) else Some text
  | None => Some text
  end.

(** [prev.slice(0, at) + text + prev.slice(at)]. *)
Definition insert_at (v : string) (at_ : nat) (text : string) : string :=
  slice v 0 at_ +:+ text +:+ slice_from v at_.

(** The history part of [handleSubmit]: a message that differs from the last
    one is pushed, and the oldest is dropped beyond a hundred. *)
Definition push_history (history : list string) (fullMessage : string) : list string :=
  if decide (last history = Some fullMessage) then history
  else
    let pushed := history ++ [fullMessage] in
    if (100 <? length pushed)%nat then drop 1 pushed else pushed.

(** [handleSubmit]; [parseMentions] is the mention parser of the core. *)
Definition handleSubmit (parseMentions : string -> list Participant -> ParseResult)
    (props : InputProps) (st : InputState) : InputState :=
  let typed := trim (value st) in
  let pasted :=
    match pastedContent st with
    | Some p => trim p
    | None => EmptyString
    end in
  let fullMessage :=
    if nonempty typed && nonempty pasted then typed +:+ LF +:+ LF +:+ pasted
    else if nonempty typed then typed else pasted in
  if negb (nonempty fullMessage) then st
  else
    let st :=
      set_savedInput EmptyString
        (set_historyIndex (-1)
           (set_messageHistory (push_history (messageHistory st) fullMessage) st)) in
    if String.prefix "/" fullMessage then
      let parts := split_spaces (slice_from fullMessage 1) in
      let command := default EmptyString (head parts) in
      let args := tail parts in
      let st := if has_onCommand props then call (OnCommand command args) st else st in
      set_pastedContent None (set_text EmptyString 0 st)
    else
      let parseResult := parseMentions fullMessage (participants props) in
      let directedTo :=
        if negb (String.eqb (parse_type parseResult) "broadcast")
           && (0 <? length (targetIds parseResult))%nat
        then Some (targetIds parseResult)
        else
          match selectedTarget props with
          | Some target => Some [p_id target]
          | None => None
          end in
      let content :=
        if nonempty (cleanedContent parseResult) then cleanedContent parseResult
        else fullMessage in
      set_pastedContent None (set_text EmptyString 0 (call (OnSubmit content directedTo) st)).

(** [messageHistory.current[i] ?? '']. *)
Definition history_at (history : list string) (i : Z) : string :=
  default EmptyString (option_at history i).

(** The callback given to [useInput]. *)
Definition on_key (parseMentions : string -> list Participant -> ParseResult)
    (props : InputProps) (input : string) (key : Key) (st : InputState) : InputState :=
  if disabled props || isPasting props then st
  else
    let mentionContext := getMentionContext (value st) (cursorPosition st) in
    let commandContext := getCommandContext (value st) (cursorPosition st) in
    let mentionOptions := autocompleteOptions props mentionContext in
    let cmdOptions := commandOptions commandContext in
    let mentionAutocompleteActive :=
      mention_isActive mentionContext && (0 <? length mentionOptions)%nat in
    let commandAutocompleteActive :=
      command_isActive commandContext && (0 <? length cmdOptions)%nat in
    let anyAutocompleteActive := mentionAutocompleteActive || commandAutocompleteActive in
    let optionCount :=
      if mentionAutocompleteActive then Z.of_nat (length mentionOptions)
      else if commandAutocompleteActive then Z.of_nat (length cmdOptions) else 0 in
    let do_insertMention (selected : Participant) :=
      let '(v, c) :=
        insertMention (value st) (cursorPosition st)
          (Z.to_nat (mention_startIndex mentionContext)) (p_nickname selected) in
      set_text v c st in
    let do_insertCommand (selected : SlashCommand) :=
      let '(v, c) := insertCommand (cmd_name selected) in set_text v c st in
    let historyLength := Z.of_nat (length (messageHistory st)) in
    if anyAutocompleteActive && upArrow key then
      set_autocompleteIndex (option_up optionCount (autocompleteIndex st)) st
    else if anyAutocompleteActive && downArrow key then
      set_autocompleteIndex (option_down optionCount (autocompleteIndex st)) st
    else if anyAutocompleteActive && tab key then
      if mentionAutocompleteActive then
        match option_at mentionOptions (autocompleteIndex st) with
        | Some selected => do_insertMention selected
        | None => st
        end
      else
        match option_at cmdOptions (autocompleteIndex st) with
        | Some selected => do_insertCommand selected
        | None => st
        end
    else if negb anyAutocompleteActive && (0 <? historyLength)%Z && upArrow key then
      if (historyIndex st =? -1)%Z then
        let historyValue := history_at (messageHistory st) (historyLength - 1) in
        set_text historyValue (String.length historyValue)
          (set_historyIndex (historyLength - 1) (set_savedInput (value st) st))
      else if (0 <? historyIndex st)%Z then
        let historyValue := history_at (messageHistory st) (historyIndex st - 1) in
        set_text historyValue (String.length historyValue)
          (set_historyIndex (historyIndex st - 1) st)
      else st
    else if negb anyAutocompleteActive && (0 <? historyLength)%Z && downArrow key
            && negb (historyIndex st =? -1)%Z then
      if (historyIndex st <? historyLength - 1)%Z then
        let historyValue := history_at (messageHistory st) (historyIndex st + 1) in
        set_text historyValue (String.length historyValue)
          (set_historyIndex (historyIndex st + 1) st)
      else
        set_text (savedInput st) (String.length (savedInput st)) (set_historyIndex (-1) st)
    else if ctrl key && String.eqb input "j" then
      let st1 := if negb (historyIndex st =? -1)%Z then set_historyIndex (-1) st else st in
      set_text (insert_at (value st) (cursorPosition st) LF) (cursorPosition st + 1) st1
    else if return_ key then
      match (if commandAutocompleteActive
             then option_at cmdOptions (autocompleteIndex st) else None) with
      | Some selected => do_insertCommand selected
      | None =>
          match (if mentionAutocompleteActive
                 then option_at mentionOptions (autocompleteIndex st) else None) with
          | Some selected => do_insertMention selected
          | None => handleSubmit parseMentions props st
          end
      end
    else if escape key then
      if mention_isActive mentionContext && (0 <? length mentionOptions)%nat then
        let before := slice (value st) 0 (Z.to_nat (mention_startIndex mentionContext)) in
        let after := slice_from (value st) (cursorPosition st) in
        set_text (before +:+ after) (String.length before) st
      else if match pastedContent st with Some p => nonempty p | None => false end then
        set_pastedContent None st
      else if (0 <? String.length (value st))%nat then
        set_historyIndex (-1) (set_text EmptyString 0 st)
      else if isStreaming props && has_onCancelStream props then call OnCancelStream st
      else if exitHintActive st then
        let st1 := set_exitHint false false st in
        if has_onExit props then call OnExit st1 else st1
      else set_exitHint true true st
    else if ctrl key && String.eqb input "u" then set_text EmptyString 0 st
    else if backspace key || delete_ key then
      if (0 <? cursorPosition st)%nat then
        set_text
          (slice (value st) 0 (cursorPosition st - 1)
           +:+ slice_from (value st) (cursorPosition st))
          (cursorPosition st - 1) st
      else st
    else if leftArrow key then set_text (value st) (cursorPosition st - 1) st
    else if rightArrow key then
      set_text (value st) (Nat.min (String.length (value st)) (cursorPosition st + 1)) st
    else if negb (ctrl key) && negb (meta key) && nonempty input then
      let st1 := if negb (historyIndex st =? -1)%Z then set_historyIndex (-1) st else st in
      let st2 :=
        if exitHintActive st then set_exitHint false false st1 else st1 in
      if (150 <? String.length input)%nat then
        set_pastedContent (add_pasted (pastedContent st) input) st2
      else
        set_text (insert_at (value st) (cursorPosition st) input)
          (cursorPosition st + String.length input) st2
    else st.

(** The callback of the bracketed paste. *)
Definition on_paste (text : string) (st : InputState) : InputState :=
  if (String.length text <=? 100)%nat && negb (includes text LF) then
    set_text (insert_at (value st) (cursorPosition st) text)
      (cursorPosition st + String.length text) st
  else set_pastedContent (add_pasted (pastedContent st) text) st.

(** The timer that takes the exit hint away after two seconds. *)
Definition on_exitHint_timeout (st : InputState) : InputState :=
  if exitHintTimer st then set_exitHint false false st else st.

(** The lengths of [autocompleteOptions] and of [commandOptions], on which the
    effect that resets the highlighted option depends. *)
Definition options_lengths (props : InputProps) (st : InputState) : nat * nat :=
  (length (autocompleteOptions props (getMentionContext (value st) (cursorPosition st))),
   length (commandOptions (getCommandContext (value st) (cursorPosition st)))).

(** A render: the effect runs when one of the two lengths has changed. *)
Definition after_render (props : InputProps) (st : InputState) : InputState :=
  let now := options_lengths props st in
  if decide (now = rendered_options st) then st
  else set_rendered_options now (set_autocompleteIndex 0 st).

Inductive InputEvent :=
| KeyPress (input : string) (key : Key)
| Paste (text : string)
| ExitHintTimeout.

Definition handle_input (parseMentions : string -> list Participant -> ParseResult)
    (props : InputProps) (ev : InputEvent) (st : InputState) : InputState :=
  match ev with
  | KeyPress input key => on_key parseMentions props input key st
  | Paste text => on_paste text st
  | ExitHintTimeout => on_exitHint_timeout st
  end.

(** One event: the component is rendered with the properties of the moment,
    the handler of that render runs, and the component is rendered again. *)
Definition input_step (parseMentions : string -> list Participant -> ParseResult)
    (st : InputState) (ev : InputProps * InputEvent) : InputState :=
  after_render ev.1 (handle_input parseMentions ev.1 ev.2 (after_render ev.1 st)).

Definition input_run (parseMentions : string -> list Participant -> ParseResult)
    (evs : list (InputProps * InputEvent)) (st : InputState) : InputState :=
  fold_left (input_step parseMentions) evs st.

(** The state at the first render. *)
Definition new_input : InputState :=
  mkInputState EmptyString 0 0 false false None [] (-1) EmptyString (0, 0)%nat [].

(** * Vocabulary of the properties *)

(** The answer a pending approval gets when [clearPendingApprovals] calls its
    resolver with [approved: false]. *)
Definition denied (kr : string * Resolver) : string * string :=
  (promise_of (snd kr), "denied-interactively-by-user").

(** What a callback of the running turn leaves alone. *)
Definition same_gate (w w' : Worker) : Prop :=
  autoApproveBudget (fields w') = autoApproveBudget (fields w)
  /\ pendingApprovals (fields w') = pendingApprovals (fields w)
  /\ approvalCounter (fields w') = approvalCounter (fields w)
  /\ currentOnStream (fields w') = currentOnStream (fields w)
  /\ replies (world w') = replies (world w)
  /\ outcomes (world w') = outcomes (world w)
  /\ clock (world w') = clock (world w).

(** A worker for the agent [copilot] with every tool available, its context
    and a request to run a shell command. *)
Definition sample_profile : AgentProfile := mkProfile "copilot" None.
Definition sample_context : ExecutionContext := mkContext 30000 true.
Definition sample_request : PermissionRequest :=
  mkRequest "shell" [("toolName", "bash")].

(** A turn in which one approval is pending. *)
Definition sample_waiting : Worker :=
  run sample_profile
    [Execute "t1" sample_context; SessionReady; PermissionRequested sample_request]
    new_worker.

(** The approval ids announced on the stream so far. *)
Definition approval_ids (events : list OrchestrationStreamEvent) : list string :=
  omap (fun e => match e with
                 | Ev_approval_required _ _ _ approvalId _ _ => Some approvalId
                 | _ => None
                 end) events.

(** The keys of [pendingApprovals]. *)
Definition pending_ids (w : Worker) : list string :=
  map fst (pendingApprovals (fields w)).

(** The part of the invariant that concerns the call of [execute]. *)
Definition turn_ok (w : Worker) : Prop :=
  match turn w with
  | InPromise c =>
      resolved c = false /\ settled c = None
      /\ resetIdleTimeout (fields w) = true /\ currentOnStream (fields w) = true
  | AwaitingSession _ _ =>
      resetIdleTimeout (fields w) = false /\ currentOnStream (fields w) = true
  | NoTurn =>
      resetIdleTimeout (fields w) = false /\ currentOnStream (fields w) = false
  end.

(** The part of the invariant that concerns the approval gate. *)
Record gate_ok (p : AgentProfile) (w : Worker) : Prop := mkGateOk {
  gate_tools : pendingApprovals (fields w) <> [] -> toolsEnabled p = true;
  gate_ids :
    forall id, id ∈ approval_ids (emitted (world w)) ->
      exists k, (1 <= k <= approvalCounter (fields w))%N
                /\ id = approvalId_of (profile_id p) k;
  gate_nodup : NoDup (approval_ids (emitted (world w)))
}.

(** A step that asks for no approval. *)
Definition quiet (w w' : Worker) : Prop :=
  approvalCounter (fields w') = approvalCounter (fields w)
  /\ approval_ids (emitted (world w')) = approval_ids (emitted (world w))
  /\ (pendingApprovals (fields w) = [] -> pendingApprovals (fields w') = []).

(** A callback of the running turn keeps the turn in its promise; it leaves
    the promise pending with [resolved] unset, or it settles the promise. *)
Definition keeps_promise (h : Worker -> Worker) : Prop :=
  forall f c wd,
    resolved c = false -> settled c = None ->
    exists f' c' wd',
      h (mkWorker f (InPromise c) wd) = mkWorker f' (InPromise c') wd'
      /\ traceId c' = traceId c
      /\ (settled c' = None -> resolved c' = false)
      /\ (resetIdleTimeout f = true -> resetIdleTimeout f' = true)
      /\ currentOnStream f' = currentOnStream f.

(** A running turn that has received the token [hi]. *)
Definition sample_streaming : Worker :=
  run sample_profile
    [Execute "t1" sample_context; SessionReady;
     Event (AssistantMessageDelta (Some "hi"))]
    new_worker.

(** The two session events that settle the promise of the turn. *)
Definition terminal_event (e : SessionEvent) : bool :=
  match e with
  | SessionIdle | SessionError _ => true
  | _ => false
  end.

(** The instant at which a timer armed now is due. *)
Definition due_after (w : Worker) (c : Closure) : Z :=
  clock (world w) + Z.max 0 (timeoutBudget (context c)).




(** The request makes the gate prompt: it is suspended under a new id. *)
Definition prompts (p : AgentProfile) (request : PermissionRequest) (w : Worker) : Prop :=
  exists id w', onPermissionRequest p request w = (Suspended id, w').

(** Two approvals pending at once. *)
Definition sample_two_waiting : Worker :=
  run sample_profile
    [Execute "t1" sample_context; SessionReady; PermissionRequested sample_request;
     PermissionRequested sample_request]
    new_worker.

(** The messages a run of the effect promotes, in the order of the scan. *)
Definition newlyCompleted_of (messages : list Message) (streamingMessageIds : gset string)
    (app : ChatApp) : list Message :=
  snd (promotion_scan streamingMessageIds messages (staticIds app) []).

(** The same messages in the order in which they are appended. *)
Definition promoted_batch (messages : list Message) (streamingMessageIds : gset string)
    (streamingOrder : list string) (app : ChatApp) : list Message :=
  Array_sort (compare_completed streamingOrder)
    (newlyCompleted_of messages streamingMessageIds app).

(** The entry appended for a promoted message. *)
Definition message_entry (m : Message) : StaticEntry := MessageEntry (msg_id m) m.

(** The order of the code: by [indexOf] of the sender in the dispatch order
    (-1 for a sender that is not in it), and by timestamp among senders that
    are not in it. *)
Definition dispatch_before (streamingOrder : list string) (a b : Message) : Prop :=
  indexOf (senderId a) streamingOrder < indexOf (senderId b) streamingOrder
  \/ (indexOf (senderId a) streamingOrder = indexOf (senderId b) streamingOrder
      /\ (indexOf (senderId a) streamingOrder = -1 -> timestamp a <= timestamp b)).

(** The order of the claim: by position, every tie broken by timestamp. *)
Definition claimed_before (streamingOrder : list string) (a b : Message) : Prop :=
  indexOf (senderId a) streamingOrder < indexOf (senderId b) streamingOrder
  \/ (indexOf (senderId a) streamingOrder = indexOf (senderId b) streamingOrder
      /\ timestamp a <= timestamp b).

(** The empty chat view. *)
Definition new_app : ChatApp := mkChatApp ∅ [] None [] None [].

(** Two finished messages of one sender, the later one listed first. *)
Definition sample_messages : list Message :=
  [mkMessage "m1" "A" "first" "complete" 5; mkMessage "m2" "A" "second" "complete" 3].

(** A plan that waits for the user's answer. *)
Definition sample_plan : PendingPlanApproval :=
  mkPendingPlan [mkPlanStep "A" "draft"; mkPlanStep "B" "review"] "write it" "two steps".

(** The chat view while that plan waits. *)
Definition sample_planning : ChatApp :=
  mkChatApp ∅ [] (Some sample_plan) [] (Some (mkPlanProgress [] 0 None)) [].

(** Events a callback of the running turn may put on the stream: tokens and
    tool activity, the latter never the start or the end of a hidden tool. *)
Definition progress_event (e : OrchestrationStreamEvent) : Prop :=
  match e with
  | Ev_token _ _ _ => True
  | Ev_agent_activity _ _ toolName kind =>
      kind = "progress" \/ exists t, toolName = Some t /\ hidden_tool t = false
  | _ => False
  end.

(** The result of [execute] that a [complete] or [error] event announces. *)
Definition terminal_of (e : OrchestrationStreamEvent) : option TurnOutcome :=
  match e with
  | Ev_complete _ _ content => Some (Returned content)
  | Ev_error _ _ code message _ => Some (Threw code message)
  | _ => None
  end.

(** An activity event that shows the start or the end of a tool names a tool
    that is not hidden. *)
Definition shown_tool_ok (e : OrchestrationStreamEvent) : Prop :=
  match e with
  | Ev_agent_activity _ _ toolName kind =>
      kind = "start" \/ kind = "complete" ->
      exists t, toolName = Some t /\ hidden_tool t = false
  | _ => True
  end.

(** The ids of the permission promises that have been settled. *)
Definition answered_ids (w : Worker) : list string :=
  map fst (replies (world w)).

(** Every pending approval is filed under the id of its own promise, once. *)
Definition pending_ok (w : Worker) : Prop :=
  NoDup (pending_ids w)
  /\ Forall (fun kr => promise_of (snd kr) = fst kr) (pendingApprovals (fields w)).

(** The answer the resolver of an approval gives to the SDK. *)
Definition answer_of (response : ApprovalResponse) : string :=
  if approved response then "approved" else "denied-interactively-by-user".

(** The non-empty texts among the [deltaContent] fields of a run of
    [assistant.message_delta] events. *)
Definition delta_texts (deltas : list (option string)) : list string :=
  omap truthy deltas.

(** The texts of a list joined in order. *)
Definition join_texts (texts : list string) : string :=
  fold_right String.append EmptyString texts.

(** The ids of the message entries of a log. *)
Definition message_ids (entries : list StaticEntry) : list string :=
  omap (fun e => match e with
                 | MessageEntry id _ => Some id
                 | PlanEntry _ _ _ => None
                 end) entries.

(** Every message in the log has its id among the promoted ids and no id has
    two message entries. *)
Definition log_ok (app : ChatApp) : Prop :=
  NoDup (message_ids (staticEntries app))
  /\ forall id, id ∈ message_ids (staticEntries app) -> id ∈ staticIds app.

(** What the two handlers of the chat view are run with. *)
Inductive ChatAction :=
| Promote (messages : list Message) (streamingMessageIds : gset string)
    (streamingOrder : list string)
| PlanKey (input : string) (now : Z).

Definition chat_step (a : ChatAction) (app : ChatApp) : ChatApp :=
  match a with
  | Promote messages streamingMessageIds streamingOrder =>
      promote messages streamingMessageIds streamingOrder app
  | PlanKey input now => plan_input input now app
  end.

Definition chat_run (actions : list ChatAction) (app : ChatApp) : ChatApp :=
  fold_left (fun acc a => chat_step a acc) actions app.

(** The character at [j] does not end the scan for a mention: it is no [@],
    no space and no line feed (or there is no character at [j]). *)
Definition mention_char (value : string) (j : nat) : Prop :=
  forall c, String.get j value = Some c ->
    c <> "@"%char /\ c <> " "%char /\ c <> ascii_of_nat 10.

(** An [@] at [k] opens a mention that reaches up to the cursor. *)
Definition mention_open (value : string) (cursorPosition k : nat) : Prop :=
  (k < cursorPosition)%nat /\ String.get k value = Some "@"%char
  /\ forall j, (k < j < cursorPosition)%nat -> mention_char value j.

(** The capital letters among the code units below 256, and the strings
    without any. *)
Definition capital (c : ascii) : bool :=
  let n := nat_of_ascii c in
  ((65 <=? n) && (n <=? 90) || (192 <=? n) && (n <=? 222) && negb (n =? 215))%nat.

Fixpoint no_capital (s : string) : Prop :=
  match s with
  | EmptyString => True
  | String c s' => capital c = false /\ no_capital s'
  end.

(** The text [hi @Éo], with its capital letter of Latin-1. *)
Definition sample_mention : string :=
  "hi @" +:+ String (ascii_of_nat 201) "o".

(** The number of characters before line [i]: the lines above it, each with
    its line feed. *)
Definition line_offset (lines : list string) (i : nat) : nat :=
  sum_list (map (fun line => String.length line + 1)%nat (take i lines)).

(** What a prompt is expected to hold: the prefix with the guidance of the
    orchestrator, if there is any; one line for a forwarded message; and the
    block of the forwarded messages, which is empty when there is none. *)
Definition guidance_prefix (orchestratorGuidance : option string) : string :=
  match orchestratorGuidance with
  | None => EmptyString
  | Some guidance =>
      if String.eqb guidance EmptyString then EmptyString
      else "[Orchestrator Instructions]" +:+ LF +:+ guidance +:+ LF +:+ LF
  end.

Definition forwarded_line (m : HistoryMessage) : string :=
  match h_name m with
  | Some name => name +:+ ": " +:+ h_content m
  | None => "Another model: " +:+ h_content m
  end.

Definition context_block (forwarded : list HistoryMessage) : string :=
  match forwarded with
  | [] => EmptyString
  | _ =>
      LF +:+ LF +:+ "<group_chat_context>" +:+ LF
      +:+ join (LF +:+ LF) (map forwarded_line forwarded)
      +:+ LF +:+ "</group_chat_context>"
  end.

(** Two other agents have spoken; the second call sees one more message. *)
Definition sample_history : list HistoryMessage :=
  [mkHistoryMessage "user" "hello" None;
   mkHistoryMessage "assistant" "hi from B" (Some "B");
   mkHistoryMessage "assistant" "hi from me" (Some "A")].

(** The cursor lies within the text and the history index is [-1] or the index
    of a recorded message. *)
Definition editor_ok (st : InputState) : Prop :=
  (cursorPosition st <= String.length (value st))%nat
  /\ (-1 <= historyIndex st < Z.of_nat (length (messageHistory st)))%Z.

(** At most a hundred messages, none of them empty, none equal to the one
    recorded just before it. *)
Definition history_ok (history : list string) : Prop :=
  (length history <= 100)%nat
  /\ Forall (fun m => m <> EmptyString) history
  /\ (forall i a b, history !! i = Some a -> history !! S i = Some b -> a <> b).

Fixpoint no_space (s : string) : Prop :=
  match s with
  | EmptyString => True
  | String c s' => is_space c = false /\ no_space s'
  end.

(** A command word without white space, and arguments that are words. *)
Definition command_ok (c : InputCall) : Prop :=
  match c with
  | OnCommand command args =>
      no_space command /\ Forall (fun a => a <> EmptyString /\ no_space a) args
  | _ => True
  end.

Definition is_exit (c : InputCall) : bool :=
  match c with
  | OnExit => true
  | _ => false
  end.

(** A key press with the Escape flag. *)
Definition is_escape_press (ev : InputProps * InputEvent) : bool :=
  match ev.2 with
  | KeyPress _ key => escape key
  | _ => false
  end.

(** The name of the option that Tab takes from the list that is shown. *)
Definition highlighted (props : InputProps) (st : InputState) : option string :=
  let mentionOptions :=
    autocompleteOptions props (getMentionContext (value st) (cursorPosition st)) in
  let cmdOptions := commandOptions (getCommandContext (value st) (cursorPosition st)) in
  if (0 <? length mentionOptions)%nat
  then p_nickname <$> option_at mentionOptions (autocompleteIndex st)
  else cmd_name <$> option_at cmdOptions (autocompleteIndex st).

(** One of the two lists of options is shown. *)
Definition autocomplete_shown (props : InputProps) (st : InputState) : bool :=
  (0 <? (options_lengths props st).1)%nat || (0 <? (options_lengths props st).2)%nat.

(** The length of the list of options that is shown, from the two lengths. *)
Definition shown_count (lengths : nat * nat) : Z :=
  if (0 <? lengths.1)%nat then Z.of_nat lengths.1 else Z.of_nat lengths.2.

Definition highlight_ok (st : InputState) : Prop :=
  (0 <= autocompleteIndex st < Z.max 1 (shown_count (rendered_options st)))%Z.

Definition sample_props : InputProps :=
  mkInputProps
    [mkParticipant "m1" "model" "gpt" "GPT";
     mkParticipant "m2" "model" "opus" "Opus";
     mkParticipant "u1" "user" "me" "Me"]
    false false None false false true true.

Definition no_key : Key :=
  mkKey false false false false false false false false false false false.
Definition key_return : Key :=
  mkKey false false false false false true false false false false false.
Definition key_down : Key :=
  mkKey false true false false false false false false false false false.

(** A parser that finds no mention. *)
Definition sample_parser (content : string) (_ : list Participant) : ParseResult :=
  mkParseResult "broadcast" [] content.

(** The last character, if there is one, is not white space. *)
Fixpoint ends_clean (s : string) : Prop :=
  match s with
  | EmptyString => True
  | String c EmptyString => is_space c = false
  | String _ s' => ends_clean s'
  end.

(** * Properties *)

(** ** Permission kinds *)

Lemma eqb_false_of_not_elem (k a : string) (l : list string) :
  a ∈ l -> k ∉ l -> String.eqb k a = false.
Proof.
  intros Ha Hk. apply String.eqb_neq. intros ->. contradiction.
Qed.

(** C8: every kind string is mapped into the [PermissionKind] union, and a
    kind string that is none of the recognized aliases is mapped to
    [write]. *)
Theorem mapPermissionKind_total (kind : string) :
  mapPermissionKind kind ∈ PermissionKinds
  /\ (kind ∉ recognizedKinds -> mapPermissionKind kind = "write").
Proof.
  split.
  - unfold mapPermissionKind, PermissionKinds.
    repeat (match goal with |- context [if ?b then _ else _] => destruct b end);
      set_solver.
  - intros Hk. unfold mapPermissionKind.
    rewrite !(fun a H => eqb_false_of_not_elem kind a recognizedKinds H Hk)
      by (unfold recognizedKinds; set_solver).
    reflexivity.
Qed.

Lemma mapPermissionKind_total_witness :
  mapPermissionKind "execute" ∈ PermissionKinds
  /\ mapPermissionKind "execute" = "write".
Proof.
  destruct (mapPermissionKind_total "execute") as [H1 H2].
  split; [exact H1 |].
  apply H2. unfold recognizedKinds. intros H.
  repeat (apply elem_of_cons in H as [H | H]; [discriminate H |]).
  inversion H.
Defined.

(** ** Frame lemmas for the worker *)

Lemma clear_fold (l : list (string * Resolver)) (w : Worker) :
  fold_left (fun acc kr => call_resolver (snd kr) (mkResponse false (Some 0)) acc) l w
  = mkWorker (fields w) (turn w)
      (mkWorld (clock (world w)) (emitted (world w))
         (replies (world w) ++ map denied l) (outcomes (world w))).
Proof.
  revert w. induction l as [|kr l IH]; intros [f t [ck em rp oc]]; simpl.
  - by rewrite app_nil_r.
  - rewrite IH. unfold call_resolver, reply, denied; simpl.
    by rewrite <- app_assoc.
Qed.

Lemma clearPendingApprovals_eq (w : Worker) :
  clearPendingApprovals w
  = mkWorker (set_pendingApprovals [] (fields w)) (turn w)
      (mkWorld (clock (world w)) (emitted (world w))
         (replies (world w) ++ map denied (pendingApprovals (fields w)))
         (outcomes (world w))).
Proof. unfold clearPendingApprovals. by rewrite clear_fold. Qed.

Ltac crush_handler :=
  repeat (simpl in *;
          match goal with
          | |- context [match ?x with _ => _ end] => destruct x eqn:?
          | |- _ /\ _ => split
          end);
  simpl in *; try reflexivity; try congruence.

Lemma on_session_event_same_gate p e w : same_gate w (on_session_event p e w).
Proof.
  unfold same_gate, on_session_event, resetTimeout, clearTimeout, with_closure.
  destruct w as [f [| |c] wd]; simpl; [tauto | tauto |].
  destruct (resolved c); [tauto |].
  destruct e; crush_handler.
Qed.

Lemma on_timer_same_gate p w : same_gate w (on_timer p w).
Proof.
  unfold same_gate, on_timer, resetTimeout, clearTimeout, with_closure.
  destruct w as [f [| |c] wd]; crush_handler.
Qed.

Lemma on_abort_same_gate p w : same_gate w (on_abort p w).
Proof.
  unfold same_gate, on_abort, clearTimeout, with_closure.
  destruct w as [f [| |c] wd]; crush_handler.
Qed.

Lemma on_send_failed_same_gate err w : same_gate w (on_send_failed err w).
Proof.
  unfold same_gate, on_send_failed, clearTimeout, with_closure.
  destruct w as [f [| |c] wd]; crush_handler.
Qed.

Lemma app_singleton_neq {A} (l : list A) (x : A) : l <> l ++ [x].
Proof.
  intros H. apply (f_equal length) in H. rewrite length_app in H. simpl in H. lia.
Qed.

(** ** Error exits *)

Lemma catch_block_spec p trace err w :
  pendingApprovals (fields (finally (catch_block p trace err w))) = []
  /\ replies (world (finally (catch_block p trace err w))) =
       replies (world w) ++ map denied (pendingApprovals (fields w))
  /\ emitted (world (finally (catch_block p trace err w))) =
       emitted (world w)
       ++ [Ev_error (profile_id p) trace (errorCode_of err) (errorMsg_of err)
             (negb (String.eqb (errorCode_of err) "CANCELLED"))]
  /\ outcomes (world (finally (catch_block p trace err w))) =
       outcomes (world w) ++ [Threw (errorCode_of err) (errorMsg_of err)].
Proof.
  unfold catch_block. rewrite clearPendingApprovals_eq. simpl. auto.
Qed.

Lemma after_promise_threw p w code cause :
  outcomes (world (after_promise p w)) = outcomes (world w) ++ [Threw code cause] ->
  exists c err,
    turn w = InPromise c /\ settled c = Some (Reject err)
    /\ after_promise p w = finally (catch_block p (traceId c) err w)
    /\ code = errorCode_of err /\ cause = errorMsg_of err.
Proof.
  unfold after_promise. destruct (turn w) as [| |c] eqn:Ht.
  - intros H. by apply app_singleton_neq in H.
  - intros H. by apply app_singleton_neq in H.
  - destruct (settled c) as [[result|err]|] eqn:Hs.
    + simpl. intros H. apply app_inv_head in H. discriminate H.
    + intros H. exists c, err.
      destruct (catch_block_spec p (traceId c) err w) as (_ & _ & _ & Ho).
      rewrite Ho in H. apply app_inv_head in H.
      injection H as -> ->. auto.
    + intros H. by apply app_singleton_neq in H.
Qed.

(** C5: when a step of the worker ends the turn with an error, whatever was
    pending is answered as denied, nothing stays pending, and the last event
    on the stream is the error event, whose [recoverable] flag is [false]
    exactly for the code [CANCELLED]. *)
Theorem turn_error_denies_pending p a w code cause :
  outcomes (world (step p a w)) = outcomes (world w) ++ [Threw code cause] ->
  pendingApprovals (fields (step p a w)) = []
  /\ replies (world (step p a w)) =
       replies (world w) ++ map denied (pendingApprovals (fields w))
  /\ exists trace recoverable,
       last (emitted (world (step p a w))) =
         Some (Ev_error (profile_id p) trace code cause recoverable)
       /\ (recoverable = false <-> code = "CANCELLED").
Proof.
  assert (Hflag : forall c : string,
             negb (String.eqb c "CANCELLED") = false <-> c = "CANCELLED").
  { intros c. rewrite negb_false_iff. apply String.eqb_eq. }
  assert (Hvia : forall w1,
             same_gate w w1 ->
             outcomes (world (after_promise p w1)) =
               outcomes (world w) ++ [Threw code cause] ->
             pendingApprovals (fields (after_promise p w1)) = []
             /\ replies (world (after_promise p w1)) =
                  replies (world w) ++ map denied (pendingApprovals (fields w))
             /\ exists trace recoverable,
                  last (emitted (world (after_promise p w1))) =
                    Some (Ev_error (profile_id p) trace code cause recoverable)
                  /\ (recoverable = false <-> code = "CANCELLED")).
  { intros w1 (_ & Hp & _ & _ & Hr & Ho & _) H. rewrite <- Ho in H.
    destruct (after_promise_threw p w1 code cause H) as (c & err & _ & _ & -> & -> & ->).
    destruct (catch_block_spec p (traceId c) err w1) as (E1 & E2 & E3 & _).
    rewrite E1, E2, E3, Hp, Hr.
    repeat split; try reflexivity.
    eexists _, _. rewrite last_snoc. split; [reflexivity | apply Hflag]. }
  destruct a; simpl.
  - unfold execute_begin. intros H. destruct (turn w); simpl in H;
      by apply app_singleton_neq in H.
  - unfold session_ready, resetTimeout. intros H. destruct (turn w); simpl in H;
      by apply app_singleton_neq in H.
  - unfold session_failed. destruct (turn w) as [|trace ctx|c] eqn:Ht;
      try (intros H; by apply app_singleton_neq in H).
    destruct (catch_block_spec p trace err w) as (E1 & E2 & E3 & E4).
    rewrite E1, E2, E3, E4. intros H.
    apply app_inv_head in H. injection H as <- <-.
    repeat split; try reflexivity.
    eexists _, _. rewrite last_snoc. split; [reflexivity | apply Hflag].
  - apply Hvia, on_session_event_same_gate.
  - apply Hvia, on_timer_same_gate.
  - apply Hvia, on_abort_same_gate.
  - apply Hvia, on_send_failed_same_gate.
  - unfold onPermissionRequest. intros H.
    repeat (match type of H with context [if ?b then _ else _] => destruct b end);
      simpl in H; by apply app_singleton_neq in H.
  - unfold resolveApproval, call_resolver, resetTimeout. intros H.
    repeat (match type of H with
            | context [match ?b with _ => _ end] => destruct b
            end; simpl in H);
      by apply app_singleton_neq in H.
  - intros H. by apply app_singleton_neq in H.
Qed.

Lemma turn_error_denies_pending_witness :
  pendingApprovals (fields (step sample_profile Abort sample_waiting)) = []
  /\ replies (world (step sample_profile Abort sample_waiting)) =
       [("copilot-perm-1", "denied-interactively-by-user")].
Proof.
  destruct (turn_error_denies_pending sample_profile Abort sample_waiting
              "CANCELLED" "Copilot worker copilot was cancelled")
    as (H1 & H2 & _).
  - vm_compute. reflexivity.
  - split; [exact H1 | exact H2].
Defined.

(** ** Invariants of the reachable states *)

Lemma approval_ids_snoc events e :
  approval_ids (events ++ [e])
  = approval_ids events
    ++ match e with
       | Ev_approval_required _ _ _ approvalId _ _ => [approvalId]
       | _ => []
       end.
Proof. unfold approval_ids. rewrite omap_app. by destruct e. Qed.

Lemma quiet_gate_ok p w w' : quiet w w' -> gate_ok p w -> gate_ok p w'.
Proof.
  intros (Hc & He & Hp) [H1 H2 H3]. split.
  - intros Hne. apply H1. intros E. by apply Hne, Hp.
  - rewrite He, Hc. exact H2.
  - by rewrite He.
Qed.

Lemma quiet_refl w : quiet w w.
Proof. by unfold quiet. Qed.

Lemma quiet_trans w1 w2 w3 : quiet w1 w2 -> quiet w2 w3 -> quiet w1 w3.
Proof.
  intros (a1 & a2 & a3) (b1 & b2 & b3). unfold quiet.
  rewrite b1, b2. auto.
Qed.

Ltac crush_quiet :=
  repeat (simpl in *;
          match goal with
          | |- context [match ?x with _ => _ end] => destruct x eqn:?
          | |- _ /\ _ => split
          end);
  simpl in *; rewrite ?approval_ids_snoc, ?app_nil_r;
  try reflexivity; try congruence; auto.

Lemma on_session_event_quiet p e w : quiet w (on_session_event p e w).
Proof.
  unfold quiet, on_session_event, resetTimeout, clearTimeout, with_closure.
  destruct w as [f [| |c] wd]; simpl; [tauto | tauto |].
  destruct (resolved c); [tauto |].
  destruct e; crush_quiet.
Qed.

Lemma on_timer_quiet p w : quiet w (on_timer p w).
Proof.
  unfold quiet, on_timer, resetTimeout, clearTimeout, with_closure.
  destruct w as [f [| |c] wd]; crush_quiet.
Qed.

Lemma on_abort_quiet p w : quiet w (on_abort p w).
Proof.
  unfold quiet, on_abort, clearTimeout, with_closure.
  destruct w as [f [| |c] wd]; crush_quiet.
Qed.

Lemma on_send_failed_quiet err w : quiet w (on_send_failed err w).
Proof.
  unfold quiet, on_send_failed, clearTimeout, with_closure.
  destruct w as [f [| |c] wd]; crush_quiet.
Qed.

Lemma catch_block_quiet p trace err w : quiet w (finally (catch_block p trace err w)).
Proof.
  unfold quiet, catch_block. rewrite clearPendingApprovals_eq. simpl.
  rewrite approval_ids_snoc, app_nil_r. auto.
Qed.

Lemma after_promise_quiet p w : quiet w (after_promise p w).
Proof.
  unfold after_promise. destruct (turn w) as [| |c]; try apply quiet_refl.
  destruct (settled c) as [[result|err]|]; try apply quiet_refl.
  - unfold quiet. simpl. rewrite approval_ids_snoc, app_nil_r. auto.
  - apply catch_block_quiet.
Qed.

Lemma resolveApproval_quiet id response w : quiet w (resolveApproval id response w).
Proof.
  unfold resolveApproval.
  destruct (map_get id (pendingApprovals (fields w))) eqn:Hg; [|apply quiet_refl].
  destruct (pendingApprovals (fields w)) eqn:Hp; [discriminate Hg |].
  unfold quiet, call_resolver, resetTimeout.
  destruct w as [f [| |c] wd]; crush_quiet.
Qed.

Lemma step_quiet p a w :
  (forall r, a <> PermissionRequested r) -> quiet w (step p a w).
Proof.
  intros Ha. destruct a; simpl.
  - unfold execute_begin. destruct (turn w); by unfold quiet.
  - unfold session_ready, resetTimeout.
    destruct (turn w); unfold quiet; simpl;
      rewrite ?approval_ids_snoc, ?app_nil_r; auto.
  - unfold session_failed. destruct (turn w); try apply quiet_refl.
    apply catch_block_quiet.
  - eapply quiet_trans; [apply on_session_event_quiet | apply after_promise_quiet].
  - eapply quiet_trans; [apply on_timer_quiet | apply after_promise_quiet].
  - eapply quiet_trans; [apply on_abort_quiet | apply after_promise_quiet].
  - eapply quiet_trans; [apply on_send_failed_quiet | apply after_promise_quiet].
  - by destruct (Ha r).
  - apply resolveApproval_quiet.
  - by unfold quiet.
Qed.

Lemma approvalId_of_inj agent : Inj (=) (=) (approvalId_of agent).
Proof.
  intros k1 k2 H. unfold approvalId_of in H.
  apply String.app_inj in H. apply String.app_inj in H.
  by apply pretty_N_inj in H.
Qed.

Lemma onPermissionRequest_gate_ok p request w :
  gate_ok p w -> gate_ok p (snd (onPermissionRequest p request w)).
Proof.
  intros Hok. unfold onPermissionRequest.
  destruct (String.eqb _ "read"); [exact Hok |].
  destruct (toolsEnabled p) eqn:Htools; [| exact Hok]. simpl.
  destruct (num_eq (autoApproveBudget (fields w)) 0); simpl.
  - destruct Hok as [H1 H2 H3].
    destruct (currentOnStream (fields w)); simpl.
    + split; simpl.
      * done.
      * intros id. rewrite approval_ids_snoc, elem_of_app, list_elem_of_singleton.
        intros [Hid | ->].
        -- destruct (H2 id Hid) as (k & Hk & ->). exists k. split; [lia | done].
        -- eexists. split; [| reflexivity]. lia.
      * rewrite approval_ids_snoc. apply NoDup_app. split; [done |]. split.
        -- intros id Hid. rewrite list_elem_of_singleton. intros ->.
           destruct (H2 _ Hid) as (k & Hk & Heq).
           apply approvalId_of_inj in Heq. lia.
        -- apply NoDup_singleton.
    + split; simpl; [done | | done].
      intros id Hid. destruct (H2 id Hid) as (k & Hk & ->).
      exists k. split; [lia | done].
  - eapply quiet_gate_ok; [| exact Hok].
    destruct (num_gt (autoApproveBudget (fields w)) 0); by unfold quiet.
Qed.

Lemma step_gate_ok p a w : gate_ok p w -> gate_ok p (step p a w).
Proof.
  intros Hok. destruct a;
    try (eapply quiet_gate_ok; [apply step_quiet; discriminate | exact Hok]).
  by apply onPermissionRequest_gate_ok.
Qed.

Ltac split_handler :=
  repeat (simpl;
          match goal with
          | |- context [truthy ?x] => destruct (truthy x)
          | |- context [hidden_tool ?x] => destruct (hidden_tool x)
          | |- context [(0 <? ?n)%nat] => destruct (0 <? n)%nat
          | |- context [(?a <=? ?b)%Z] => destruct (a <=? b)%Z
          | |- context [hasCancellationToken ?x] => destruct (hasCancellationToken x)
          | |- context [timer ?x] => destruct (timer x)
          end).

Ltac close_handler :=
  simpl; eexists _, _, _; split; [reflexivity |]; simpl;
  repeat split; auto; try discriminate.

Lemma on_session_event_keeps p e : keeps_promise (on_session_event p e).
Proof.
  intros f c wd Hr Hs.
  unfold on_session_event, resetTimeout, clearTimeout, with_closure, settle.
  simpl. rewrite Hr. destruct e; simpl; rewrite ?Hr, ?Hs; split_handler; close_handler.
Qed.

Lemma on_timer_keeps p : keeps_promise (on_timer p).
Proof.
  intros f c wd Hr Hs.
  unfold on_timer, resetTimeout, clearTimeout, with_closure, settle.
  split_handler; rewrite ?Hr, ?Hs; split_handler; close_handler.
Qed.

Lemma on_abort_keeps p : keeps_promise (on_abort p).
Proof.
  intros f c wd Hr Hs.
  unfold on_abort, clearTimeout, with_closure, settle.
  split_handler; rewrite ?Hr, ?Hs; split_handler; close_handler.
Qed.

Lemma on_send_failed_keeps err : keeps_promise (on_send_failed err).
Proof.
  intros f c wd Hr Hs.
  unfold on_send_failed, clearTimeout, with_closure, settle.
  simpl; rewrite ?Hr, ?Hs; close_handler.
Qed.

Lemma after_handler_turn_ok p h w :
  keeps_promise h -> (forall w', (forall c, turn w' <> InPromise c) -> h w' = w') ->
  turn_ok w -> turn_ok (after_promise p (h w)).
Proof.
  intros Hk Hid. unfold turn_ok at 1. destruct w as [f [|trace ctx|c] wd]; simpl.
  - intros H. rewrite Hid by done. by unfold after_promise, turn_ok.
  - intros H. rewrite Hid by done. by unfold after_promise, turn_ok.
  - intros (Hr & Hs & Hreset & Hon).
    destruct (Hk f c wd Hr Hs) as (f' & c' & wd' & -> & _ & Hres & Hreset' & Hon').
    unfold after_promise. simpl.
    destruct (settled c') as [[result|err]|] eqn:Hs'.
    + by unfold turn_ok.
    + unfold catch_block. rewrite clearPendingApprovals_eq. by unfold turn_ok.
    + unfold turn_ok. simpl. rewrite Hon'. auto.
Qed.

Lemma step_turn_ok p a w : turn_ok w -> turn_ok (step p a w).
Proof.
  destruct a; simpl.
  - unfold turn_ok, execute_begin. destruct w as [f [| |c] wd]; simpl; tauto.
  - unfold turn_ok, session_ready, resetTimeout. destruct w as [f [| |c] wd]; simpl; tauto.
  - unfold turn_ok, session_failed, catch_block. destruct w as [f [| |c] wd]; simpl;
      rewrite ?clearPendingApprovals_eq; simpl; tauto.
  - apply after_handler_turn_ok; [apply on_session_event_keeps |].
    intros [f t wd] Ht. unfold on_session_event. simpl in *.
    destruct t; try done. by destruct (Ht c).
  - apply after_handler_turn_ok; [apply on_timer_keeps |].
    intros [f t wd] Ht. unfold on_timer. simpl in *.
    destruct t; try done. by destruct (Ht c).
  - apply after_handler_turn_ok; [apply on_abort_keeps |].
    intros [f t wd] Ht. unfold on_abort. simpl in *.
    destruct t; try done. by destruct (Ht c).
  - apply after_handler_turn_ok; [apply on_send_failed_keeps |].
    intros [f t wd] Ht. unfold on_send_failed, clearTimeout, with_closure. simpl in *.
    destruct t; try done. by destruct (Ht c).
  - unfold turn_ok, onPermissionRequest.
    destruct (String.eqb _ "read"); [done |].
    destruct (toolsEnabled p); [| done]. simpl.
    destruct (num_eq (autoApproveBudget (fields w)) 0); simpl.
    + destruct (currentOnStream (fields w)) eqn:Hon; simpl; [| by rewrite Hon].
      by rewrite Hon.
    + by destruct (num_gt (autoApproveBudget (fields w)) 0).
  - unfold turn_ok, resolveApproval, call_resolver, resetTimeout.
    destruct (map_get _ _); [| done].
    destruct w as [f [| |c] wd]; simpl;
      destruct (resetIdleTimeout f) eqn:Hre; simpl;
      destruct (approved response); simpl;
      destruct (negb (strict_eq (budget response) 1)); simpl; rewrite ?Hre; tauto.
  - done.
Qed.

Lemma run_app p l1 l2 w : run p (l1 ++ l2) w = run p l2 (run p l1 w).
Proof. apply fold_left_app. Qed.

Lemma reachable_ok p w : reachable p w -> turn_ok w /\ gate_ok p w.
Proof.
  intros [actions ->].
  induction actions as [|a actions IH] using rev_ind.
  - split; [by unfold turn_ok |].
    split; simpl; [done | | apply NoDup_nil_2].
    intros id Hid. by apply elem_of_nil in Hid.
  - rewrite run_app. simpl. destruct IH as [IH1 IH2].
    split; [by apply step_turn_ok | by apply step_gate_ok].
Qed.

(** ** The read fast path *)

(** C9: a request whose kind maps to [read] is answered [approved] at once and
    leaves the whole worker state as it was (no event, the budget untouched,
    nothing pending); hence a request that is suspended, or that puts an event
    on the stream, has a kind that does not map to [read]. *)
Theorem read_requests_bypass_gate p request w :
  (mapPermissionKind (req_kind request) = "read" ->
   onPermissionRequest p request w = (Answer "approved", w))
  /\ (forall id, fst (onPermissionRequest p request w) = Suspended id ->
      mapPermissionKind (req_kind request) <> "read")
  /\ (emitted (world (snd (onPermissionRequest p request w))) <> emitted (world w) ->
      mapPermissionKind (req_kind request) <> "read").
Proof.
  assert (H : mapPermissionKind (req_kind request) = "read" ->
              onPermissionRequest p request w = (Answer "approved", w)).
  { intros E. unfold onPermissionRequest. by rewrite E. }
  split; [exact H |]. split.
  - intros id Hs E. rewrite (H E) in Hs. discriminate Hs.
  - intros Hne E. rewrite (H E) in Hne. by apply Hne.
Qed.

Lemma read_requests_bypass_gate_witness :
  onPermissionRequest sample_profile (mkRequest "file-read" []) sample_waiting
  = (Answer "approved", sample_waiting).
Proof.
  apply (read_requests_bypass_gate sample_profile (mkRequest "file-read" [])
           sample_waiting).
  reflexivity.
Defined.

(** ** [session.error] *)

Lemma length_pos_nonempty (s : string) :
  (0 <? String.length s)%nat = true <-> s <> EmptyString.
Proof.
  destruct s; simpl; split; done.
Qed.

(** C10: in a running turn, [session.error] ends the turn with the content
    gathered so far when there is some (a [complete] event, a returned
    response), and with a [WORKER_EXECUTION] error only when there is none. *)
Theorem session_error_keeps_content p w c message :
  reachable p w -> turn w = InPromise c ->
  (fullContent c <> EmptyString ->
   outcomes (world (step p (Event (SessionError message)) w)) =
     outcomes (world w) ++ [Returned (fullContent c)]
   /\ emitted (world (step p (Event (SessionError message)) w)) =
        emitted (world w) ++ [Ev_complete (profile_id p) (traceId c) (fullContent c)])
  /\ (fullContent c = EmptyString ->
      outcomes (world (step p (Event (SessionError message)) w)) =
        outcomes (world w)
        ++ [Threw "WORKER_EXECUTION"
              ("Copilot error: " +:+ default "Unknown Copilot error" message)]
      /\ emitted (world (step p (Event (SessionError message)) w)) =
           emitted (world w)
           ++ [Ev_error (profile_id p) (traceId c) "WORKER_EXECUTION"
                 ("Copilot error: " +:+ default "Unknown Copilot error" message) true])
  /\ (forall code cause,
        outcomes (world (step p (Event (SessionError message)) w)) =
          outcomes (world w) ++ [Threw code cause] ->
        fullContent c = EmptyString /\ code = "WORKER_EXECUTION").
Proof.
  intros Hreach Ht. destruct (reachable_ok p w Hreach) as [Hturn _].
  unfold turn_ok in Hturn. rewrite Ht in Hturn. destruct Hturn as (Hr & Hs & _).
  destruct w as [f t wd]. simpl in Ht. subst t.
  assert (Hne : fullContent c <> EmptyString ->
                step p (Event (SessionError message)) (mkWorker f (InPromise c) wd)
                = finally
                    (finish (Returned (fullContent c))
                       (emit (Ev_complete (profile_id p) (traceId c) (fullContent c))
                          (mkWorker (set_resetIdleTimeout true f)
                             (InPromise
                                (mkClosure (traceId c) (context c) (fullContent c) true None
                                   (Some (Resolve (fullContent c))))) wd)))).
  { intros Hc. apply length_pos_nonempty in Hc.
    unfold step, on_session_event, after_promise, resetTimeout, clearTimeout,
      with_closure, settle.
    repeat (simpl; rewrite ?Hr, ?Hs, ?Hc). reflexivity. }
  assert (He : fullContent c = EmptyString ->
               step p (Event (SessionError message)) (mkWorker f (InPromise c) wd)
               = finally
                   (catch_block p (traceId c)
                      (OrchestrationError "WORKER_EXECUTION"
                         ("Copilot error: " +:+ default "Unknown Copilot error" message))
                      (mkWorker (set_resetIdleTimeout true f)
                         (InPromise
                            (mkClosure (traceId c) (context c) (fullContent c) true None
                               (Some
                                  (Reject
                                     (OrchestrationError "WORKER_EXECUTION"
                                        ("Copilot error: "
                                         +:+ default "Unknown Copilot error" message))))))
                         wd))).
  { intros Hc.
    unfold step, on_session_event, after_promise, resetTimeout, clearTimeout,
      with_closure, settle.
    repeat (simpl; rewrite ?Hr, ?Hs, ?Hc). reflexivity. }
  split; [| split].
  - intros Hc. rewrite (Hne Hc). by simpl.
  - intros Hc. rewrite (He Hc).
    match goal with
    | |- context [catch_block ?p ?t ?e ?w0] =>
        destruct (catch_block_spec p t e w0) as (_ & _ & E3 & E4)
    end.
    rewrite E3, E4. by simpl.
  - intros code cause. destruct (decide (fullContent c = EmptyString)) as [Hc | Hc].
    + rewrite (He Hc).
      match goal with
      | |- context [catch_block ?p ?t ?e ?w0] =>
          destruct (catch_block_spec p t e w0) as (_ & _ & _ & E4)
      end.
      rewrite E4. simpl. intros H. apply app_inv_head in H. by injection H as <- _.
    + rewrite (Hne Hc). simpl. intros H. apply app_inv_head in H. discriminate H.
Qed.

Lemma session_error_keeps_content_witness :
  outcomes (world (step sample_profile (Event (SessionError (Some "boom")))
                     sample_streaming))
  = [Returned "hi"].
Proof.
  assert (Hreach : reachable sample_profile sample_streaming) by (by eexists).
  destruct (session_error_keeps_content sample_profile sample_streaming
              (mkClosure "t1" sample_context "hi" false (Some 30000) None)
              (Some "boom") Hreach eq_refl) as (H & _ & _).
  apply H. discriminate.
Defined.

(** ** The idle timer *)

Lemma resolveApproval_running f c wd id r response :
  map_get id (pendingApprovals f) = Some r -> resetIdleTimeout f = true ->
  exists f' wd',
    resolveApproval id response (mkWorker f (InPromise c) wd)
    = mkWorker f'
        (InPromise (set_timer (Some (clock wd + Z.max 0 (timeoutBudget (context c)))) c))
        wd'
    /\ pendingApprovals f' = map_delete id (pendingApprovals f)
    /\ clock wd' = clock wd /\ outcomes wd' = outcomes wd /\ emitted wd' = emitted wd.
Proof.
  intros Hg Hre. unfold resolveApproval, call_resolver, resetTimeout. simpl.
  rewrite Hg. simpl. rewrite Hre. simpl.
  destruct (approved response); simpl;
    destruct (negb (strict_eq (budget response) 1)); simpl;
    eexists _, _; (split; [reflexivity |]); simpl; auto.
Qed.

Lemma timeout_fires p w c due :
  turn w = InPromise c ->
  resolved c = false -> settled c = None -> timer c = Some due ->
  (due <=? clock (world w))%Z = true -> pendingApprovals (fields w) = [] ->
  exists cause,
    outcomes (world (step p TimerFires w)) =
      outcomes (world w) ++ [Threw "TIMEOUT" cause]
    /\ last (emitted (world (step p TimerFires w))) =
         Some (Ev_error (profile_id p) (traceId c) "TIMEOUT" cause true).
Proof.
  destruct w as [f t wd]. simpl. intros -> Hr Hs Ht Hdue Hp.
  unfold step, on_timer, after_promise, clearTimeout, with_closure, settle.
  repeat (simpl; rewrite ?Hr, ?Hs, ?Ht, ?Hdue, ?Hp).
  eexists. rewrite last_snoc. split; reflexivity.
Qed.

(** C4: in a running turn with idle budget [T],
    - every session event that does not end the turn leaves the timer armed
      for [T] from now, and the two that end it, [session.idle] and
      [session.error], leave no turn behind;
    - a timer that fires while an approval is pending does not end the turn
      and is armed again;
    - a timer that fires while nothing is pending ends the turn with a
      [TIMEOUT] error, which is not [CANCELLED];
    - resolving a pending approval arms the timer for [T] from now, and once
      that time has passed with nothing pending the timer ends the turn with
      [TIMEOUT]. *)
Theorem idle_timer_policy p w c :
  reachable p w -> turn w = InPromise c ->
  (forall e, terminal_event e = false ->
     exists c', turn (step p (Event e) w) = InPromise c'
                /\ context c' = context c /\ timer c' = Some (due_after w c))
  /\ (forall e, terminal_event e = true -> turn (step p (Event e) w) = NoTurn)
  /\ (forall due, timer c = Some due -> due <= clock (world w) ->
        pendingApprovals (fields w) <> [] ->
        exists c', turn (step p TimerFires w) = InPromise c'
                   /\ context c' = context c /\ timer c' = Some (due_after w c)
                   /\ outcomes (world (step p TimerFires w)) = outcomes (world w))
  /\ (forall due, timer c = Some due -> due <= clock (world w) ->
        pendingApprovals (fields w) = [] ->
        exists cause,
          outcomes (world (step p TimerFires w)) =
            outcomes (world w) ++ [Threw "TIMEOUT" cause]
          /\ last (emitted (world (step p TimerFires w))) =
               Some (Ev_error (profile_id p) (traceId c) "TIMEOUT" cause true)
          /\ "TIMEOUT" <> "CANCELLED")
  /\ (forall id r response,
        map_get id (pendingApprovals (fields w)) = Some r ->
        (exists c', turn (resolveApproval id response w) = InPromise c'
                    /\ context c' = context c /\ timer c' = Some (due_after w c)
                    /\ outcomes (world (resolveApproval id response w)) =
                         outcomes (world w))
        /\ (map_delete id (pendingApprovals (fields w)) = [] ->
            exists cause,
              outcomes
                (world
                   (run p [Elapse (timeoutBudget (context c)); TimerFires]
                      (resolveApproval id response w))) =
                outcomes (world w) ++ [Threw "TIMEOUT" cause])).
Proof.
  intros Hreach Ht. destruct (reachable_ok p w Hreach) as [Hturn _].
  unfold turn_ok in Hturn. rewrite Ht in Hturn. destruct Hturn as (Hr & Hs & Hre & _).
  destruct w as [f t wd]. simpl in Ht. subst t. unfold due_after. simpl.
  split; [| split; [| split; [| split]]].
  - intros e He.
    unfold on_session_event, after_promise, resetTimeout, clearTimeout, with_closure.
    simpl. rewrite Hr.
    destruct e; try discriminate He; split_handler; simpl; rewrite ?Hs;
      eexists; (split; [reflexivity |]); by simpl.
  - intros e He.
    unfold on_session_event, after_promise, resetTimeout, clearTimeout, with_closure,
      settle.
    simpl. rewrite Hr.
    destruct e; try discriminate He; repeat (simpl; rewrite ?Hr, ?Hs);
      split_handler; reflexivity.
  - intros due Hdue Hle Hp. apply Z.leb_le in Hle.
    unfold on_timer, after_promise, resetTimeout, clearTimeout, with_closure.
    simpl. rewrite Hdue, Hle, Hr. simpl.
    destruct (pendingApprovals f) eqn:E; [done |]. simpl. rewrite Hs.
    eexists. (split; [reflexivity |]). by simpl.
  - intros due Hdue Hle Hp. apply Z.leb_le in Hle.
    destruct (timeout_fires p (mkWorker f (InPromise c) wd) c due eq_refl Hr Hs Hdue Hle Hp)
      as (cause & H1 & H2).
    exists cause. by repeat split.
  - intros id r response Hg.
    destruct (resolveApproval_running f c wd id r response Hg Hre)
      as (f' & wd' & -> & Hp' & Hck & Hout & Hem).
    split.
    + eexists. simpl. by repeat split.
    + intros Hnil. unfold run. cbn [fold_left].
      edestruct (timeout_fires p
                   (step p (Elapse (timeoutBudget (context c)))
                      (mkWorker f'
                         (InPromise
                            (set_timer
                               (Some (clock wd + Z.max 0 (timeoutBudget (context c)))) c))
                         wd')))
        as (cause & H1 & _).
      * reflexivity.
      * exact Hr.
      * exact Hs.
      * reflexivity.
      * simpl. rewrite Hck. apply Z.leb_refl.
      * simpl. by rewrite Hp'.
      * exists cause. etransitivity; [exact H1 |]. simpl. by rewrite Hout.
Qed.

Lemma idle_timer_policy_witness :
  exists cause,
    outcomes
      (world
         (run sample_profile [Elapse 30000; TimerFires]
            (resolveApproval "copilot-perm-1" (mkResponse true (Some 1)) sample_waiting)))
    = [Threw "TIMEOUT" cause].
Proof.
  assert (Hreach : reachable sample_profile sample_waiting) by (by eexists).
  destruct (idle_timer_policy sample_profile sample_waiting
              (mkClosure "t1" sample_context EmptyString false (Some 30000) None)
              Hreach eq_refl) as (_ & _ & _ & _ & H).
  destruct (H "copilot-perm-1" (mkResolver "copilot-perm-1") (mkResponse true (Some 1)) eq_refl)
    as [_ H2].
  apply H2. reflexivity.
Defined.

(** ** Approval ids and unknown ids *)

Lemma map_get_delete {V} k (m : list (string * V)) : map_get k (map_delete k m) = None.
Proof.
  induction m as [|[k' v] m IH]; simpl; [done |].
  destruct (String.eqb k k') eqn:E; [done |]. simpl. by rewrite E.
Qed.

Lemma map_get_None {V} k (m : list (string * V)) :
  map_get k m = None <-> k ∉ map fst m.
Proof.
  induction m as [|[k' v] m IH]; simpl.
  - split; [intros _; apply not_elem_of_nil | done].
  - rewrite not_elem_of_cons. destruct (String.eqb_spec k k') as [-> | Hne].
    + split; [done | by intros [? _]].
    + rewrite IH. tauto.
Qed.

Lemma resolveApproval_pending id response w r :
  map_get id (pendingApprovals (fields w)) = Some r ->
  pendingApprovals (fields (resolveApproval id response w))
  = map_delete id (pendingApprovals (fields w)).
Proof.
  intros Hg. unfold resolveApproval, call_resolver, resetTimeout. rewrite Hg.
  destruct w as [f [| |c] wd]; simpl;
    destruct (resetIdleTimeout f); simpl;
    destruct (approved response); simpl;
    destruct (negb (strict_eq (budget response) 1)); reflexivity.
Qed.

(** C7: the ids announced on the stream of a worker are pairwise distinct,
    each request that is suspended takes the next value of the counter for
    its id, and [resolveApproval] with an id that is not pending (never
    issued, or resolved before) returns the worker state as it was. *)
Theorem approval_ids_distinct_unknown_noop p w :
  reachable p w ->
  NoDup (approval_ids (emitted (world w)))
  /\ (forall request id w',
        onPermissionRequest p request w = (Suspended id, w') ->
        approvalCounter (fields w') = (approvalCounter (fields w) + 1)%N
        /\ id = approvalId_of (profile_id p) (approvalCounter (fields w'))
        /\ (id ∉ approval_ids (emitted (world w)))
        /\ approval_ids (emitted (world w')) = approval_ids (emitted (world w)) ++ [id])
  /\ (forall id response,
        id ∉ pending_ids w -> resolveApproval id response w = w)
  /\ (forall id response1 response2,
        resolveApproval id response2 (resolveApproval id response1 w)
        = resolveApproval id response1 w).
Proof.
  intros Hreach. destruct (reachable_ok p w Hreach) as [_ [_ Hids Hnd]].
  split; [exact Hnd |]. split; [| split].
  - intros request id w'. unfold onPermissionRequest.
    destruct (String.eqb _ "read"); [discriminate |].
    destruct (negb (toolsEnabled p)); [discriminate |].
    destruct (negb (num_eq (autoApproveBudget (fields w)) 0)); [discriminate |].
    simpl. destruct (negb (currentOnStream (fields w))); [discriminate |].
    intros H. injection H as <- <-. simpl. rewrite approval_ids_snoc.
    repeat split; try reflexivity.
    intros Hin. destruct (Hids _ Hin) as (k & Hk & Heq).
    apply approvalId_of_inj in Heq. lia.
  - intros id response Hid. apply map_get_None in Hid.
    unfold resolveApproval. by rewrite Hid.
  - intros id r1 r2.
    destruct (map_get id (pendingApprovals (fields w))) as [r|] eqn:Hg.
    + assert (Hnone : map_get id
                        (pendingApprovals (fields (resolveApproval id r1 w))) = None).
      { rewrite (resolveApproval_pending id r1 w r Hg). apply map_get_delete. }
      unfold resolveApproval at 1. by rewrite Hnone.
    + unfold resolveApproval. rewrite Hg. by rewrite Hg.
Qed.

Lemma approval_ids_distinct_unknown_noop_witness :
  NoDup (approval_ids (emitted (world sample_waiting)))
  /\ resolveApproval "copilot-perm-7" (mkResponse true (Some 5)) sample_waiting = sample_waiting.
Proof.
  assert (Hreach : reachable sample_profile sample_waiting) by (by eexists).
  destruct (approval_ids_distinct_unknown_noop sample_profile sample_waiting Hreach)
    as (H1 & _ & H3 & _).
  split; [exact H1 |].
  apply H3. unfold pending_ids. simpl.
  intros H. apply list_elem_of_singleton in H. discriminate H.
Defined.

(** ** The approval budget *)

Lemma permissionRequests_cons p r rs w :
  permissionRequests p (r :: rs) w
  = (fst (onPermissionRequest p r w)
       :: fst (permissionRequests p rs (snd (onPermissionRequest p r w))),
     snd (permissionRequests p rs (snd (onPermissionRequest p r w)))).
Proof.
  simpl. destruct (onPermissionRequest p r w) as [a w1]. simpl.
  by destruct (permissionRequests p rs w1).
Qed.

Lemma resolveApproval_fields id response w r :
  map_get id (pendingApprovals (fields w)) = Some r ->
  autoApproveBudget (fields (resolveApproval id response w))
  = (if approved response && negb (strict_eq (budget response) 1) then
       if strict_eq (budget response) (-1) then Num (-1)
       else Math_max 0 (minus (budget response) 1)
     else autoApproveBudget (fields w))
  /\ currentOnStream (fields (resolveApproval id response w)) = currentOnStream (fields w)
  /\ currentTraceId (fields (resolveApproval id response w)) = currentTraceId (fields w)
  /\ approvalCounter (fields (resolveApproval id response w)) = approvalCounter (fields w)
  /\ emitted (world (resolveApproval id response w)) = emitted (world w).
Proof.
  intros Hg. unfold resolveApproval, call_resolver, resetTimeout. rewrite Hg.
  destruct w as [f [| |c] wd]; simpl;
    destruct (resetIdleTimeout f); simpl;
    destruct (approved response); simpl;
    destruct (negb (strict_eq (budget response) 1)); simpl; done.
Qed.









Lemma map_get_Some_nonempty {V} k (m : list (string * V)) v :
  map_get k m = Some v -> m <> [].
Proof. by destruct m. Qed.



(** Requests that do reach the gate use up the budget one by one. *)
Lemma budget_spent p requests w b :
  toolsEnabled p = true ->
  Forall (fun r => mapPermissionKind (req_kind r) <> "read") requests ->
  autoApproveBudget (fields w) = Num b -> Z.of_nat (length requests) <= b ->
  autoApproveBudget (fields (snd (permissionRequests p requests w)))
  = Num (b - Z.of_nat (length requests))
  /\ currentOnStream (fields (snd (permissionRequests p requests w)))
     = currentOnStream (fields w).
Proof.
  intros Htools Hkinds. revert w b.
  induction Hkinds as [|r rs Hr _ IH]; intros w b Hb Hlen.
  { simpl. split; [| done]. rewrite Hb. f_equal. lia. }
  rewrite permissionRequests_cons. cbn [snd]. simpl length in Hlen.
  assert (Hstep : autoApproveBudget (fields (snd (onPermissionRequest p r w)))
                  = Num (b - 1)
                  /\ currentOnStream (fields (snd (onPermissionRequest p r w)))
                     = currentOnStream (fields w)).
  { unfold onPermissionRequest. apply String.eqb_neq in Hr. rewrite Hr, Htools, Hb. simpl.
    destruct (Z.eqb_spec b 0) as [E | E]; [lia |]. simpl.
    destruct (Z.ltb_spec 0 b); [done | lia]. }
  destruct Hstep as [E1 E2].
  destruct (IH (snd (onPermissionRequest p r w)) (b - 1) E1) as [I1 I2]; [lia |].
  rewrite I1, I2, E2. simpl length. split; [f_equal; lia | done].
Qed.

(** After a budget [N > 1] and [N - 1] requests that reached the gate, the
    budget is used up: the next such request prompts. *)
Lemma budget_exhausted_prompts p w id r N requests request :
  reachable p w -> map_get id (pendingApprovals (fields w)) = Some r ->
  turn w <> NoTurn -> 1 < N -> Z.of_nat (length requests) = N - 1 ->
  Forall (fun r => mapPermissionKind (req_kind r) <> "read") requests ->
  mapPermissionKind (req_kind request) <> "read" ->
  prompts p request
    (snd (permissionRequests p requests
            (resolveApproval id (mkResponse true (Some N)) w))).
Proof.
  intros Hreach Hg Hrun HN Hlen Hkinds Hkind.
  destruct (reachable_ok p w Hreach) as [Hturn [Htools _ _]].
  specialize (Htools (map_get_Some_nonempty _ _ _ Hg)).
  destruct (resolveApproval_fields id (mkResponse true (Some N)) w r Hg) as (Hb & Hon & _).
  simpl in Hb. destruct (Z.eqb_spec N 1) as [? | _]; [lia |]. simpl in Hb.
  destruct (Z.eqb_spec N (-1)) as [? | _]; [lia |].
  destruct (budget_spent p requests (resolveApproval id (mkResponse true (Some N)) w)
              (Z.max 0 (N - 1)) Htools Hkinds Hb) as [Hb' Hon']; [lia |].
  assert (Hstream : currentOnStream (fields w) = true).
  { unfold turn_ok in Hturn. destruct (turn w); [done | tauto | tauto]. }
  unfold prompts, onPermissionRequest.
  apply String.eqb_neq in Hkind. rewrite Hkind, Htools, Hb'.
  replace (Z.max 0 (N - 1) - Z.of_nat (length requests)) with 0 by lia.
  simpl. rewrite Hon', Hon, Hstream. simpl. by eexists _, _.
Qed.


(** ** Promotion into the static log *)

Lemma promotion_scan_spec S messages ids acc :
  exists new,
    snd (promotion_scan S messages ids acc) = acc ++ new
    /\ (forall x, (x ∈ fst (promotion_scan S messages ids acc))
                  <-> (x ∈ ids \/ x ∈ map msg_id new))
    /\ NoDup (map msg_id new)
    /\ (forall m, m ∈ new ->
          m ∈ messages /\ isComplete m = true /\ (msg_id m ∉ S) /\ msg_id m ∉ ids).
Proof.
  revert ids acc. induction messages as [|message rest IH]; intros ids acc; simpl.
  - exists []. rewrite app_nil_r. split; [done |]. split; [| split].
    + intros x. simpl. split; [by left |]. intros [Hx | Hx]; [done |].
      by apply elem_of_nil in Hx.
    + apply NoDup_nil_2.
    + intros m Hm. by apply elem_of_nil in Hm.
  - assert (Hskip :
      exists new,
        snd (promotion_scan S rest ids acc) = acc ++ new
        /\ (forall x, (x ∈ fst (promotion_scan S rest ids acc))
                      <-> (x ∈ ids \/ x ∈ map msg_id new))
        /\ NoDup (map msg_id new)
        /\ (forall m, m ∈ new ->
              m ∈ message :: rest /\ isComplete m = true /\ (msg_id m ∉ S)
              /\ msg_id m ∉ ids)).
    { destruct (IH ids acc) as (new & H1 & H2 & H3 & H4).
      exists new. split; [done |]. split; [done |]. split; [done |].
      intros m Hm. destruct (H4 m Hm) as (Hin & Hrest).
      split; [| done]. apply elem_of_cons. by right. }
    destruct (decide (msg_id message ∈ ids)) as [Hin | Hnin]; [exact Hskip |].
    destruct (decide (msg_id message ∈ S)) as [HinS | HninS]; [exact Hskip |].
    destruct (isComplete message) eqn:Hc; [| exact Hskip].
    clear Hskip.
    destruct (IH ({[msg_id message]} ∪ ids) (acc ++ [message]))
      as (new & H1 & H2 & H3 & H4).
    exists (message :: new). split; [| split; [| split]].
    + rewrite H1. by rewrite <- app_assoc.
    + intros x. rewrite H2. simpl.
      rewrite elem_of_cons, elem_of_union, elem_of_singleton. tauto.
    + simpl. apply NoDup_cons. split; [| done].
      intros Hdup. apply list_elem_of_fmap in Hdup as (m' & Heq & Hm').
      destruct (H4 m' Hm') as (_ & _ & _ & Hfresh).
      apply Hfresh. apply elem_of_union. left. by apply elem_of_singleton.
    + intros m Hm. apply elem_of_cons in Hm as [-> | Hm].
      * split; [apply elem_of_cons; by left | done].
      * destruct (H4 m Hm) as (Hin & Hcm & HS & Hids).
        split; [apply elem_of_cons; by right |]. split; [done |]. split; [done |].
        intros Hx. apply Hids. apply elem_of_union. by right.
Qed.

Section SortFacts.
Context {A : Type} (cmp : A -> A -> Z).

Lemma sort_insert_perm x l : sort_insert cmp x l ≡ₚ x :: l.
Proof.
  induction l as [|y l IH]; simpl; [done |].
  destruct (cmp x y <=? 0)%Z; [done |].
  rewrite IH. apply Permutation_swap.
Qed.

Lemma Array_sort_perm l : Array_sort cmp l ≡ₚ l.
Proof.
  induction l as [|x l IH]; simpl; [done |].
  by rewrite sort_insert_perm, IH.
Qed.

(** A class of elements that the comparator never tells apart in the
    wrong direction keeps its order. *)
Lemma sort_insert_filter (P : A -> Prop) `{!forall a, Decision (P a)} x l :
  (forall a b, P a -> P b -> cmp a b <= 0) ->
  filter P (sort_insert cmp x l) = filter P (x :: l).
Proof.
  intros Hclass. induction l as [|y l IH]; simpl; [done |].
  destruct (Z.leb_spec (cmp x y) 0) as [Hle | Hgt]; [done |].
  rewrite filter_cons, IH. rewrite !(filter_cons _ x), (filter_cons _ y).
  destruct (decide (P y)) as [Hy | Hy]; [| done].
  destruct (decide (P x)) as [Hx | Hx]; [| done].
  specialize (Hclass x y Hx Hy). lia.
Qed.

Lemma Array_sort_stable (P : A -> Prop) `{!forall a, Decision (P a)} l :
  (forall a b, P a -> P b -> cmp a b <= 0) ->
  filter P (Array_sort cmp l) = filter P l.
Proof.
  intros Hclass. induction l as [|x l IH]; simpl; [done |].
  rewrite sort_insert_filter by done. by rewrite !filter_cons, IH.
Qed.

Context (R : relation A).
Hypothesis R_cmp : forall a b, cmp a b <= 0 -> R a b.
Hypothesis R_total : forall a b, 0 < cmp a b -> R b a.
Hypothesis R_trans : forall a b c, R a b -> R b c -> R a c.

Lemma sort_insert_sorted x l :
  StronglySorted R l -> StronglySorted R (sort_insert cmp x l).
Proof.
  induction 1 as [|y l Hl IH Hy]; simpl.
  - repeat constructor.
  - destruct (Z.leb_spec (cmp x y) 0) as [Hle | Hgt].
    + constructor; [by constructor |].
      constructor; [by apply R_cmp |].
      eapply Forall_impl; [exact Hy |]. intros z Hz.
      eapply R_trans; [by apply R_cmp | done].
    + constructor; [done |].
      rewrite sort_insert_perm. constructor; [by apply R_total | done].
Qed.

Lemma Array_sort_sorted l : StronglySorted R (Array_sort cmp l).
Proof.
  induction l as [|x l IH]; simpl; [constructor | by apply sort_insert_sorted].
Qed.
End SortFacts.

Lemma indexOf_ge x l : -1 <= indexOf x l.
Proof.
  induction l as [|y l IH]; simpl; [lia |].
  destruct (String.eqb y x); [lia |].
  destruct (Z.eqb_spec (indexOf x l) (-1)); lia.
Qed.

Lemma indexOf_elem x l : x ∈ l -> indexOf x l <> -1.
Proof.
  induction l as [|y l IH]; simpl; [by intros ?%elem_of_nil |].
  intros Hin. destruct (String.eqb_spec y x) as [-> | Hne]; [lia |].
  apply elem_of_cons in Hin as [-> | Hin]; [done |].
  specialize (IH Hin). pose proof (indexOf_ge x l).
  destruct (Z.eqb_spec (indexOf x l) (-1)); lia.
Qed.

Lemma compare_completed_cases order a b :
  (compare_completed order a b <= 0 <-> dispatch_before order a b)
  /\ (0 < compare_completed order a b -> dispatch_before order b a).
Proof.
  unfold compare_completed, dispatch_before.
  pose proof (indexOf_ge (senderId a) order).
  pose proof (indexOf_ge (senderId b) order).
  destruct (Z.eqb_spec (indexOf (senderId a) order) (-1));
    destruct (Z.eqb_spec (indexOf (senderId b) order) (-1)); simpl; lia.
Qed.

Lemma dispatch_before_trans order a b c :
  dispatch_before order a b -> dispatch_before order b c -> dispatch_before order a c.
Proof. unfold dispatch_before. lia. Qed.

Lemma promote_entries messages S order app :
  staticEntries (promote messages S order app)
  = staticEntries app ++ map message_entry (promoted_batch messages S order app)
  /\ staticIds (promote messages S order app)
     = fst (promotion_scan S messages (staticIds app) []).
Proof.
  unfold promote, promoted_batch, newlyCompleted_of.
  destruct (promotion_scan S messages (staticIds app) []) as [ids new]. simpl.
  destruct new as [|m new]; simpl; [by rewrite app_nil_r | done].
Qed.

(** C3: a run of the promotion effect appends only messages that are in a
    terminal state, are not referenced by an active stream and whose id is
    not yet in the promoted-ids set; it appends no id twice and adds each
    appended id to the set, which never shrinks.  Hence an id that is in the
    set gets no further entry, whatever list of messages a later run scans. *)
Theorem promotion_idempotent messages S order app :
  exists added,
    staticEntries (promote messages S order app)
    = staticEntries app ++ map message_entry added
    /\ NoDup (map msg_id added)
    /\ (forall id, id ∈ staticIds app ->
          id ∈ staticIds (promote messages S order app)
          /\ id ∉ map msg_id added)
    /\ (forall m, m ∈ added ->
          m ∈ messages
          /\ (status m = "complete" \/ status m = "sent" \/ status m = "error")
          /\ (msg_id m ∉ S)
          /\ msg_id m ∈ staticIds (promote messages S order app)).
Proof.
  destruct (promote_entries messages S order app) as [He Hi].
  destruct (promotion_scan_spec S messages (staticIds app) [])
    as (new & H1 & H2 & H3 & H4).
  simpl in H1.
  assert (Hperm : promoted_batch messages S order app ≡ₚ new).
  { unfold promoted_batch, newlyCompleted_of. rewrite H1. apply Array_sort_perm. }
  exists (promoted_batch messages S order app).
  split; [exact He |]. split; [| split].
  - by rewrite Hperm.
  - intros id Hid. split.
    + rewrite Hi. apply H2. by left.
    + rewrite Hperm. intros Hin. apply list_elem_of_fmap in Hin as (m & -> & Hm).
      by destruct (H4 m Hm) as (_ & _ & _ & Hfresh).
  - intros m Hm. rewrite Hperm in Hm.
    destruct (H4 m Hm) as (Hin & Hc & HS & _).
    split; [done |]. split; [| split; [done |]].
    + unfold isComplete in Hc.
      apply orb_true_iff in Hc as [Hc | Hc]; [apply orb_true_iff in Hc as [Hc | Hc] |];
        apply String.eqb_eq in Hc; tauto.
    + rewrite Hi. apply H2. right. apply list_elem_of_fmap. by exists m.
Qed.

(** After a first run has promoted [m1], a second run adds no entry for it. *)
Lemma promotion_idempotent_witness :
  exists added,
    staticEntries
      (promote sample_messages ∅ ["A"] (promote sample_messages ∅ ["A"] new_app))
    = staticEntries (promote sample_messages ∅ ["A"] new_app) ++ map message_entry added
    /\ "m1" ∉ map msg_id added.
Proof.
  destruct (promotion_idempotent sample_messages ∅ ["A"]
              (promote sample_messages ∅ ["A"] new_app))
    as (added & He & _ & Hold & _).
  exists added. split; [exact He |].
  apply (Hold "m1"). apply (bool_decide_unpack _). vm_compute. exact I.
Defined.

(** C2, as the code has it: the batch is a permutation of the promotable
    messages, ordered by the index of the sender in the dispatch order, where
    a sender that is not in it counts as -1 and so comes first; messages of
    senders that are not in it are ordered by ascending timestamp; and the
    messages of one dispatched sender keep the order of the message list. *)
Theorem promoted_batch_order messages S order app :
  staticEntries (promote messages S order app)
  = staticEntries app ++ map message_entry (promoted_batch messages S order app)
  /\ promoted_batch messages S order app ≡ₚ newlyCompleted_of messages S app
  /\ StronglySorted (dispatch_before order) (promoted_batch messages S order app)
  /\ (forall s, s ∈ order ->
        filter (fun m => senderId m = s) (promoted_batch messages S order app)
        = filter (fun m => senderId m = s) (newlyCompleted_of messages S app)).
Proof.
  split; [apply promote_entries |]. split; [apply Array_sort_perm |]. split.
  - apply Array_sort_sorted.
    + intros a b. apply compare_completed_cases.
    + intros a b. apply compare_completed_cases.
    + intros a b c. apply dispatch_before_trans.
  - intros s Hs. apply Array_sort_stable.
    intros a b Ha Hb. unfold compare_completed. rewrite Ha, Hb.
    pose proof (indexOf_elem s order Hs).
    destruct (Z.eqb_spec (indexOf s order) (-1)); simpl; lia.
Qed.

Lemma promoted_batch_order_witness :
  filter (fun m => senderId m = "A") (promoted_batch sample_messages ∅ ["A"] new_app)
  = sample_messages.
Proof.
  destruct (promoted_batch_order sample_messages ∅ ["A"] new_app) as (_ & _ & _ & H).
  rewrite (H "A"); [reflexivity |]. apply elem_of_cons. by left.
Defined.

(** C2 as stated fails: two finished messages of the same dispatched sender
    are appended in the order of the message list, the later timestamp
    first. *)
Lemma same_sender_tie_not_by_timestamp :
  promoted_batch sample_messages ∅ ["A"] new_app = sample_messages
  /\ ~ StronglySorted (claimed_before ["A"]) (promoted_batch sample_messages ∅ ["A"] new_app).
Proof.
  assert (E : promoted_batch sample_messages ∅ ["A"] new_app = sample_messages)
    by reflexivity.
  split; [exact E |]. rewrite E. intros H.
  apply StronglySorted_inv in H as [_ H]. apply Forall_inv in H.
  unfold claimed_before in H. simpl in H. lia.
Qed.

(** ** Plan approval *)

(** C6: with a plan approval pending, the key [y] appends the plan as
    approved, starts [PlanProgress] at zero with no active agent and sends the
    original message again with the analysis attached; the key [n] appends the
    plan as rejected, logs the rejection, clears [PlanProgress] and sends
    nothing; either way no plan approval is pending afterwards. *)
Theorem plan_approval_outcomes input now app a :
  pendingPlanApproval app = Some a ->
  (toLowerCase input = "y" ->
   staticEntries (plan_input input now app)
   = staticEntries app ++ [PlanEntry ("plan-" +:+ pretty now) (pending_plan a) true]
   /\ planProgress (plan_input input now app)
      = Some (mkPlanProgress (pending_plan a) 0 None)
   /\ sendMessage_calls (plan_input input now app)
      = sendMessage_calls app
        ++ [mkSendCall (originalMessage a) None false (Some (analysis a))]
   /\ pendingPlanApproval (plan_input input now app) = None)
  /\ (toLowerCase input = "n" ->
      staticEntries (plan_input input now app)
      = staticEntries app ++ [PlanEntry ("plan-" +:+ pretty now) (pending_plan a) false]
      /\ orchestratorMessages (plan_input input now app)
         = orchestratorMessages app
           ++ [mkOrchestratorMessage "status" "Plan rejected by user." now]
      /\ planProgress (plan_input input now app) = None
      /\ sendMessage_calls (plan_input input now app) = sendMessage_calls app
      /\ pendingPlanApproval (plan_input input now app) = None).
Proof.
  intros Hp. unfold plan_input, plan_input_handler. rewrite Hp.
  split; intros ->; simpl; auto.
Qed.

Lemma plan_approval_outcomes_witness :
  sendMessage_calls (plan_input "Y" 1700 sample_planning)
  = [mkSendCall "write it" None false (Some "two steps")]
  /\ planProgress (plan_input "N" 1700 sample_planning) = None
  /\ sendMessage_calls (plan_input "N" 1700 sample_planning) = [].
Proof.
  destruct (plan_approval_outcomes "Y" 1700 sample_planning sample_plan eq_refl)
    as [Hy _].
  destruct (plan_approval_outcomes "N" 1700 sample_planning sample_plan eq_refl)
    as [_ Hn].
  destruct (Hy eq_refl) as (_ & _ & Hs & _).
  destruct (Hn eq_refl) as (_ & _ & Hpp & Hs' & _).
  split; [exact Hs |]. split; [exact Hpp | exact Hs'].
Defined.

(** * Further properties of the worker *)

(** ** What the callbacks of a turn put on the stream *)

Ltac split_emits :=
  repeat (simpl;
          match goal with
          | |- context [truthy ?x] => destruct (truthy x)
          | |- context [hidden_tool ?x] => destruct (hidden_tool x) eqn:?
          | |- context [toolCallArgs ?f !! ?k] => destruct (toolCallArgs f !! k)
          | |- context [(0 <? ?n)%nat] => destruct (0 <? n)%nat
          | |- context [(?a <=? ?b)%Z] => destruct (a <=? b)%Z
          | |- context [hasCancellationToken ?x] => destruct (hasCancellationToken x)
          | |- context [timer ?x] => destruct (timer x)
          | |- context [settled ?x] => destruct (settled x)
          | |- context [resolved ?x] => destruct (resolved x)
          end).

Ltac no_event := exists []; split; [by rewrite app_nil_r | constructor].

Ltac one_event :=
  eexists [_]; split; [reflexivity |];
  constructor; [simpl; eauto | constructor].

Lemma on_session_event_emits p e w :
  exists evs,
    emitted (world (on_session_event p e w)) = emitted (world w) ++ evs
    /\ Forall progress_event evs.
Proof.
  unfold on_session_event, resetTimeout, clearTimeout, with_closure, settle.
  destruct w as [f [| |c] wd]; simpl; try no_event.
  destruct (resolved c) eqn:Hr; [no_event |].
  destruct e; split_emits; first [no_event | one_event].
Qed.

Lemma on_timer_emits p w : emitted (world (on_timer p w)) = emitted (world w).
Proof.
  unfold on_timer, resetTimeout, clearTimeout, with_closure, settle.
  destruct w as [f [| |c] wd]; split_emits; reflexivity.
Qed.

Lemma on_abort_emits p w : emitted (world (on_abort p w)) = emitted (world w).
Proof.
  unfold on_abort, clearTimeout, with_closure, settle.
  destruct w as [f [| |c] wd]; split_emits; reflexivity.
Qed.

Lemma on_send_failed_emits err w :
  emitted (world (on_send_failed err w)) = emitted (world w).
Proof.
  unfold on_send_failed, clearTimeout, with_closure, settle.
  destruct w as [f [| |c] wd]; split_emits; reflexivity.
Qed.

Lemma progress_event_facts evs :
  Forall progress_event evs ->
  omap terminal_of evs = [] /\ approval_ids evs = [] /\ Forall shown_tool_ok evs.
Proof.
  induction 1 as [|e evs He _ (IH1 & IH2 & IH3)]; [by repeat split |].
  destruct e; try done; simpl in *; (split; [done |]); (split; [done |]);
    constructor; try done.
  simpl. intros Hk. destruct He as [-> | He]; [| done].
  by destruct Hk.
Qed.

Ltac adds_one :=
  eexists [_]; split; [reflexivity |];
  split; [by repeat constructor | simpl; by rewrite ?app_nil_r].

(** What one step adds to the stream and to the results of [execute]. *)
Lemma after_promise_stream p w :
  exists evs,
    emitted (world (after_promise p w)) = emitted (world w) ++ evs
    /\ Forall shown_tool_ok evs
    /\ outcomes (world (after_promise p w)) = outcomes (world w) ++ omap terminal_of evs.
Proof.
  unfold after_promise. destruct (turn w) as [| |c];
    try (exists []; by rewrite !app_nil_r).
  destruct (settled c) as [[result|err]|]; try (exists []; by rewrite !app_nil_r).
  - adds_one.
  - destruct (catch_block_spec p (traceId c) err w) as (_ & _ & E3 & E4).
    rewrite E3, E4. adds_one.
Qed.

Lemma step_stream p a w :
  exists evs,
    emitted (world (step p a w)) = emitted (world w) ++ evs
    /\ Forall shown_tool_ok evs
    /\ outcomes (world (step p a w)) = outcomes (world w) ++ omap terminal_of evs.
Proof.
  assert (Hvia : forall w1,
             same_gate w w1 ->
             (exists evs, emitted (world w1) = emitted (world w) ++ evs
                          /\ Forall progress_event evs) ->
             exists evs,
               emitted (world (after_promise p w1)) = emitted (world w) ++ evs
               /\ Forall shown_tool_ok evs
               /\ outcomes (world (after_promise p w1)) =
                    outcomes (world w) ++ omap terminal_of evs).
  { intros w1 (_ & _ & _ & _ & _ & Ho & _) (evs1 & He1 & Hp1).
    destruct (after_promise_stream p w1) as (evs2 & He2 & Hs2 & Ho2).
    destruct (progress_event_facts evs1 Hp1) as (Ht1 & _ & Hs1).
    exists (evs1 ++ evs2). rewrite He2, He1, Ho2, Ho, omap_app, Ht1.
    rewrite <- app_assoc. repeat split. by apply Forall_app. }
  destruct a; simpl.
  - unfold execute_begin. destruct (turn w); exists []; by rewrite !app_nil_r.
  - unfold session_ready, resetTimeout.
    destruct (turn w); try (exists []; by rewrite !app_nil_r).
    adds_one.
  - unfold session_failed.
    destruct (turn w) as [|trace ctx|c]; try (exists []; by rewrite !app_nil_r).
    destruct (catch_block_spec p trace err w) as (_ & _ & E3 & E4).
    rewrite E3, E4. adds_one.
  - apply Hvia; [apply on_session_event_same_gate | apply on_session_event_emits].
  - apply Hvia; [apply on_timer_same_gate |].
    exists []. rewrite on_timer_emits, app_nil_r. by split.
  - apply Hvia; [apply on_abort_same_gate |].
    exists []. rewrite on_abort_emits, app_nil_r. by split.
  - apply Hvia; [apply on_send_failed_same_gate |].
    exists []. rewrite on_send_failed_emits, app_nil_r. by split.
  - unfold onPermissionRequest.
    repeat (match goal with |- context [if ?b then _ else _] => destruct b end);
      simpl; try (exists []; by rewrite !app_nil_r).
    adds_one.
  - exists []. rewrite !app_nil_r.
    unfold resolveApproval, call_resolver, resetTimeout.
    destruct (map_get _ _); [| done].
    destruct w as [f [| |c] wd]; simpl;
      destruct (resetIdleTimeout f); simpl;
      destruct (approved response); simpl;
      destruct (negb (strict_eq (budget response) 1)); done.
  - exists []. by rewrite !app_nil_r.
Qed.

(** X1: on the stream of a worker the [complete] and [error] events are, in
    order, exactly the results of its calls of [execute]: for each [complete]
    a response returned with the content of the event, and for each [error] an
    [OrchestrationError] thrown, built from the code and the error message
    that the event carries. *)
Theorem terminal_events_mirror_outcomes p w :
  reachable p w ->
  omap terminal_of (emitted (world w)) = outcomes (world w).
Proof.
  intros [actions ->].
  induction actions as [|a actions IH] using rev_ind; [done |].
  rewrite run_app. simpl.
  destruct (step_stream p a (run p actions new_worker)) as (evs & He & _ & Ho).
  by rewrite He, Ho, omap_app, IH.
Qed.

(** A turn that streams a token and is then cancelled. *)
Lemma terminal_events_mirror_outcomes_witness :
  omap terminal_of (emitted (world (step sample_profile Abort sample_streaming)))
  = [Threw "CANCELLED" "Copilot worker copilot was cancelled"].
Proof.
  rewrite (terminal_events_mirror_outcomes sample_profile); [reflexivity |].
  by exists [Execute "t1" sample_context; SessionReady;
             Event (AssistantMessageDelta (Some "hi")); Abort].
Defined.

(** X2: no activity event on the stream of a worker that shows the start or
    the end of a tool names a hidden tool ([report_intent]).  The start of a
    hidden tool shows nothing and records nothing; its completion shows
    nothing when the completion event names the tool, and is shown under the
    name [unknown] when the completion event carries no tool name, since
    nothing was recorded for the call. *)
Theorem hidden_tools_never_shown p w :
  reachable p w ->
  Forall shown_tool_ok (emitted (world w))
  /\ forall c toolName toolCallId,
       turn w = InPromise c -> hidden_tool toolName = true ->
       (emitted
          (world (step p (Event (ToolExecutionStart (Some toolName) toolCallId)) w))
        = emitted (world w)
        /\ toolCallArgs
             (fields (step p (Event (ToolExecutionStart (Some toolName) toolCallId)) w))
           = toolCallArgs (fields w))
       /\ (truthy toolCallId ≫= (fun k => toolCallArgs (fields w) !! k) = None ->
           emitted
             (world
                (step p (Event (ToolExecutionComplete toolCallId (Some toolName))) w))
           = emitted (world w)
           /\ emitted
                (world (step p (Event (ToolExecutionComplete toolCallId None)) w))
              = emitted (world w)
                ++ [Ev_agent_activity (profile_id p) (traceId c) (Some "unknown")
                      "complete"]).
Proof.
  intros Hreach. split.
  - destruct Hreach as [actions ->].
    induction actions as [|a actions IH] using rev_ind; [constructor |].
    rewrite run_app. simpl.
    destruct (step_stream p a (run p actions new_worker)) as (evs & He & Hs & _).
    rewrite He. by apply Forall_app.
  - intros c toolName toolCallId Ht Hhidden.
    destruct (reachable_ok p w Hreach) as [Hturn _].
    unfold turn_ok in Hturn. rewrite Ht in Hturn. destruct Hturn as (Hr & Hs & _).
    destruct w as [f t wd]. simpl in Ht. subst t.
    split.
    + unfold step, on_session_event, after_promise, resetTimeout, with_closure.
      simpl. rewrite Hr. simpl. rewrite Hhidden. simpl. by rewrite Hs.
    + intros Hstored.
      unfold step, on_session_event, after_promise, resetTimeout, with_closure.
      simpl in *. rewrite Hr. simpl. rewrite Hstored.
      destruct (truthy toolCallId) as [callId|]; simpl;
        rewrite Hhidden; simpl; rewrite ?Hs; done.
Qed.

(** A hidden tool starts under the call id [c1]: nothing is shown; when its
    completion comes without a tool name, it is shown as [unknown]. *)
Lemma hidden_tools_never_shown_witness :
  emitted
    (world
       (run sample_profile
          [Event (ToolExecutionStart (Some "report_intent") (Some "c1"));
           Event (ToolExecutionComplete (Some "c1") (Some "report_intent"))]
          sample_streaming))
  = emitted (world sample_streaming)
  /\ emitted
       (world
          (step sample_profile (Event (ToolExecutionComplete (Some "c1") None))
             sample_streaming))
     = emitted (world sample_streaming)
       ++ [Ev_agent_activity "copilot" "t1" (Some "unknown") "complete"].
Proof.
  split; [reflexivity |].
  assert (Hreach : reachable sample_profile sample_streaming) by (by eexists).
  destruct (hidden_tools_never_shown sample_profile sample_streaming Hreach) as [_ H].
  destruct (H (mkClosure "t1" sample_context "hi" false (Some 30000) None)
              "report_intent" (Some "c1") eq_refl eq_refl) as [_ Hc].
  destruct (Hc eq_refl) as [_ Hunknown]. exact Hunknown.
Defined.

(** ** Every announced approval is pending or answered once *)

Lemma map_set_fresh {V} k (v : V) (m : list (string * V)) :
  k ∉ map fst m -> map_set k v m = m ++ [(k, v)].
Proof.
  induction m as [|[k' v'] m IH]; simpl; [done |].
  rewrite not_elem_of_cons. intros [Hne Hk].
  destruct (String.eqb_spec k k') as [-> | _]; [done |]. by rewrite IH.
Qed.

Lemma map_delete_fresh {V} k (m : list (string * V)) :
  k ∉ map fst m -> map_delete k m = m.
Proof.
  induction m as [|[k' v'] m IH]; simpl; [done |].
  rewrite not_elem_of_cons. intros [Hne Hk].
  destruct (String.eqb_spec k k') as [-> | _]; [done |]. by rewrite IH.
Qed.

Lemma map_get_other {V} k k' (m : list (string * V)) :
  k' <> k -> map_get k' (map_delete k m) = map_get k' m.
Proof.
  intros Hne. induction m as [|[k0 v0] m IH]; simpl; [done |].
  destruct (String.eqb_spec k k0) as [-> | Hk].
  - rewrite IH. by destruct (String.eqb_spec k' k0).
  - simpl. by rewrite IH.
Qed.

Lemma map_delete_found {V} k (m : list (string * V)) v :
  NoDup (map fst m) -> map_get k m = Some v ->
  exists m1 m2, m = m1 ++ (k, v) :: m2 /\ map_delete k m = m1 ++ m2.
Proof.
  induction m as [|[k0 v0] m IH]; simpl; [done |].
  intros Hnd Hg. apply NoDup_cons in Hnd as [Hk0 Hnd].
  destruct (String.eqb_spec k k0) as [-> | Hk].
  - injection Hg as ->. exists [], m. split; [done |].
    simpl. by apply map_delete_fresh.
  - destruct (IH Hnd Hg) as (m1 & m2 & -> & E).
    exists ((k0, v0) :: m1), m2. split; [done |]. simpl. by rewrite E.
Qed.

Lemma resolveApproval_replies id response w r :
  map_get id (pendingApprovals (fields w)) = Some r ->
  replies (world (resolveApproval id response w))
  = replies (world w) ++ [(promise_of r, answer_of response)].
Proof.
  intros Hg. unfold resolveApproval, call_resolver, resetTimeout, answer_of. rewrite Hg.
  destruct w as [f [| |c] wd]; simpl;
    destruct (resetIdleTimeout f); simpl;
    destruct (approved response); simpl;
    destruct (negb (strict_eq (budget response) 1)); reflexivity.
Qed.

Lemma after_promise_gate p w :
  (pendingApprovals (fields (after_promise p w)) = pendingApprovals (fields w)
   /\ replies (world (after_promise p w)) = replies (world w))
  \/ (pendingApprovals (fields (after_promise p w)) = []
      /\ replies (world (after_promise p w)) =
           replies (world w) ++ map denied (pendingApprovals (fields w))).
Proof.
  unfold after_promise. destruct (turn w) as [| |c]; try by left.
  destruct (settled c) as [[result|err]|]; try by left.
  right. by destruct (catch_block_spec p (traceId c) err w) as (E1 & E2 & _).
Qed.

Lemma step_gate_effect p a w :
  (forall r, a <> PermissionRequested r) ->
  (forall id response, a <> ApprovalResolved id response) ->
  (pendingApprovals (fields (step p a w)) = pendingApprovals (fields w)
   /\ replies (world (step p a w)) = replies (world w))
  \/ (pendingApprovals (fields (step p a w)) = []
      /\ replies (world (step p a w)) =
           replies (world w) ++ map denied (pendingApprovals (fields w))).
Proof.
  intros Hp Hr.
  assert (Hvia : forall w1, same_gate w w1 ->
             (pendingApprovals (fields (after_promise p w1)) = pendingApprovals (fields w)
              /\ replies (world (after_promise p w1)) = replies (world w))
             \/ (pendingApprovals (fields (after_promise p w1)) = []
                 /\ replies (world (after_promise p w1)) =
                      replies (world w) ++ map denied (pendingApprovals (fields w)))).
  { intros w1 (_ & E1 & _ & _ & E2 & _). rewrite <- E1, <- E2. apply after_promise_gate. }
  destruct a; simpl.
  - left. unfold execute_begin. by destruct (turn w).
  - left. unfold session_ready, resetTimeout. by destruct (turn w).
  - unfold session_failed. destruct (turn w) as [|trace ctx|c]; try by left.
    right. by destruct (catch_block_spec p trace err w) as (E1 & E2 & _).
  - apply Hvia, on_session_event_same_gate.
  - apply Hvia, on_timer_same_gate.
  - apply Hvia, on_abort_same_gate.
  - apply Hvia, on_send_failed_same_gate.
  - by destruct (Hp r).
  - by destruct (Hr approvalId response).
  - by left.
Qed.

Lemma pending_ok_denied w :
  pending_ok w -> map fst (map denied (pendingApprovals (fields w))) = pending_ids w.
Proof.
  intros [_ Hp]. unfold pending_ids.
  induction Hp as [|[k r] m Hkr _ IH]; [done |].
  simpl in *. by rewrite Hkr, IH.
Qed.

Lemma step_conserves p a w :
  gate_ok p w -> pending_ok w ->
  approval_ids (emitted (world w)) ≡ₚ answered_ids w ++ pending_ids w ->
  pending_ok (step p a w)
  /\ approval_ids (emitted (world (step p a w)))
     ≡ₚ answered_ids (step p a w) ++ pending_ids (step p a w).
Proof.
  intros Hgate Hok Hperm.
  assert (Hother :
    (forall r, a <> PermissionRequested r) ->
    (forall id response, a <> ApprovalResolved id response) ->
    pending_ok (step p a w)
    /\ approval_ids (emitted (world (step p a w)))
       ≡ₚ answered_ids (step p a w) ++ pending_ids (step p a w)).
  { intros Hnp Hnr.
    destruct (step_quiet p a w Hnp) as (_ & He & _).
    destruct (step_gate_effect p a w Hnp Hnr) as [[E1 E2] | [E1 E2]].
    - unfold pending_ok, pending_ids, answered_ids in *. by rewrite E1, E2, He.
    - pose proof (pending_ok_denied w Hok) as Hden.
      unfold pending_ok, pending_ids, answered_ids in *.
      rewrite E1, E2, He, map_app, Hden, Hperm. simpl. rewrite app_nil_r.
      split; [split; constructor | done]. }
  destruct a; try (apply Hother; discriminate); clear Hother.
  - simpl. unfold onPermissionRequest.
    destruct (String.eqb _ "read"); [done |].
    destruct (negb (toolsEnabled p)); [done |].
    destruct (negb (num_eq (autoApproveBudget (fields w)) 0)).
    { by destruct (num_gt (autoApproveBudget (fields w)) 0). }
    simpl. destruct (negb (currentOnStream (fields w))); [done |]. simpl.
    assert (Hfresh : approvalId_of (profile_id p) (approvalCounter (fields w) + 1)
                     ∉ pending_ids w).
    { intros Hin.
      assert (Hann : approvalId_of (profile_id p) (approvalCounter (fields w) + 1)
                     ∈ approval_ids (emitted (world w))).
      { rewrite Hperm. apply elem_of_app. by right. }
      destruct (gate_ids p w Hgate _ Hann) as (k & Hk & Heq).
      apply approvalId_of_inj in Heq. lia. }
    destruct Hok as [Hnd Hkeys].
    unfold pending_ok, pending_ids, answered_ids in *. simpl.
    rewrite (map_set_fresh _ _ _ Hfresh), approval_ids_snoc, map_app. simpl.
    split; [split |].
    + apply NoDup_app. split; [done |]. split; [| apply NoDup_singleton].
      intros x Hx. rewrite list_elem_of_singleton. by intros ->.
    + apply Forall_app. split; [done |]. by repeat constructor.
    + by rewrite Hperm, app_assoc.
  - simpl.
    destruct (map_get approvalId (pendingApprovals (fields w))) as [r|] eqn:Hg.
    + destruct Hok as [Hnd Hkeys].
      destruct (map_delete_found approvalId _ r Hnd Hg) as (m1 & m2 & Hm & Hdel).
      destruct (resolveApproval_fields approvalId response w r Hg)
        as (_ & _ & _ & _ & He).
      unfold pending_ok, pending_ids, answered_ids in *.
      rewrite (resolveApproval_pending approvalId response w r Hg),
        (resolveApproval_replies approvalId response w r Hg), He, Hdel, Hperm.
      rewrite Hm in Hnd, Hkeys |- *.
      rewrite !map_app in *. simpl in *.
      apply Forall_app in Hkeys as [Hk1 Hk2].
      apply Forall_cons in Hk2 as [Hr Hk2]. simpl in Hr. subst approvalId.
      split; [split |].
      * apply NoDup_app in Hnd as (N1 & N2 & N3).
        apply NoDup_cons in N3 as [N3 N4].
        apply NoDup_app. split; [done |]. split; [| done].
        intros x Hx Hx'. apply (N2 x Hx). apply elem_of_cons. by right.
      * by apply Forall_app.
      * rewrite <- !app_assoc. apply Permutation_app_head. simpl.
        by rewrite Permutation_middle.
    + unfold resolveApproval. by rewrite Hg.
Qed.

(** X3: the approvals a worker has announced on the stream are exactly those
    still pending together with those whose promise has been settled, each of
    them once: no announced approval is lost, and none is answered twice. *)
Theorem approvals_pending_or_answered_once p w :
  reachable p w ->
  approval_ids (emitted (world w)) ≡ₚ answered_ids w ++ pending_ids w
  /\ NoDup (answered_ids w ++ pending_ids w).
Proof.
  intros Hreach.
  assert (H : pending_ok w
              /\ approval_ids (emitted (world w)) ≡ₚ answered_ids w ++ pending_ids w).
  { destruct Hreach as [actions ->].
    induction actions as [|a actions IH] using rev_ind.
    - split; [split; constructor | done].
    - rewrite run_app. simpl. destruct IH as [IH1 IH2].
      apply step_conserves; try done.
      apply reachable_ok. by exists actions. }
  destruct H as [_ Hperm]. split; [done |].
  rewrite <- Hperm. by destruct (reachable_ok p w Hreach) as [_ [_ _ Hnd]].
Qed.

Lemma approvals_pending_or_answered_once_witness :
  approval_ids
    (emitted
       (world (resolveApproval "copilot-perm-1" (mkResponse false (Some 0)) sample_two_waiting)))
  ≡ₚ ["copilot-perm-1"] ++ ["copilot-perm-2"].
Proof.
  apply (approvals_pending_or_answered_once sample_profile
           (resolveApproval "copilot-perm-1" (mkResponse false (Some 0)) sample_two_waiting)).
  exists [Execute "t1" sample_context; SessionReady; PermissionRequested sample_request;
          PermissionRequested sample_request;
          ApprovalResolved "copilot-perm-1" (mkResponse false (Some 0))].
  vm_compute. reflexivity.
Defined.

(** ** The gate outside its ordinary course *)

(** X4: for a profile whose tool list is empty, the worker never announces an
    approval and never has one pending: every request is answered at once,
    [approved] when its kind maps to [read] and [denied-by-rules] otherwise,
    and the worker state stays as it was. *)
Theorem tools_disabled_never_prompts p w :
  toolsEnabled p = false -> reachable p w ->
  pendingApprovals (fields w) = []
  /\ approval_ids (emitted (world w)) = []
  /\ forall request,
       onPermissionRequest p request w
       = (Answer (if String.eqb (mapPermissionKind (req_kind request)) "read"
                  then "approved" else "denied-by-rules"), w).
Proof.
  intros Htools Hreach.
  assert (Hreq : forall w0 request,
             onPermissionRequest p request w0
             = (Answer (if String.eqb (mapPermissionKind (req_kind request)) "read"
                        then "approved" else "denied-by-rules"), w0)).
  { intros w0 request. unfold onPermissionRequest. rewrite Htools.
    by destruct (String.eqb _ "read"). }
  split; [| split; [| apply Hreq]].
  - destruct (reachable_ok p w Hreach) as [_ [Hg _ _]].
    destruct (pendingApprovals (fields w)); [done |].
    rewrite Hg in Htools; done.
  - destruct Hreach as [actions ->].
    induction actions as [|a actions IH] using rev_ind; [done |].
    rewrite run_app. simpl. destruct a;
      try (match goal with
           | |- context [step p ?a ?w0] =>
               destruct (step_quiet p a w0) as (_ & He & _);
               [discriminate | rewrite He; exact IH]
           end).
    unfold step. by rewrite Hreq.
Qed.

Lemma tools_disabled_never_prompts_witness :
  onPermissionRequest (mkProfile "copilot" (Some [])) sample_request
    (run (mkProfile "copilot" (Some [])) [Execute "t1" sample_context; SessionReady]
       new_worker)
  = (Answer "denied-by-rules",
     run (mkProfile "copilot" (Some [])) [Execute "t1" sample_context; SessionReady]
       new_worker).
Proof.
  destruct (tools_disabled_never_prompts (mkProfile "copilot" (Some []))
              (run (mkProfile "copilot" (Some []))
                 [Execute "t1" sample_context; SessionReady] new_worker))
    as (_ & _ & H); [reflexivity | by eexists |].
  apply (H sample_request).
Defined.

(** X5: while no call of [execute] is under way the gate suspends nothing:
    every permission request is answered at once, no event goes on the
    stream and what is pending stays as it is. *)
Theorem no_prompt_outside_turn p w request :
  reachable p w -> turn w = NoTurn ->
  exists kind w',
    onPermissionRequest p request w = (Answer kind, w')
    /\ emitted (world w') = emitted (world w)
    /\ pendingApprovals (fields w') = pendingApprovals (fields w).
Proof.
  intros Hreach Ht. destruct (reachable_ok p w Hreach) as [Hturn _].
  unfold turn_ok in Hturn. rewrite Ht in Hturn. destruct Hturn as [_ Hon].
  unfold onPermissionRequest.
  destruct (String.eqb _ "read"); [by eexists _, _ |].
  destruct (negb (toolsEnabled p)); [by eexists _, _ |].
  destruct (negb (num_eq (autoApproveBudget (fields w)) 0)).
  - destruct (num_gt (autoApproveBudget (fields w)) 0); by eexists _, _.
  - simpl. rewrite Hon. simpl. by eexists _, _.
Qed.

Lemma no_prompt_outside_turn_witness :
  exists kind w',
    onPermissionRequest sample_profile sample_request
      (step sample_profile (Event SessionIdle) sample_streaming)
    = (Answer kind, w').
Proof.
  destruct (no_prompt_outside_turn sample_profile
              (step sample_profile (Event SessionIdle) sample_streaming) sample_request)
    as (kind & w' & H & _).
  - exists [Execute "t1" sample_context; SessionReady;
            Event (AssistantMessageDelta (Some "hi")); Event SessionIdle].
    vm_compute. reflexivity.
  - reflexivity.
  - by exists kind, w'.
Defined.

(** X6: a budget granted during one turn is dropped when the next call of
    [execute] begins: whatever the budget was, the first request of the new
    turn that reaches the gate prompts. *)
Theorem budget_dropped_at_next_turn p w trace ctx request :
  turn w = NoTurn -> toolsEnabled p = true ->
  mapPermissionKind (req_kind request) <> "read" ->
  autoApproveBudget (fields (run p [Execute trace ctx; SessionReady] w)) = 0
  /\ prompts p request (run p [Execute trace ctx; SessionReady] w).
Proof.
  intros Ht Htools Hkind. destruct w as [f t wd]. simpl in Ht. subst t.
  split; [reflexivity |].
  unfold prompts, onPermissionRequest. apply String.eqb_neq in Hkind.
  rewrite Hkind, Htools. simpl. by eexists _, _.
Qed.

Lemma budget_dropped_at_next_turn_witness :
  prompts sample_profile sample_request
    (run sample_profile [Execute "t2" sample_context; SessionReady]
       (step sample_profile (Event SessionIdle)
          (resolveApproval "copilot-perm-1" (mkResponse true (Some (-1))) sample_waiting))).
Proof.
  apply (budget_dropped_at_next_turn sample_profile
           (step sample_profile (Event SessionIdle)
              (resolveApproval "copilot-perm-1" (mkResponse true (Some (-1))) sample_waiting))
           "t2" sample_context sample_request); [reflexivity | reflexivity | discriminate].
Defined.

(** X7: resolving a pending approval settles the promise of that approval
    alone, with [approved] or [denied-interactively-by-user] as the response
    says; every other approval stays pending with its resolver, and a denial
    leaves the auto-approve budget as it was. *)
Theorem resolveApproval_settles_one id response w r :
  map_get id (pendingApprovals (fields w)) = Some r ->
  replies (world (resolveApproval id response w))
  = replies (world w) ++ [(promise_of r, answer_of response)]
  /\ map_get id (pendingApprovals (fields (resolveApproval id response w))) = None
  /\ (forall k, k <> id ->
        map_get k (pendingApprovals (fields (resolveApproval id response w)))
        = map_get k (pendingApprovals (fields w)))
  /\ (approved response = false ->
      autoApproveBudget (fields (resolveApproval id response w))
      = autoApproveBudget (fields w)).
Proof.
  intros Hg. rewrite (resolveApproval_pending id response w r Hg).
  split; [by apply resolveApproval_replies |].
  split; [apply map_get_delete |].
  split; [intros k Hk; by apply map_get_other |].
  intros Hden. destruct (resolveApproval_fields id response w r Hg) as (Hb & _).
  by rewrite Hb, Hden.
Qed.

Lemma resolveApproval_settles_one_witness :
  replies (world (resolveApproval "copilot-perm-2" (mkResponse false (Some 0)) sample_two_waiting))
  = [("copilot-perm-2", "denied-interactively-by-user")]
  /\ map_get "copilot-perm-1"
       (pendingApprovals
          (fields (resolveApproval "copilot-perm-2" (mkResponse false (Some 0)) sample_two_waiting)))
     = Some (mkResolver "copilot-perm-1").
Proof.
  destruct (resolveApproval_settles_one "copilot-perm-2" (mkResponse false (Some 0))
              sample_two_waiting (mkResolver "copilot-perm-2") eq_refl)
    as (H1 & _ & H3 & _).
  split; [exact H1 |]. by rewrite H3.
Defined.

(** ** The course of a turn *)

Lemma append_nil_r (s : string) : s +:+ EmptyString = s.
Proof.
  induction s as [|a s IH]; [done |].
  change (String a (s +:+ EmptyString) = String a s). by rewrite IH.
Qed.

Lemma append_assoc (s1 s2 s3 : string) : (s1 +:+ s2) +:+ s3 = s1 +:+ (s2 +:+ s3).
Proof.
  induction s1 as [|a s1 IH]; [done |].
  change (String a ((s1 +:+ s2) +:+ s3) = String a (s1 +:+ (s2 +:+ s3))).
  by rewrite IH.
Qed.

Lemma run_cons p a actions w : run p (a :: actions) w = run p actions (step p a w).
Proof. reflexivity. Qed.

Lemma run_nil p w : run p [] w = w.
Proof. reflexivity. Qed.

Lemma idle_step p f c wd :
  resolved c = false -> settled c = None ->
  step p (Event SessionIdle) (mkWorker f (InPromise c) wd)
  = finally
      (finish (Returned (fullContent c))
         (emit (Ev_complete (profile_id p) (traceId c) (fullContent c))
            (mkWorker (set_resetIdleTimeout true f)
               (InPromise
                  (mkClosure (traceId c) (context c) (fullContent c) true None
                     (Some (Resolve (fullContent c))))) wd))).
Proof.
  intros Hr Hs.
  unfold step, on_session_event, after_promise, resetTimeout, clearTimeout,
    with_closure, settle.
  repeat (simpl; rewrite ?Hr, ?Hs). reflexivity.
Qed.

(** X8: a turn that ends with [session.idle] returns the content gathered so
    far and announces it with a [complete] event; unlike an error exit it
    answers no pending approval: what was pending stays pending. *)
Theorem idle_returns_and_keeps_pending p w c :
  reachable p w -> turn w = InPromise c ->
  outcomes (world (step p (Event SessionIdle) w))
  = outcomes (world w) ++ [Returned (fullContent c)]
  /\ emitted (world (step p (Event SessionIdle) w))
     = emitted (world w) ++ [Ev_complete (profile_id p) (traceId c) (fullContent c)]
  /\ turn (step p (Event SessionIdle) w) = NoTurn
  /\ pendingApprovals (fields (step p (Event SessionIdle) w))
     = pendingApprovals (fields w)
  /\ replies (world (step p (Event SessionIdle) w)) = replies (world w).
Proof.
  intros Hreach Ht. destruct (reachable_ok p w Hreach) as [Hturn _].
  unfold turn_ok in Hturn. rewrite Ht in Hturn. destruct Hturn as (Hr & Hs & _).
  destruct w as [f t wd]. simpl in Ht. subst t.
  by rewrite (idle_step p f c wd Hr Hs).
Qed.

Lemma idle_returns_and_keeps_pending_witness :
  outcomes (world (step sample_profile (Event SessionIdle) sample_waiting))
  = [Returned EmptyString]
  /\ pending_ids (step sample_profile (Event SessionIdle) sample_waiting)
     = ["copilot-perm-1"].
Proof.
  assert (Hreach : reachable sample_profile sample_waiting) by (by eexists).
  destruct (idle_returns_and_keeps_pending sample_profile sample_waiting
              (mkClosure "t1" sample_context EmptyString false (Some 30000) None)
              Hreach eq_refl) as (H1 & _ & _ & H4 & _).
  split; [exact H1 |]. unfold pending_ids. by rewrite H4.
Defined.

Lemma deltas_run p deltas :
  forall f c wd,
    resolved c = false -> settled c = None ->
    exists f' c' wd',
      run p (map (fun d => Event (AssistantMessageDelta d)) deltas)
        (mkWorker f (InPromise c) wd)
      = mkWorker f' (InPromise c') wd'
      /\ resolved c' = false /\ settled c' = None /\ traceId c' = traceId c
      /\ fullContent c' = fullContent c +:+ join_texts (delta_texts deltas)
      /\ emitted wd'
         = emitted wd
           ++ map (Ev_token (profile_id p) (traceId c)) (delta_texts deltas)
      /\ outcomes wd' = outcomes wd
      /\ pendingApprovals f' = pendingApprovals f.
Proof.
  induction deltas as [|d deltas IH]; intros f c wd Hr Hs.
  - exists f, c, wd. simpl. by rewrite append_nil_r, app_nil_r.
  - assert (Hstep :
      exists f1 c1 wd1,
        step p (Event (AssistantMessageDelta d)) (mkWorker f (InPromise c) wd)
        = mkWorker f1 (InPromise c1) wd1
        /\ resolved c1 = false /\ settled c1 = None /\ traceId c1 = traceId c
        /\ fullContent c1 = fullContent c +:+ join_texts (delta_texts [d])
        /\ emitted wd1
           = emitted wd ++ map (Ev_token (profile_id p) (traceId c)) (delta_texts [d])
        /\ outcomes wd1 = outcomes wd
        /\ pendingApprovals f1 = pendingApprovals f).
    { unfold step, on_session_event, after_promise, resetTimeout, with_closure,
        delta_texts.
      simpl. rewrite Hr. destruct (truthy d) as [delta|]; simpl; rewrite Hs.
      - eexists _, _, _. split; [reflexivity |]. simpl.
        by rewrite append_nil_r.
      - eexists _, _, _. split; [reflexivity |]. simpl.
        by rewrite append_nil_r, app_nil_r. }
    destruct Hstep as (f1 & c1 & wd1 & E & Hr1 & Hs1 & Ht1 & Hc1 & He1 & Ho1 & Hp1).
    destruct (IH f1 c1 wd1 Hr1 Hs1) as (f' & c' & wd' & E' & Hr' & Hs' & Ht' & Hc' & He' & Ho' & Hp').
    exists f', c', wd'. simpl map. rewrite run_cons, E, E'. split; [done |].
    rewrite Hc', Hc1, He', He1, Ht1, Ho', Ho1, Hp', Hp1. unfold delta_texts. simpl.
    destruct (truthy d) as [delta|]; simpl;
      rewrite ?append_nil_r, ?app_nil_r, ?append_assoc, <- ?app_assoc; simpl;
      repeat split; congruence.
Qed.

(** X9: the [assistant.message_delta] events of a turn put one [token] event
    on the stream for each non-empty delta, in order, and the response that
    [session.idle] then returns is the content so far followed by those
    deltas joined in order. *)
Theorem deltas_accumulate_in_order p w c deltas :
  reachable p w -> turn w = InPromise c ->
  outcomes
    (world
       (run p (map (fun d => Event (AssistantMessageDelta d)) deltas ++ [Event SessionIdle])
          w))
  = outcomes (world w) ++ [Returned (fullContent c +:+ join_texts (delta_texts deltas))]
  /\ emitted
       (world
          (run p
             (map (fun d => Event (AssistantMessageDelta d)) deltas ++ [Event SessionIdle])
             w))
     = emitted (world w)
       ++ map (Ev_token (profile_id p) (traceId c)) (delta_texts deltas)
       ++ [Ev_complete (profile_id p) (traceId c)
             (fullContent c +:+ join_texts (delta_texts deltas))].
Proof.
  intros Hreach Ht. destruct (reachable_ok p w Hreach) as [Hturn _].
  unfold turn_ok in Hturn. rewrite Ht in Hturn. destruct Hturn as (Hr & Hs & _).
  destruct w as [f t wd]. simpl in Ht. subst t.
  destruct (deltas_run p deltas f c wd Hr Hs)
    as (f' & c' & wd' & E & Hr' & Hs' & Ht' & Hc' & He' & Ho' & _).
  rewrite run_app, E, run_cons, run_nil, (idle_step p f' c' wd' Hr' Hs'). simpl.
  by rewrite Hc', He', Ho', Ht', <- app_assoc.
Qed.

Lemma deltas_accumulate_in_order_witness :
  outcomes
    (world
       (run sample_profile
          (map (fun d => Event (AssistantMessageDelta d))
             [Some " there"; None; Some EmptyString; Some "!"]
           ++ [Event SessionIdle])
          sample_streaming))
  = [Returned "hi there!"].
Proof.
  assert (Hreach : reachable sample_profile sample_streaming) by (by eexists).
  destruct (deltas_accumulate_in_order sample_profile sample_streaming
              (mkClosure "t1" sample_context "hi" false (Some 30000) None)
              [Some " there"; None; Some EmptyString; Some "!"] Hreach eq_refl)
    as [H _].
  exact H.
Defined.

(** X10: cancelling a running turn that was given a cancellation token ends
    it at once with a [CANCELLED] error that is not recoverable, whatever is
    pending; without a token the abort changes nothing. *)
Theorem abort_cancels_turn p w c :
  reachable p w -> turn w = InPromise c ->
  (hasCancellationToken (context c) = true ->
   outcomes (world (step p Abort w))
   = outcomes (world w)
     ++ [Threw "CANCELLED" ("Copilot worker " +:+ profile_id p +:+ " was cancelled")]
   /\ emitted (world (step p Abort w))
      = emitted (world w)
        ++ [Ev_error (profile_id p) (traceId c) "CANCELLED"
              ("Copilot worker " +:+ profile_id p +:+ " was cancelled") false]
   /\ turn (step p Abort w) = NoTurn
   /\ pendingApprovals (fields (step p Abort w)) = [])
  /\ (hasCancellationToken (context c) = false -> step p Abort w = w).
Proof.
  intros Hreach Ht. destruct (reachable_ok p w Hreach) as [Hturn _].
  unfold turn_ok in Hturn. rewrite Ht in Hturn. destruct Hturn as (Hr & Hs & _).
  destruct w as [f t wd]. simpl in Ht. subst t.
  split; intros Htok.
  - assert (E : step p Abort (mkWorker f (InPromise c) wd)
                = finally
                    (catch_block p (traceId c)
                       (OrchestrationError "CANCELLED"
                          ("Copilot worker " +:+ profile_id p +:+ " was cancelled"))
                       (mkWorker f
                          (InPromise
                             (mkClosure (traceId c) (context c) (fullContent c) true None
                                (Some
                                   (Reject
                                      (OrchestrationError "CANCELLED"
                                         ("Copilot worker " +:+ profile_id p
                                          +:+ " was cancelled"))))))
                          wd))).
    { unfold step, on_abort, after_promise, clearTimeout, with_closure, settle.
      repeat (simpl; rewrite ?Hr, ?Hs, ?Htok). reflexivity. }
    rewrite E.
    match goal with
    | |- context [catch_block ?p ?t ?e ?w0] =>
        destruct (catch_block_spec p t e w0) as (E1 & _ & E3 & E4)
    end.
    by rewrite E1, E3, E4.
  - unfold step, on_abort, after_promise. simpl. rewrite Htok. simpl. by rewrite Hs.
Qed.

Lemma abort_cancels_turn_witness :
  outcomes (world (step sample_profile Abort sample_waiting))
  = [Threw "CANCELLED" "Copilot worker copilot was cancelled"].
Proof.
  assert (Hreach : reachable sample_profile sample_waiting) by (by eexists).
  destruct (abort_cancels_turn sample_profile sample_waiting
              (mkClosure "t1" sample_context EmptyString false (Some 30000) None)
              Hreach eq_refl) as [H _].
  by destruct (H eq_refl) as (H1 & _).
Defined.

(** X11: when a tool call that is shown starts under a call id and later
    completes under the same id, the completion is reported under the name
    given at the start, whatever name the completion event carries, and the
    worker keeps no record of the call id afterwards. *)
Theorem tool_call_round_trip p w c toolName callId laterName :
  reachable p w -> turn w = InPromise c ->
  hidden_tool toolName = false -> callId <> EmptyString ->
  emitted
    (world
       (run p
          [Event (ToolExecutionStart (Some toolName) (Some callId));
           Event (ToolExecutionComplete (Some callId) laterName)] w))
  = emitted (world w)
    ++ [Ev_agent_activity (profile_id p) (traceId c) (Some toolName) "start";
        Ev_agent_activity (profile_id p) (traceId c) (Some toolName) "complete"]
  /\ toolCallArgs
       (fields
          (run p
             [Event (ToolExecutionStart (Some toolName) (Some callId));
              Event (ToolExecutionComplete (Some callId) laterName)] w))
     !! callId = None.
Proof.
  intros Hreach Ht Hshown Hid. destruct (reachable_ok p w Hreach) as [Hturn _].
  unfold turn_ok in Hturn. rewrite Ht in Hturn. destruct Hturn as (Hr & Hs & _).
  destruct w as [f t wd]. simpl in Ht. subst t.
  apply String.eqb_neq in Hid.
  unfold run, step, on_session_event, after_promise, resetTimeout, with_closure, truthy.
  repeat (simpl; rewrite ?Hr, ?Hs, ?Hid, ?Hshown, ?lookup_insert_eq).
  split; [by rewrite <- app_assoc | apply lookup_delete_eq].
Qed.

Lemma tool_call_round_trip_witness :
  emitted
    (world
       (run sample_profile
          [Event (ToolExecutionStart (Some "bash") (Some "call-1"));
           Event (ToolExecutionComplete (Some "call-1") None)] sample_streaming))
  = emitted (world sample_streaming)
    ++ [Ev_agent_activity "copilot" "t1" (Some "bash") "start";
        Ev_agent_activity "copilot" "t1" (Some "bash") "complete"].
Proof.
  assert (Hreach : reachable sample_profile sample_streaming) by (by eexists).
  destruct (tool_call_round_trip sample_profile sample_streaming
              (mkClosure "t1" sample_context "hi" false (Some 30000) None)
              "bash" "call-1" None Hreach eq_refl eq_refl) as [H _]; [discriminate |].
  exact H.
Defined.

(** * The prompt and the tool arguments *)

Lemma buildPromptWithHistory_seen message history myName guidance seen :
  snd (buildPromptWithHistory message history myName guidance seen)
  = length (List.filter (other_agent myName) history).
Proof.
  unfold buildPromptWithHistory.
  by destruct (Nat.eqb (length (drop seen (List.filter (other_agent myName) history))) 0).
Qed.

(** X12: the worker forwards every message of another agent once.  After a
    call on a history, a call on the history grown by further messages builds
    the guidance prefix, the message and a context block with one line for
    each further message of another agent, in order, and no block at all when
    there is none; the worker then counts every message of another agent in
    the grown history as seen.  The first call of a worker forwards every
    message of another agent in its history. *)
Theorem other_agent_messages_forwarded_once
    message0 message history added myName guidance0 guidance seen :
  buildPromptWithHistory message (history ++ added) myName guidance
    (snd (buildPromptWithHistory message0 history myName guidance0 seen))
  = (guidance_prefix guidance +:+ message
     +:+ context_block (List.filter (other_agent myName) added),
     length (List.filter (other_agent myName) (history ++ added)))
  /\ buildPromptWithHistory message history myName guidance 0
     = (guidance_prefix guidance +:+ message
        +:+ context_block (List.filter (other_agent myName) history),
        length (List.filter (other_agent myName) history)).
Proof.
  assert (Hcall : forall h new,
            buildPromptWithHistory message (h ++ new) myName guidance
              (length (List.filter (other_agent myName) h))
            = (guidance_prefix guidance +:+ message
               +:+ context_block (List.filter (other_agent myName) new),
               length (List.filter (other_agent myName) (h ++ new)))).
  { intros h new. unfold buildPromptWithHistory.
    rewrite List.filter_app, drop_app_length.
    assert (Hprefix : match truthy guidance with
                      | Some g => "[Orchestrator Instructions]" +:+ LF +:+ g +:+ LF +:+ LF
                      | None => EmptyString
                      end = guidance_prefix guidance).
    { unfold truthy, guidance_prefix. destruct guidance as [g|]; [| done].
      by destruct (String.eqb g EmptyString). }
    rewrite Hprefix.
    assert (Hlines : forall ms,
              map (fun m => default "Another model" (h_name m) +:+ ": " +:+ h_content m) ms
              = map forwarded_line ms).
    { intros ms. apply map_ext. intros m. unfold forwarded_line.
      destruct (h_name m); reflexivity. }
    rewrite Hlines.
    destruct (List.filter (other_agent myName) new) as [|m ms]; cbn [length Nat.eqb].
    - unfold context_block. by rewrite append_nil_r.
    - reflexivity. }
  rewrite buildPromptWithHistory_seen. split; [apply Hcall |].
  apply (Hcall [] history).
Qed.

Lemma other_agent_messages_forwarded_once_witness :
  fst (buildPromptWithHistory "next" (sample_history ++ [mkHistoryMessage "assistant" "C here" None])
         "A" None (snd (buildPromptWithHistory "first" sample_history "A" None 0)))
  = "next" +:+ LF +:+ LF +:+ "<group_chat_context>" +:+ LF
    +:+ "Another model: C here" +:+ LF +:+ "</group_chat_context>"
  /\ fst (buildPromptWithHistory "first" sample_history "A" None 0)
     = "first" +:+ LF +:+ LF +:+ "<group_chat_context>" +:+ LF
       +:+ "B: hi from B" +:+ LF +:+ "</group_chat_context>".
Proof.
  destruct (other_agent_messages_forwarded_once "first" "next" sample_history
              [mkHistoryMessage "assistant" "C here" None] "A" None None 0) as [H _].
  destruct (other_agent_messages_forwarded_once "first" "first" sample_history
              [] "A" None None 0) as [_ H0].
  rewrite H, H0. split; reflexivity.
Defined.

Lemma length_append (s1 s2 : string) :
  String.length (s1 +:+ s2) = (String.length s1 + String.length s2)%nat.
Proof.
  induction s1 as [|a s1 IH]; [done |].
  change (S (String.length (s1 +:+ s2)) = S (String.length s1 + String.length s2)).
  by rewrite IH.
Qed.

Lemma length_substring_0 (n : nat) (s : string) :
  String.length (String.substring 0 n s) = Nat.min n (String.length s).
Proof.
  revert s. induction n as [|n IH]; intros [|a s]; simpl; try done.
  by rewrite IH.
Qed.

Lemma string_arg_Some args key val :
  string_arg args key = Some val ->
  map_get key args = Some (JsString val) /\ val <> EmptyString.
Proof.
  unfold string_arg. destruct (map_get key args) as [[s|]|]; try done.
  destruct s; simpl; [done |]. intros [= <-]. by split.
Qed.

Lemma first_string_arg_Some keys args val :
  first_string_arg keys args = Some val ->
  exists key, key ∈ keys /\ string_arg args key = Some val.
Proof.
  induction keys as [|key keys IH]; simpl; [done |].
  destruct (string_arg args key) as [v|] eqn:E.
  - intros [= <-]. exists key. split; [apply elem_of_cons; by left | done].
  - intros H. destruct (IH H) as (k & Hk & Hv). exists k.
    split; [apply elem_of_cons; by right | done].
Qed.

Lemma map_get_elem {V} k (m : list (string * V)) v : map_get k m = Some v -> (k, v) ∈ m.
Proof.
  induction m as [|[k' v'] m IH]; simpl; [done |].
  destruct (String.eqb_spec k k') as [-> | _].
  - intros [= ->]. apply elem_of_cons. by left.
  - intros H. apply elem_of_cons. right. by apply IH.
Qed.

(** X13: the detail that [extractArgDetail] shows is never longer than 60
    characters: it is the non-empty string found under one of the known keys
    when that has at most 60 characters, and otherwise its first 57
    characters followed by three dots. *)
Theorem extractArgDetail_bounded args detail :
  extractArgDetail args = Some detail ->
  (String.length detail <= 60)%nat
  /\ exists key val,
       key ∈ detail_keys /\ map_get key args = Some (JsString val)
       /\ val <> EmptyString
       /\ ((String.length val <= 60)%nat /\ detail = val
           \/ (60 < String.length val)%nat
              /\ detail = String.substring 0 57 val +:+ "..."
              /\ String.length detail = 60%nat).
Proof.
  unfold extractArgDetail.
  destruct (first_string_arg detail_keys args) as [val|] eqn:E; [| done].
  intros [= <-].
  destruct (first_string_arg_Some _ _ _ E) as (key & Hkey & Hval).
  destruct (string_arg_Some _ _ _ Hval) as [Hget Hne].
  destruct (Nat.ltb_spec 60 (String.length val)) as [Hlong | Hshort].
  - assert (Hlen : String.length (String.substring 0 57 val +:+ "...") = 60%nat).
    { rewrite length_append, length_substring_0, Nat.min_l by lia. reflexivity. }
    split; [lia |]. exists key, val. repeat split; try done. right. by repeat split.
  - split; [done |]. exists key, val. repeat split; try done. by left.
Qed.

Lemma extractArgDetail_bounded_witness :
  (String.length
     "aaaaaaaaaaaaaaaaaaaaaaaaaaaaaaaaaaaaaaaaaaaaaaaaaaaaaaaaa..." <= 60)%nat.
Proof.
  destruct (extractArgDetail_bounded
              [("count", JsOther);
               ("query",
                JsString
                  "aaaaaaaaaaaaaaaaaaaaaaaaaaaaaaaaaaaaaaaaaaaaaaaaaaaaaaaaaaaaaaaaaaaaaaaaaa")]
              "aaaaaaaaaaaaaaaaaaaaaaaaaaaaaaaaaaaaaaaaaaaaaaaaaaaaaaaaa...")
    as [H _]; [reflexivity | exact H].
Defined.

Lemma first_path_like_Some values val :
  first_path_like values = Some val ->
  JsString val ∈ values /\ val <> EmptyString
  /\ has_separator val = true /\ has_extension val = true.
Proof.
  induction values as [|[s|] values IH]; simpl; [done | |].
  - destruct (0 <? String.length s)%nat eqn:E1; simpl.
    + destruct (has_separator s) eqn:E2; simpl.
      * destruct (has_extension s) eqn:E3; simpl.
        -- intros [= <-]. split; [apply elem_of_cons; by left |].
           split; [by destruct s | done].
        -- intros H. destruct (IH H) as (? & ? & ? & ?).
           split; [apply elem_of_cons; by right | done].
      * intros H. destruct (IH H) as (? & ? & ? & ?).
        split; [apply elem_of_cons; by right | done].
    + intros H. destruct (IH H) as (? & ? & ? & ?).
      split; [apply elem_of_cons; by right | done].
  - intros H. destruct (IH H) as (? & ? & ? & ?).
    split; [apply elem_of_cons; by right | done].
Qed.

(** X14: what [extractPathArg] returns is always a non-empty string that is a
    value of the argument record: either the string under one of the known
    path keys, or, when none of those holds a non-empty string, a value that
    contains a slash or backslash and ends in a dot and one to ten word
    characters. *)
Theorem extractPathArg_sound args val :
  extractPathArg args = Some val ->
  val <> EmptyString /\ JsString val ∈ map snd args
  /\ ((exists key, key ∈ path_keys /\ map_get key args = Some (JsString val))
      \/ (forall key, key ∈ path_keys -> string_arg args key = None)
         /\ has_separator val = true /\ has_extension val = true).
Proof.
  unfold extractPathArg.
  destruct (first_string_arg path_keys args) as [v|] eqn:E.
  - intros [= <-]. destruct (first_string_arg_Some _ _ _ E) as (key & Hkey & Hval).
    destruct (string_arg_Some _ _ _ Hval) as [Hget Hne].
    split; [done |]. split.
    + apply list_elem_of_fmap. exists (key, JsString v). split; [done |].
      by apply map_get_elem.
    + left. by exists key.
  - intros H. destruct (first_path_like_Some _ _ H) as (Hin & Hne & Hsep & Hext).
    split; [done |]. split; [done |]. right. split; [| done].
    clear H Hin. revert E. generalize path_keys.
    induction l as [|k l IH]; simpl; intros E key Hkey; [by apply elem_of_nil in Hkey |].
    destruct (string_arg args k) eqn:Ek; [done |].
    apply elem_of_cons in Hkey as [-> | Hkey]; [done | by apply IH].
Qed.

Lemma extractPathArg_sound_witness :
  has_separator "src/app.tsx" = true /\ has_extension "src/app.tsx" = true.
Proof.
  destruct (extractPathArg_sound
              [("path", JsString EmptyString); ("line", JsOther);
               ("note", JsString "see README"); ("where", JsString "src/app.tsx")]
              "src/app.tsx") as (_ & _ & [(key & Hkey & Hget) | (_ & H1 & H2)]).
  - reflexivity.
  - exfalso. unfold path_keys in Hkey.
    repeat (apply elem_of_cons in Hkey as [-> | Hkey]; [discriminate Hget |]).
    by apply elem_of_nil in Hkey.
  - by split.
Defined.

(** * Further properties of the chat view *)

Lemma Set_values_fold (items acc : list string) :
  NoDup acc ->
  NoDup (fold_left (fun acc x => if decide (x ∈ acc) then acc else acc ++ [x]) items acc)
  /\ (forall x,
        x ∈ fold_left (fun acc x => if decide (x ∈ acc) then acc else acc ++ [x]) items acc
        <-> x ∈ acc \/ x ∈ items)
  /\ exists rest,
       fold_left (fun acc x => if decide (x ∈ acc) then acc else acc ++ [x]) items acc
       = acc ++ rest.
Proof.
  revert acc. induction items as [|y items IH]; intros acc Hnd; simpl.
  - split; [done |]. split; [| exists []; by rewrite app_nil_r].
    intros x. rewrite elem_of_nil. tauto.
  - destruct (decide (y ∈ acc)) as [Hin | Hnin].
    + destruct (IH acc Hnd) as (H1 & H2 & H3). split; [done |]. split; [| done].
      intros x. rewrite H2, elem_of_cons. split; [tauto |].
      intros [? | [-> | ?]]; tauto.
    + assert (Hnd' : NoDup (acc ++ [y])).
      { apply NoDup_app. split; [done |]. split; [| apply NoDup_singleton].
        intros x Hx. rewrite list_elem_of_singleton. by intros ->. }
      destruct (IH (acc ++ [y]) Hnd') as (H1 & H2 & (rest & H3)).
      split; [done |]. split.
      * intros x. rewrite H2, elem_of_app, list_elem_of_singleton, elem_of_cons. tauto.
      * exists (y :: rest). by rewrite H3, <- app_assoc.
Qed.

Lemma Set_values_fold_nodup (items acc : list string) :
  NoDup (acc ++ items) ->
  fold_left (fun acc x => if decide (x ∈ acc) then acc else acc ++ [x]) items acc
  = acc ++ items.
Proof.
  revert acc. induction items as [|y items IH]; intros acc Hnd; simpl.
  - by rewrite app_nil_r.
  - destruct (decide (y ∈ acc)) as [Hin | Hnin].
    + apply NoDup_app in Hnd as (_ & Hd & _). destruct (Hd y Hin).
      apply elem_of_cons. by left.
    + rewrite IH; [by rewrite <- app_assoc |]. by rewrite <- app_assoc.
Qed.

(** X15: the list of active participants holds each participant once, holds
    exactly the participants that stream or wait, and, when no participant
    is listed twice as streaming, starts with the streaming ones in their
    order. *)
Theorem allActiveIds_each_once streaming waiting :
  NoDup (allActiveIds streaming waiting)
  /\ (forall pid, pid ∈ allActiveIds streaming waiting
                  <-> pid ∈ streaming \/ pid ∈ waiting)
  /\ (NoDup streaming ->
      exists rest, allActiveIds streaming waiting = streaming ++ rest).
Proof.
  unfold allActiveIds, Set_values.
  destruct (Set_values_fold (streaming ++ waiting) [] (NoDup_nil_2)) as (H1 & H2 & _).
  split; [done |]. split.
  - intros pid. rewrite H2, elem_of_app, elem_of_nil. tauto.
  - intros Hnd. rewrite fold_left_app.
    rewrite (Set_values_fold_nodup streaming []) by done. simpl.
    destruct (Set_values_fold waiting streaming Hnd) as (_ & _ & H3). exact H3.
Qed.

Lemma allActiveIds_each_once_witness :
  exists rest, allActiveIds ["a"; "b"] ["b"; "c"; "a"] = ["a"; "b"] ++ rest.
Proof.
  destruct (allActiveIds_each_once ["a"; "b"] ["b"; "c"; "a"]) as (_ & _ & H).
  apply H. apply NoDup_cons. split; [| apply NoDup_singleton].
  intros Hin. apply list_elem_of_singleton in Hin. discriminate Hin.
Defined.

Lemma lower_ascii_y c :
  lower_ascii c = "y"%char -> c = "y"%char \/ c = "Y"%char.
Proof.
  destruct c as [[] [] [] [] [] [] [] []]; vm_compute; intros H;
    first [discriminate H | by left | by right].
Qed.

Lemma lower_ascii_n c :
  lower_ascii c = "n"%char -> c = "n"%char \/ c = "N"%char.
Proof.
  destruct c as [[] [] [] [] [] [] [] []]; vm_compute; intros H;
    first [discriminate H | by left | by right].
Qed.

Lemma toLowerCase_one_letter s c :
  toLowerCase s = String c EmptyString ->
  exists c0, s = String c0 EmptyString /\ lower_ascii c0 = c.
Proof.
  destruct s as [|c0 [|c1 s]]; simpl; try done.
  intros [= <-]. by exists c0.
Qed.

(** X16: the plan prompt reacts to the four inputs [y], [Y], [n] and [N] and
    to nothing else: any other input, such as [yes], leaves the chat view as
    it was, with the plan still waiting for its answer. *)
Theorem plan_input_reacts_to_four_keys input now app a :
  pendingPlanApproval app = Some a ->
  (input ∈ ["y"; "Y"; "n"; "N"] -> pendingPlanApproval (plan_input input now app) = None)
  /\ (input ∉ ["y"; "Y"; "n"; "N"] -> plan_input input now app = app).
Proof.
  intros Hp. split.
  - intros Hin. unfold plan_input, plan_input_handler. rewrite Hp.
    repeat (apply elem_of_cons in Hin as [-> | Hin]; [done |]).
    by apply elem_of_nil in Hin.
  - intros Hnin. unfold plan_input, plan_input_handler. rewrite Hp.
    destruct (String.eqb_spec (toLowerCase input) "y") as [Hy | _].
    { exfalso. apply Hnin.
      destruct (toLowerCase_one_letter _ _ Hy) as (c0 & -> & Hc).
      destruct (lower_ascii_y _ Hc) as [-> | ->]; set_solver. }
    destruct (String.eqb_spec (toLowerCase input) "n") as [Hn | _]; [| done].
    exfalso. apply Hnin.
    destruct (toLowerCase_one_letter _ _ Hn) as (c0 & -> & Hc).
    destruct (lower_ascii_n _ Hc) as [-> | ->]; set_solver.
Qed.

Lemma plan_input_reacts_to_four_keys_witness :
  plan_input "yes" 1700 sample_planning = sample_planning
  /\ pendingPlanApproval (plan_input "Y" 1700 sample_planning) = None.
Proof.
  destruct (plan_input_reacts_to_four_keys "yes" 1700 sample_planning sample_plan eq_refl)
    as [_ H1].
  destruct (plan_input_reacts_to_four_keys "Y" 1700 sample_planning sample_plan eq_refl)
    as [H2 _].
  split.
  - apply H1. intros H.
    repeat (apply elem_of_cons in H as [H | H]; [discriminate H |]).
    by apply elem_of_nil in H.
  - apply H2. apply elem_of_cons. right. apply elem_of_cons. by left.
Defined.

(** ** Promotion: nothing eligible is left behind *)

Lemma promotion_scan_mono S messages ids acc x :
  x ∈ ids -> x ∈ fst (promotion_scan S messages ids acc).
Proof.
  intros Hx. destruct (promotion_scan_spec S messages ids acc) as (new & _ & H & _).
  apply H. by left.
Qed.

Lemma promotion_scan_complete S messages ids acc m :
  m ∈ messages -> isComplete m = true -> msg_id m ∉ S ->
  msg_id m ∈ fst (promotion_scan S messages ids acc).
Proof.
  revert ids acc. induction messages as [|message rest IH]; intros ids acc Hin Hc HS.
  - by apply elem_of_nil in Hin.
  - simpl. apply elem_of_cons in Hin as [<- | Hin].
    + destruct (decide (msg_id m ∈ ids)) as [Hi | Hi];
        [by apply promotion_scan_mono |].
      destruct (decide (msg_id m ∈ S)) as [? | _]; [done |]. rewrite Hc.
      apply promotion_scan_mono. apply elem_of_union. left. by apply elem_of_singleton.
    + destruct (decide (msg_id message ∈ ids)); [by apply IH |].
      destruct (decide (msg_id message ∈ S)); [by apply IH |].
      destruct (isComplete message); by apply IH.
Qed.

Lemma promotion_scan_nothing S messages ids acc :
  (forall m, m ∈ messages -> isComplete m = true -> msg_id m ∉ S -> msg_id m ∈ ids) ->
  promotion_scan S messages ids acc = (ids, acc).
Proof.
  induction messages as [|message rest IH]; intros Hall; [done |]. simpl.
  assert (Hrest : promotion_scan S rest ids acc = (ids, acc)).
  { apply IH. intros m Hm. apply Hall. apply elem_of_cons. by right. }
  destruct (decide (msg_id message ∈ ids)) as [Hi | Hi]; [done |].
  destruct (decide (msg_id message ∈ S)) as [Hs | Hs]; [done |].
  destruct (isComplete message) eqn:Hc; [| done].
  destruct Hi. apply Hall; [apply elem_of_cons; by left | done | done].
Qed.



(** X18: the promotion effect is idempotent as a whole: run again with the
    same messages, active streams and dispatch order, it changes nothing. *)
Theorem promote_twice messages S order app :
  promote messages S order (promote messages S order app)
  = promote messages S order app.
Proof.
  destruct (promote_entries messages S order app) as [_ Hi].
  unfold promote at 1.
  rewrite (promotion_scan_nothing S messages
             (staticIds (promote messages S order app)) []).
  - simpl. by destruct (promote messages S order app).
  - intros m Hm Hc HS. rewrite Hi. by apply promotion_scan_complete.
Qed.

(** ** The log over the life of the chat view *)

Lemma message_ids_app l1 l2 : message_ids (l1 ++ l2) = message_ids l1 ++ message_ids l2.
Proof. apply omap_app. Qed.

Lemma message_ids_entries (batch : list Message) :
  message_ids (map message_entry batch) = map msg_id batch.
Proof. induction batch as [|m batch IH]; [done |]. simpl. by rewrite IH. Qed.

Lemma promote_log_ok messages S order app : log_ok app -> log_ok (promote messages S order app).
Proof.
  intros [Hnd Hin].
  destruct (promote_entries messages S order app) as [He Hi].
  destruct (promotion_scan_spec S messages (staticIds app) [])
    as (new & H1 & H2 & H3 & H4).
  assert (Hperm : promoted_batch messages S order app ≡ₚ new).
  { unfold promoted_batch, newlyCompleted_of. rewrite H1. apply Array_sort_perm. }
  unfold log_ok. rewrite He, Hi, message_ids_app, message_ids_entries, Hperm.
  split.
  - apply NoDup_app. split; [done |]. split; [| done].
    intros id Hid Hid'. apply list_elem_of_fmap in Hid' as (m & -> & Hm).
    destruct (H4 m Hm) as (_ & _ & _ & Hfresh). by apply Hfresh, Hin.
  - intros id. rewrite elem_of_app, H2, ?Hperm.
    intros [Hid | Hid]; [left; by apply Hin | by right].
Qed.

Lemma plan_input_log input now app :
  staticIds (plan_input input now app) = staticIds app
  /\ exists added,
       staticEntries (plan_input input now app) = staticEntries app ++ added
       /\ message_ids added = [].
Proof.
  unfold plan_input, plan_input_handler.
  destruct (pendingPlanApproval app) as [a|];
    [| split; [done | exists []; by rewrite app_nil_r]].
  destruct (negb (String.eqb (toLowerCase input) "y")
            && negb (String.eqb (toLowerCase input) "n"));
    [split; [done | exists []; by rewrite app_nil_r] |].
  destruct (negb (String.eqb (toLowerCase input) "y")); simpl;
    (split; [done | by eexists [_]]).
Qed.

Lemma chat_step_log a app :
  log_ok app ->
  log_ok (chat_step a app)
  /\ exists added, staticEntries (chat_step a app) = staticEntries app ++ added.
Proof.
  intros Hok. destruct a as [messages S order | input now]; simpl.
  - split; [by apply promote_log_ok |].
    destruct (promote_entries messages S order app) as [-> _]. by eexists.
  - destruct (plan_input_log input now app) as (Hi & added & He & Hm).
    destruct Hok as [Hnd Hin]. unfold log_ok.
    rewrite He, Hi, message_ids_app, Hm, app_nil_r. split; [done |]. by exists added.
Qed.

(** X19: over any sequence of promotion runs and plan-prompt inputs the
    static log only grows at its end, no message id ever has two entries in
    it, and every message in it has its id among the promoted ids. *)
Theorem static_log_append_only actions app :
  log_ok app ->
  log_ok (chat_run actions app)
  /\ exists added, staticEntries (chat_run actions app) = staticEntries app ++ added.
Proof.
  revert app. induction actions as [|a actions IH]; intros app Hok.
  - split; [done |]. exists []. by rewrite app_nil_r.
  - destruct (chat_step_log a app Hok) as (Hok1 & added1 & E1).
    destruct (IH (chat_step a app) Hok1) as (Hok2 & added2 & E2).
    split; [exact Hok2 |]. exists (added1 ++ added2).
    change (chat_run (a :: actions) app) with (chat_run actions (chat_step a app)).
    by rewrite E2, E1, <- app_assoc.
Qed.

Lemma static_log_append_only_witness :
  NoDup
    (message_ids
       (staticEntries
          (chat_run
             [Promote sample_messages ∅ ["A"]; PlanKey "y" 1700;
              Promote (rev sample_messages) ∅ []]
             sample_planning))).
Proof.
  destruct (static_log_append_only
              [Promote sample_messages ∅ ["A"]; PlanKey "y" 1700;
               Promote (rev sample_messages) ∅ []] sample_planning)
    as [[H _] _]; [| exact H].
  split; [constructor |]. intros id Hid. by apply elem_of_nil in Hid.
Defined.

(** * The message input *)

Lemma mention_scan_spec value i :
  (mention_scan value i = -1 /\ forall k, ~ mention_open value i k)
  \/ exists k, mention_scan value i = Z.of_nat k /\ mention_open value i k.
Proof.
  induction i as [|j IH]; simpl.
  - left. split; [done |]. intros k (Hk & _). lia.
  - assert (Hskip : mention_char value j ->
                    (mention_scan value j = -1
                     /\ forall k, ~ mention_open value (S j) k)
                    \/ exists k, mention_scan value j = Z.of_nat k
                                 /\ mention_open value (S j) k).
    { intros Hj. destruct IH as [[E Hno] | (k & E & Hk & Hat & Hmid)].
      - left. split; [done |]. intros k (Hk & Hat & Hmid).
        destruct (decide (k = j)) as [-> | Hne].
        + destruct (Hj _ Hat) as (? & _). done.
        + apply (Hno k). split; [lia |]. split; [done |].
          intros j' Hj'. apply Hmid. lia.
      - right. exists k. split; [done |]. split; [lia |]. split; [done |].
        intros j' Hj'. destruct (decide (j' = j)) as [-> | Hne]; [done |].
        apply Hmid. lia. }
    destruct (String.get j value) as [c|] eqn:Hget.
    + destruct (Ascii.eqb_spec c "@") as [-> | Hat].
      * right. exists j. split; [done |]. split; [lia |]. split; [done |].
        intros j' Hj'. lia.
      * destruct (Ascii.eqb_spec c " ") as [-> | Hsp]; simpl.
        { left. split; [done |]. intros k (Hk & Hk' & Hmid).
          destruct (decide (k = j)) as [-> | Hne]; [congruence |].
          destruct (Hmid j ltac:(lia) _ Hget) as (_ & ? & _). done. }
        destruct (Ascii.eqb_spec c (ascii_of_nat 10)) as [-> | Hlf].
        { left. split; [done |]. intros k (Hk & Hk' & Hmid).
          destruct (decide (k = j)) as [-> | Hne]; [congruence |].
          destruct (Hmid j ltac:(lia) _ Hget) as (_ & _ & ?). done. }
        apply Hskip. intros c' Hc'. rewrite Hget in Hc'. by injection Hc' as <-.
    + apply Hskip. intros c' Hc'. by rewrite Hget in Hc'.
Qed.

Lemma mention_open_unique value cursor k1 k2 :
  mention_open value cursor k1 -> mention_open value cursor k2 -> k1 = k2.
Proof.
  intros (H1 & A1 & M1) (H2 & A2 & M2).
  destruct (Nat.lt_trichotomy k1 k2) as [Hlt | [-> | Hlt]]; [| done |].
  - destruct (M1 k2 ltac:(lia) _ A2) as (? & _). done.
  - destruct (M2 k1 ltac:(lia) _ A1) as (? & _). done.
Qed.

Lemma lower_ascii_not_capital c : capital (lower_ascii c) = false.
Proof. destruct c as [[] [] [] [] [] [] [] []]; vm_compute; reflexivity. Qed.

Lemma toLowerCase_no_capital s : no_capital (toLowerCase s).
Proof.
  induction s as [|c s IH]; [done |]. simpl.
  split; [apply lower_ascii_not_capital | exact IH].
Qed.

(** X20: the mention autocomplete is active exactly when an [@] stands before
    the cursor with no space, line feed or further [@] between it and the
    cursor; it then starts at that [@] and its query is the text between the
    [@] and the cursor in lower case.  Whatever the value, the query holds no
    capital letter. *)
Theorem getMentionContext_spec value cursorPosition :
  (mention_isActive (getMentionContext value cursorPosition) = true
   <-> exists k, mention_open value cursorPosition k)
  /\ (forall k, mention_open value cursorPosition k ->
        getMentionContext value cursorPosition
        = mkMentionContext true (toLowerCase (slice value (k + 1) cursorPosition))
            (Z.of_nat k))
  /\ ((forall k, ~ mention_open value cursorPosition k) ->
      getMentionContext value cursorPosition = mkMentionContext false EmptyString (-1))
  /\ no_capital (mention_query (getMentionContext value cursorPosition)).
Proof.
  unfold getMentionContext.
  destruct (mention_scan_spec value cursorPosition) as [[E Hno] | (k & E & Hk)];
    rewrite E.
  - simpl. split; [| split; [| done]].
    + split; [done |]. intros [k Hk]. by destruct (Hno k).
    + intros k Hk. by destruct (Hno k).
  - destruct (Z.eqb_spec (Z.of_nat k) (-1)) as [? | _]; [lia |]. simpl.
    rewrite Nat2Z.id. split; [| split; [| split]].
    + split; [by exists k | done].
    + intros k' Hk'. by rewrite (mention_open_unique _ _ _ _ Hk' Hk).
    + intros Hno. by destruct (Hno k).
    + apply toLowerCase_no_capital.
Qed.

(** With the cursor at the end of [hi @Éo] the query is [éo]. *)
Lemma getMentionContext_spec_witness :
  getMentionContext sample_mention 6
  = mkMentionContext true (String (ascii_of_nat 233) "o") 3.
Proof.
  destruct (getMentionContext_spec sample_mention 6) as (_ & H & _).
  apply (H 3%nat). split; [lia |]. split; [reflexivity |].
  intros j Hj c Hc.
  assert (j = 4 \/ j = 5)%nat as [-> | ->] by lia; vm_compute in Hc;
    injection Hc as <-; by repeat split.
Defined.

Lemma get_append_skip (s1 s2 : string) (n : nat) :
  String.get (String.length s1 + n) (s1 +:+ s2) = String.get n s2.
Proof.
  induction s1 as [|a s1 IH]; [done |].
  change (String.get (S (String.length s1 + n)) (String a (s1 +:+ s2)) = String.get n s2).
  simpl. exact IH.
Qed.

Lemma prefix_nil (s : string) : String.prefix EmptyString s = true.
Proof. by destruct s. Qed.

Lemma index_space_bound (s1 s2 : string) :
  exists k, String.index 0 " " (s1 +:+ " " +:+ s2) = Some k /\ (k <= String.length s1)%nat.
Proof.
  induction s1 as [|a s1 IH].
  - exists 0%nat. change (EmptyString +:+ " " +:+ s2) with (String " " s2).
    cbn [String.index].
    replace (String.prefix " " (String " " s2)) with true; [done |].
    symmetry. change (String.prefix " " (String " " s2)) with (String.prefix EmptyString s2).
    apply prefix_nil.
  - change (String a s1 +:+ " " +:+ s2) with (String a (s1 +:+ " " +:+ s2)).
    destruct IH as (k & E & Hk). cbn [String.index].
    destruct (String.prefix " " (String a (s1 +:+ " " +:+ s2))).
    + exists 0%nat. split; [reflexivity | lia].
    + rewrite E. exists (S k). split; [reflexivity |]. simpl. lia.
Qed.

(** X21: completing a mention or a command closes the autocomplete: for the
    value and the cursor position that [insertMention] or [insertCommand]
    produce, the mention context and the command context are inactive. *)
Theorem completion_closes_autocomplete value cursorPosition startIndex nickname name :
  mention_isActive
    (getMentionContext (fst (insertMention value cursorPosition startIndex nickname))
       (snd (insertMention value cursorPosition startIndex nickname))) = false
  /\ command_isActive
       (getCommandContext (fst (insertCommand name)) (snd (insertCommand name))) = false.
Proof.
  split.
  - unfold insertMention, getMentionContext. simpl fst. simpl snd.
    set (before := slice value 0 startIndex).
    set (after := slice_from value cursorPosition).
    replace (String.length before + String.length nickname + 2)%nat
      with (S (String.length before + (1 + (String.length nickname + 0))))%nat by lia.
    cbn [mention_scan].
    rewrite get_append_skip.
    change ("@" +:+ nickname +:+ " " +:+ after)
      with (String "@" (nickname +:+ " " +:+ after)).
    change (String.get (1 + (String.length nickname + 0))
              (String "@" (nickname +:+ " " +:+ after)))
      with (String.get (String.length nickname + 0) (nickname +:+ " " +:+ after)).
    rewrite get_append_skip. by destruct after.
  - unfold insertCommand, getCommandContext. simpl fst. simpl snd.
    change ("/" +:+ name +:+ " ") with (String "/" (name +:+ " " +:+ EmptyString)).
    destruct (index_space_bound name EmptyString) as (k & E & Hk).
    change (String.prefix "/" (String "/" (name +:+ " " +:+ EmptyString)))
      with (String.prefix EmptyString (name +:+ " " +:+ EmptyString)).
    rewrite prefix_nil. cbn [negb String.index].
    change (String.prefix " " (String "/" (name +:+ " " +:+ EmptyString))) with false.
    rewrite E. cbn [String.length].
    match goal with
    | |- context [(?a <? ?b)%nat] => replace (a <? b)%nat with true; [done |]
    end.
    symmetry. apply Nat.ltb_lt. rewrite !length_append. cbn [String.length]. lia.
Qed.

Lemma get_beyond (s : string) (n : nat) :
  (String.length s <= n)%nat -> String.get n s = None.
Proof.
  revert n. induction s as [|a s IH]; intros n Hn; [by destruct n |].
  destruct n as [|n]; simpl in *; [lia |]. apply IH. lia.
Qed.

Lemma length_substring (n m : nat) (s : string) :
  String.length (String.substring n m s) = Nat.min m (String.length s - n).
Proof.
  revert n m. induction s as [|a s IH]; intros [|n] [|m]; simpl; try done;
    rewrite IH; by rewrite ?Nat.sub_0_r.
Qed.

(** X22: for a cursor inside the line, the viewport that [viewportFor]
    computes has the cursor inside it, shows under the cursor the character
    that the line has under the cursor, and, when there is room at all, is no
    wider than the room there is. *)
Theorem viewportFor_keeps_cursor termCols line col extraPrefix :
  0 <= col <= Z.of_nat (String.length line) ->
  0 <= viewCol (viewportFor termCols line col extraPrefix)
    <= Z.of_nat (String.length (visible (viewportFor termCols line col extraPrefix)))
  /\ String.get (Z.to_nat (viewCol (viewportFor termCols line col extraPrefix)))
       (visible (viewportFor termCols line col extraPrefix))
     = String.get (Z.to_nat col) line
  /\ (0 < termCols - PROMPT_WIDTH - extraPrefix - 1 ->
      Z.of_nat (String.length (visible (viewportFor termCols line col extraPrefix)))
      <= termCols - PROMPT_WIDTH - extraPrefix - 1).
Proof.
  intros Hcol. unfold viewportFor.
  set (avail := termCols - PROMPT_WIDTH - extraPrefix - 1).
  set (len := Z.of_nat (String.length line)) in *.
  destruct (Z.leb_spec avail 0) as [Hav | Hav]; simpl; [split; [done |]; split; [done | lia] |].
  destruct (Z.leb_spec len avail) as [Hfit | Hlong]; simpl; [done |].
  set (start0 := if (col - avail / 2 <? 0)%Z then 0 else col - avail / 2).
  set (start := if (len <? start0 + avail)%Z then Z.max (len - avail) 0 else start0).
  assert (Hstart : 0 <= start <= len - avail /\ 0 <= col - start <= avail
                   /\ (col - start = avail -> col = len)).
  { assert (Hhalf : 0 <= avail / 2 < avail)
      by (split; [apply Z.div_pos; lia | apply Z.div_lt; lia]).
    unfold start, start0. revert Hhalf. generalize (avail / 2). intros half Hhalf.
    destruct (Z.ltb_spec (col - half) 0);
      repeat match goal with
             | |- context [(?a <? ?b)%Z] => destruct (Z.ltb_spec a b)
             end; lia. }
  destruct Hstart as (Hs & Hv & Hend).
  assert (Hlen : String.length (slice line (Z.to_nat start) (Z.to_nat (start + avail)))
                 = Z.to_nat avail).
  { unfold slice. rewrite length_substring. unfold len in *. lia. }
  rewrite Hlen. split; [lia |]. split; [| lia].
  unfold slice. destruct (decide (col - start = avail)) as [Heq | Hne].
  - rewrite String.substring_correct2 by lia.
    symmetry. apply get_beyond. unfold len in *. lia.
  - rewrite String.substring_correct1 by lia. f_equal. lia.
Qed.

Lemma viewportFor_keeps_cursor_witness :
  viewportFor 14 "the quick brown fox" 12 0
  = mkViewport "ck brown fo" 5 true
  /\ String.get 5 "ck brown fo" = String.get 12 "the quick brown fox".
Proof.
  split; [reflexivity |].
  destruct (viewportFor_keeps_cursor 14 "the quick brown fox" 12 0) as (_ & H & _);
    [simpl; lia | exact H].
Defined.

(** X23: the window of options shown around the highlighted option always
    contains it, lies within the list and shows six options, or all of them
    when there are fewer. *)
Theorem option_window_shows_highlighted autocompleteIndex total :
  0 <= autocompleteIndex < total ->
  0 <= fst (option_window autocompleteIndex total) <= autocompleteIndex
  /\ autocompleteIndex < snd (option_window autocompleteIndex total) <= total
  /\ snd (option_window autocompleteIndex total)
     - fst (option_window autocompleteIndex total) = Z.min 6 total.
Proof.
  intros H. unfold option_window. simpl.
  destruct (Z.ltb_spec 6 total); lia.
Qed.

Lemma option_window_shows_highlighted_witness :
  0 <= 7 < 9
  /\ snd (option_window 7 9) - fst (option_window 7 9) = Z.min 6 9.
Proof.
  split; [lia |].
  destruct (option_window_shows_highlighted 7 9) as (_ & _ & H); [lia | exact H].
Defined.



Lemma split_lines_cons value : exists line lines, split_lines value = line :: lines.
Proof.
  induction value as [|c value (line & lines & IH)]; simpl; [by eexists _, _ |].
  destruct (Ascii.eqb c _); [by eexists _, _ |]. rewrite IH. by eexists _, _.
Qed.

Lemma split_lines_total value :
  sum_list (map (fun line => String.length line + 1)%nat (split_lines value))
  = (String.length value + 1)%nat.
Proof.
  induction value as [|c value IH]; simpl; [done |].
  destruct (Ascii.eqb c _); simpl; [by rewrite IH |].
  destruct (split_lines_cons value) as (line & lines & E).
  rewrite E in IH |- *. simpl in *. lia.
Qed.

Lemma split_lines_join value : join LF (split_lines value) = value.
Proof.
  induction value as [|c value IH]; [done |].
  cbn [split_lines]. destruct (split_lines_cons value) as (line & lines & E).
  rewrite E in *.
  destruct (Ascii.eqb_spec c (ascii_of_nat 10)) as [-> | Hc].
  - change (join LF (EmptyString :: line :: lines))
      with (EmptyString +:+ LF +:+ join LF (line :: lines)).
    rewrite IH. reflexivity.
  - destruct lines as [|line' lines].
    + change (join LF [String c line]) with (String c line).
      change (join LF [line]) with line in IH. by rewrite IH.
    + change (join LF (String c line :: line' :: lines))
        with (String c line +:+ LF +:+ join LF (line' :: lines)).
      change (join LF (line :: line' :: lines))
        with (line +:+ LF +:+ join LF (line' :: lines)) in IH.
      rewrite <- IH. reflexivity.
Qed.

Lemma locate_cursor_spec lines cursorPosition offset i0 :
  (offset <= cursorPosition)%nat ->
  (cursorPosition
   < offset + sum_list (map (fun line => String.length line + 1)%nat lines))%nat ->
  exists k line,
    locate_cursor lines cursorPosition offset i0
    = ((i0 + k)%nat, (cursorPosition - (offset + line_offset lines k))%nat)
    /\ lines !! k = Some line
    /\ (offset + line_offset lines k <= cursorPosition
        <= offset + line_offset lines k + String.length line)%nat.
Proof.
  revert offset i0. induction lines as [|line lines IH]; intros offset i0 Hlo Hhi; simpl in *.
  - lia.
  - destruct (Nat.leb_spec cursorPosition (offset + String.length line)) as [Hle | Hgt].
    + exists 0%nat, line. unfold line_offset. simpl.
      rewrite !Nat.add_0_r. split; [done |]. split; [done | lia].
    + destruct (IH (offset + String.length line + 1)%nat (S i0)) as (k & l & E & Hk & Hb);
        [lia | lia |].
      exists (S k), l. unfold line_offset in *. simpl.
      rewrite E. split; [f_equal; lia |]. split; [done | lia].
Qed.

(** X25: for a cursor inside a non-empty value, the line and the column that
    the input computes name a line of the value and a column within it, and
    the characters of the lines above, each with its line feed, together with
    the column give the cursor position; the lines joined by line feeds are
    the value. *)
Theorem cursor_line_col_spec value cursorPosition :
  value <> EmptyString -> (cursorPosition <= String.length value)%nat ->
  join LF (split_lines value) = value
  /\ exists line,
       split_lines value !! fst (cursor_line_col value cursorPosition) = Some line
       /\ (snd (cursor_line_col value cursorPosition) <= String.length line)%nat
       /\ cursorPosition
          = (line_offset (split_lines value) (fst (cursor_line_col value cursorPosition))
             + snd (cursor_line_col value cursorPosition))%nat.
Proof.
  intros Hne Hc. split; [apply split_lines_join |].
  unfold cursor_line_col. destruct value as [|c value]; [done |].
  change (0 <? String.length (String c value))%nat with true. cbv iota.
  destruct (locate_cursor_spec (split_lines (String c value)) cursorPosition 0 0)
    as (k & line & E & Hk & Hb); [lia | rewrite split_lines_total; lia |].
  rewrite E. cbn [fst snd Nat.add] in *. exists line. split; [done |].
  split; lia.
Qed.

Lemma cursor_line_col_spec_witness :
  cursor_line_col ("ab" +:+ LF +:+ "cde") 5 = (1%nat, 2%nat)
  /\ exists line,
       split_lines ("ab" +:+ LF +:+ "cde")
         !! fst (cursor_line_col ("ab" +:+ LF +:+ "cde") 5) = Some line.
Proof.
  split; [reflexivity |].
  destruct (cursor_line_col_spec ("ab" +:+ LF +:+ "cde") 5) as (_ & line & H & _);
    [discriminate | simpl; lia |].
  by exists line.
Defined.

Lemma length_slice_0 (v : string) (k : nat) :
  String.length (slice v 0 k) = Nat.min k (String.length v).
Proof. unfold slice. rewrite Nat.sub_0_r. apply length_substring_0. Qed.

Lemma length_slice_from (v : string) (k : nat) :
  String.length (slice_from v k) = (String.length v - k)%nat.
Proof. unfold slice_from. rewrite length_substring. lia. Qed.

Lemma length_insert_at (v : string) (k : nat) (text : string) :
  (k <= String.length v)%nat ->
  String.length (insert_at v k text) = (String.length v + String.length text)%nat.
Proof.
  intros H. unfold insert_at.
  rewrite !length_append, length_slice_0, length_slice_from. lia.
Qed.

Lemma push_history_length (history : list string) (m : string) :
  (length history <= 100)%nat -> (length (push_history history m) <= 100)%nat.
Proof.
  intros H. unfold push_history. destruct (decide _); [done |].
  rewrite length_app. simpl.
  destruct (Nat.ltb_spec 100 (length history + 1)).
  - rewrite length_drop, length_app. simpl. lia.
  - rewrite length_app. simpl. lia.
Qed.

Lemma handleSubmit_editor_ok parseMentions props st :
  editor_ok st -> editor_ok (handleSubmit parseMentions props st).
Proof.
  intros Hok. unfold handleSubmit. cbv zeta.
  destruct (negb (nonempty _)); [done |].
  destruct (String.prefix _ _); [destruct (has_onCommand props) |];
    (split; simpl; lia).
Qed.

Ltac key_case :=
  match goal with
  | |- context [if ?b then _ else _] => destruct b eqn:?
  | |- context [match ?o with Some _ => _ | None => _ end] => destruct o eqn:?
  end.

Lemma on_key_editor_ok parseMentions props input key st :
  editor_ok st -> editor_ok (on_key parseMentions props input key st).
Proof.
  intros Hok. pose proof Hok as [Hc Hh].
  unfold on_key. cbv zeta.
  set (mc := getMentionContext _ _). set (cc := getCommandContext _ _).
  set (mo := autocompleteOptions _ _). set (co := commandOptions _).
  unfold insertMention, insertCommand.
  repeat (key_case; try done);
    try (apply handleSubmit_editor_ok; done);
    split; cbn [value cursorPosition historyIndex messageHistory set_text set_historyIndex
                set_savedInput set_autocompleteIndex set_exitHint set_pastedContent call];
    rewrite ?length_append, ?length_slice_0, ?length_slice_from, ?length_insert_at by done;
    change (String.length "@") with 1%nat; change (String.length " ") with 1%nat;
    change (String.length LF) with 1%nat; lia.
Qed.

Lemma after_render_fields props st :
  value (after_render props st) = value st
  /\ cursorPosition (after_render props st) = cursorPosition st
  /\ messageHistory (after_render props st) = messageHistory st
  /\ historyIndex (after_render props st) = historyIndex st
  /\ exitHintActive (after_render props st) = exitHintActive st
  /\ calls (after_render props st) = calls st.
Proof. unfold after_render. cbv zeta. by destruct (decide _). Qed.

Lemma after_render_editor_ok props st :
  editor_ok st -> editor_ok (after_render props st).
Proof.
  unfold editor_ok. destruct (after_render_fields props st) as (-> & -> & -> & -> & _).
  done.
Qed.

Lemma handle_input_editor_ok parseMentions props ev st :
  editor_ok st -> editor_ok (handle_input parseMentions props ev st).
Proof.
  intros Hok. destruct ev as [input key|text|]; simpl.
  - by apply on_key_editor_ok.
  - destruct Hok as [Hc Hh]. unfold on_paste. destruct (_ && _); split; simpl; try done.
    rewrite length_insert_at by done. lia.
  - unfold on_exitHint_timeout. by destruct (exitHintTimer st).
Qed.

Lemma input_step_editor_ok parseMentions st ev :
  editor_ok st -> editor_ok (input_step parseMentions st ev).
Proof.
  intros Hok. unfold input_step.
  by apply after_render_editor_ok, handle_input_editor_ok, after_render_editor_ok.
Qed.

Lemma input_run_snoc parseMentions evs ev st :
  input_run parseMentions (evs ++ [ev]) st
  = input_step parseMentions (input_run parseMentions evs st) ev.
Proof. unfold input_run. by rewrite fold_left_app. Qed.

(** An invariant of the steps holds after every run. *)
Lemma input_run_invariant (P : InputState -> Prop) parseMentions :
  P new_input ->
  (forall st ev, P st -> P (input_step parseMentions st ev)) ->
  forall evs, P (input_run parseMentions evs new_input).
Proof.
  intros H0 Hstep evs. induction evs as [|ev evs IH] using rev_ind; [done |].
  rewrite input_run_snoc. by apply Hstep.
Qed.

(** X26: whatever keys are pressed and whatever is pasted, the cursor stays
    within the text of the input line, and the history index is [-1] or the
    index of a recorded message. *)
Theorem editor_stays_in_bounds parseMentions evs :
  editor_ok (input_run parseMentions evs new_input).
Proof.
  apply input_run_invariant.
  - split; simpl; lia.
  - intros st ev. apply input_step_editor_ok.
Qed.

Lemma push_history_ok (history : list string) (m : string) :
  m <> EmptyString -> history_ok history -> history_ok (push_history history m).
Proof.
  intros Hm (Hlen & Hne & Hadj).
  split; [by apply push_history_length |].
  unfold push_history. destruct (decide _) as [|Hlast]; [done |].
  assert (Hpushed : Forall (fun m => m <> EmptyString) (history ++ [m])
                    /\ forall i a b, (history ++ [m]) !! i = Some a ->
                                     (history ++ [m]) !! S i = Some b -> a <> b).
  { split; [apply Forall_app; split; [done | by constructor] |].
    intros i a b Ha Hb.
    destruct (decide (S i < length history)%nat) as [Hi|Hi].
    - rewrite lookup_app_l in Ha by lia. rewrite lookup_app_l in Hb by lia. eauto.
    - assert (S i = length history) as Hi'.
      { apply lookup_lt_Some in Hb. rewrite length_app in Hb. simpl in Hb. lia. }
      rewrite lookup_app_l in Ha by lia.
      rewrite Hi', list_lookup_middle in Hb by done.
      injection Hb as <-. intros ->. apply Hlast.
      rewrite last_lookup. rewrite <- Hi'. exact Ha. }
  destruct Hpushed as [Hne' Hadj'].
  destruct (100 <? _)%nat; [| done].
  split; [by apply Forall_drop |].
  intros i a b. rewrite !lookup_drop. simpl. apply Hadj'.
Qed.

Lemma handleSubmit_history parseMentions props st :
  messageHistory (handleSubmit parseMentions props st) = messageHistory st
  \/ exists m, m <> EmptyString
       /\ messageHistory (handleSubmit parseMentions props st)
          = push_history (messageHistory st) m.
Proof.
  unfold handleSubmit. cbv zeta.
  set (fullMessage := if nonempty _ && _ then _ else _).
  destruct (nonempty fullMessage) eqn:Hfull; simpl; [| by left].
  right. exists fullMessage. split.
  - intros E. rewrite E in Hfull. done.
  - destruct (String.prefix _ _); [destruct (has_onCommand props) |]; done.
Qed.

Lemma on_key_history parseMentions props input key st :
  messageHistory (on_key parseMentions props input key st) = messageHistory st
  \/ exists m, m <> EmptyString
       /\ messageHistory (on_key parseMentions props input key st)
          = push_history (messageHistory st) m.
Proof.
  unfold on_key. cbv zeta.
  set (mc := getMentionContext _ _). set (cc := getCommandContext _ _).
  set (mo := autocompleteOptions _ _). set (co := commandOptions _).
  unfold insertMention, insertCommand.
  repeat (key_case; try (by left)); apply handleSubmit_history.
Qed.

Lemma input_step_history parseMentions st ev :
  messageHistory (input_step parseMentions st ev) = messageHistory st
  \/ exists m, m <> EmptyString
       /\ messageHistory (input_step parseMentions st ev)
          = push_history (messageHistory st) m.
Proof.
  unfold input_step.
  destruct (after_render_fields ev.1
              (handle_input parseMentions ev.1 ev.2 (after_render ev.1 st)))
    as (_ & _ & -> & _).
  destruct (after_render_fields ev.1 st) as (_ & _ & Hh & _).
  rewrite <- Hh.
  destruct ev.2 as [input key|text|]; simpl.
  - apply on_key_history.
  - left. unfold on_paste. by destruct (_ && _).
  - left. unfold on_exitHint_timeout. by destruct (exitHintTimer _).
Qed.

(** X27: the history of sent messages never holds more than a hundred
    entries, never an empty one, and never the same message twice in a
    row. *)
Theorem history_stays_well_formed parseMentions evs :
  history_ok (messageHistory (input_run parseMentions evs new_input)).
Proof.
  apply (input_run_invariant (fun st => history_ok (messageHistory st))).
  - split; [simpl; lia |]. split; [constructor |]. intros i a b H. done.
  - intros st ev Hok.
    destruct (input_step_history parseMentions st ev) as [-> | (m & Hm & ->)];
      [done | by apply push_history_ok].
Qed.

Lemma exits_call (c : InputCall) (st : InputState) :
  length (List.filter is_exit (calls (call c st)))
  = (length (List.filter is_exit (calls st)) + (if is_exit c then 1 else 0))%nat.
Proof.
  simpl. rewrite List.filter_app, length_app. simpl. by destruct (is_exit c).
Qed.

Lemma handleSubmit_exits parseMentions props st :
  length (List.filter is_exit (calls (handleSubmit parseMentions props st)))
  = length (List.filter is_exit (calls st))
  /\ exitHintActive (handleSubmit parseMentions props st) = exitHintActive st.
Proof.
  unfold handleSubmit. cbv zeta.
  destruct (negb (nonempty _)); [done |].
  destruct (String.prefix _ _); [destruct (has_onCommand props) |]; simpl;
    rewrite ?List.filter_app, ?length_app; simpl; split; (done || lia).
Qed.

Lemma on_key_exits parseMentions props input key st :
  (2 * length (List.filter is_exit (calls (on_key parseMentions props input key st)))
   + (if exitHintActive (on_key parseMentions props input key st) then 1 else 0)
   <= 2 * length (List.filter is_exit (calls st))
      + (if exitHintActive st then 1 else 0)
      + (if escape key then 1 else 0))%nat.
Proof.
  pose (weight := fun st : InputState =>
          (2 * length (List.filter is_exit (calls st))
           + (if exitHintActive st then 1 else 0))%nat).
  pose (pressed := fun b : bool => if b then 1%nat else 0%nat).
  change (weight (on_key parseMentions props input key st)
          <= weight st + pressed (escape key))%nat.
  assert (Hsubmit : weight (handleSubmit parseMentions props st) = weight st).
  { unfold weight. by destruct (handleSubmit_exits parseMentions props st) as [-> ->]. }
  unfold on_key. cbv zeta.
  set (mc := getMentionContext _ _). set (cc := getCommandContext _ _).
  set (mo := autocompleteOptions _ _). set (co := commandOptions _).
  unfold insertMention, insertCommand.
  repeat (key_case; try lia); try (rewrite Hsubmit; lia);
    subst weight pressed; cbv beta; simpl;
    rewrite ?List.filter_app, ?length_app; simpl;
    repeat match goal with
      | H : ?b = _ |- context [if ?b then _ else _] => rewrite H
      end; try lia; destruct (exitHintActive st); lia.
Qed.

Lemma input_step_exits parseMentions st ev :
  (2 * length (List.filter is_exit (calls (input_step parseMentions st ev)))
   + (if exitHintActive (input_step parseMentions st ev) then 1 else 0)
   <= 2 * length (List.filter is_exit (calls st))
      + (if exitHintActive st then 1 else 0)
      + (if is_escape_press ev then 1 else 0))%nat.
Proof.
  unfold input_step, is_escape_press.
  destruct (after_render_fields ev.1
              (handle_input parseMentions ev.1 ev.2 (after_render ev.1 st)))
    as (_ & _ & _ & _ & -> & ->).
  destruct (after_render_fields ev.1 st) as (_ & _ & _ & _ & Hh & Hc).
  rewrite <- Hh, <- Hc.
  destruct ev.2 as [input key|text|]; simpl.
  - apply on_key_exits.
  - unfold on_paste. destruct (_ && _); simpl; lia.
  - unfold on_exitHint_timeout. destruct (exitHintTimer _); simpl; [| lia].
    destruct (exitHintActive _); lia.
Qed.

(** X28: leaving the chat takes two presses of Escape: at any moment the
    calls of [onExit] made so far are at most half as many as the Escape keys
    pressed. *)
Theorem exit_takes_two_escapes parseMentions evs :
  (2 * length (List.filter is_exit (calls (input_run parseMentions evs new_input)))
   <= length (List.filter is_escape_press evs))%nat.
Proof.
  cut (2 * length (List.filter is_exit (calls (input_run parseMentions evs new_input)))
       + (if exitHintActive (input_run parseMentions evs new_input) then 1 else 0)
       <= length (List.filter is_escape_press evs))%nat; [lia |].
  induction evs as [|ev evs IH] using rev_ind; [simpl; lia |].
  rewrite input_run_snoc, List.filter_app, length_app.
  pose proof (input_step_exits parseMentions (input_run parseMentions evs new_input) ev) as H.
  simpl. destruct (is_escape_press ev); simpl; lia.
Qed.

Lemma mention_active_options props mc :
  mention_isActive mc && (0 <? length (autocompleteOptions props mc))%nat
  = (0 <? length (autocompleteOptions props mc))%nat.
Proof. unfold autocompleteOptions. by destruct (mention_isActive mc). Qed.

Lemma command_active_options cc :
  command_isActive cc && (0 <? length (commandOptions cc))%nat
  = (0 <? length (commandOptions cc))%nat.
Proof. unfold commandOptions. by destruct (command_isActive cc). Qed.

Lemma option_up_in_range (n prev : Z) :
  0 < n -> 0 <= prev < Z.max 1 n -> 0 <= option_up n prev < Z.max 1 n.
Proof. intros Hn H. unfold option_up. destruct (Z.ltb_spec 0 prev); lia. Qed.

Lemma option_down_in_range (n prev : Z) :
  0 < n -> 0 <= prev < Z.max 1 n -> 0 <= option_down n prev < Z.max 1 n.
Proof. intros Hn H. unfold option_down. destruct (Z.ltb_spec prev (n - 1)); lia. Qed.

Lemma handleSubmit_highlight parseMentions props st :
  rendered_options (handleSubmit parseMentions props st) = rendered_options st
  /\ autocompleteIndex (handleSubmit parseMentions props st) = autocompleteIndex st.
Proof.
  unfold handleSubmit. cbv zeta.
  destruct (negb (nonempty _)); [done |].
  by destruct (String.prefix _ _); [destruct (has_onCommand props) |].
Qed.

Lemma on_key_highlight parseMentions props input key st :
  rendered_options (on_key parseMentions props input key st) = rendered_options st
  /\ (0 <= autocompleteIndex st < Z.max 1 (shown_count (options_lengths props st)) ->
      0 <= autocompleteIndex (on_key parseMentions props input key st)
        < Z.max 1 (shown_count (options_lengths props st))).
Proof.
  unfold shown_count, options_lengths, on_key. cbv zeta.
  set (mc := getMentionContext _ _). set (cc := getCommandContext _ _).
  set (mo := autocompleteOptions _ _). set (co := commandOptions _).
  cbn [fst snd].
  subst mo co. rewrite mention_active_options, command_active_options.
  set (mo := autocompleteOptions _ _). set (co := commandOptions _).
  set (count := if (0 <? length mo)%nat then Z.of_nat (length mo) else Z.of_nat (length co)).
  assert (Hcount : (0 <? length mo)%nat || (0 <? length co)%nat = true -> 0 < count).
  { subst count. destruct (Nat.ltb_spec 0 (length mo)); simpl; [lia |].
    destruct (Nat.ltb_spec 0 (length co)); [lia | done]. }
  assert (Hsame : (if (0 <? length mo)%nat then Z.of_nat (length mo)
                   else if (0 <? length co)%nat then Z.of_nat (length co) else 0) = count).
  { subst count. destruct (Nat.ltb_spec 0 (length mo)); [done |].
    destruct (Nat.ltb_spec 0 (length co)); [done | lia]. }
  rewrite Hsame. clearbody count.
  destruct (handleSubmit_highlight parseMentions props st) as [Hr Hi].
  unfold insertMention, insertCommand.
  destruct (disabled props || isPasting props); [done |].
  destruct ((0 <? length mo)%nat || (0 <? length co)%nat) eqn:Hany.
  - specialize (Hcount eq_refl). cbn [andb negb].
    destruct (upArrow key); [split; [done |]; by apply option_up_in_range |].
    destruct (downArrow key); [split; [done |]; by apply option_down_in_range |].
    repeat (key_case; try done); by rewrite ?Hr, ?Hi.
  - cbn [andb negb].
    repeat (key_case; try done); by rewrite ?Hr, ?Hi.
Qed.

Lemma after_render_highlight props st :
  highlight_ok st ->
  highlight_ok (after_render props st)
  /\ rendered_options (after_render props st)
     = options_lengths props (after_render props st).
Proof.
  intros Hok. unfold after_render. cbv zeta.
  destruct (decide _) as [E|E]; [done |].
  split; [| done]. unfold highlight_ok. simpl. lia.
Qed.

Lemma input_step_highlight parseMentions st ev :
  highlight_ok st ->
  highlight_ok (input_step parseMentions st ev)
  /\ rendered_options (input_step parseMentions st ev)
     = options_lengths ev.1 (input_step parseMentions st ev).
Proof.
  intros Hok. unfold input_step.
  destruct (after_render_highlight ev.1 st Hok) as [Hok1 Hr1].
  apply after_render_highlight.
  unfold highlight_ok in *.
  destruct ev.2 as [input key|text|]; simpl.
  - destruct (on_key_highlight parseMentions ev.1 input key (after_render ev.1 st))
      as [-> Hi].
    rewrite Hr1. apply Hi. by rewrite <- Hr1.
  - unfold on_paste. by destruct (_ && _).
  - unfold on_exitHint_timeout. by destruct (exitHintTimer _).
Qed.

(** X29: whenever a list of options is shown, the highlighted index points at
    one of its options, so that Tab always has an option to take. *)
Theorem highlighted_option_exists parseMentions evs props ev :
  autocomplete_shown props (input_run parseMentions (evs ++ [(props, ev)]) new_input) = true ->
  is_Some (highlighted props (input_run parseMentions (evs ++ [(props, ev)]) new_input)).
Proof.
  rewrite input_run_snoc.
  assert (Hok : highlight_ok (input_run parseMentions evs new_input)).
  { apply (input_run_invariant highlight_ok).
    - unfold highlight_ok. simpl. lia.
    - intros st e H. by apply input_step_highlight. }
  destruct (input_step_highlight parseMentions _ (props, ev) Hok) as [H Hr].
  set (st := input_step _ _ _) in *. cbn [fst] in Hr.
  unfold highlight_ok in H. rewrite Hr in H.
  unfold autocomplete_shown, highlighted. cbv zeta.
  unfold shown_count, options_lengths in *. cbn [fst snd] in *.
  set (mo := autocompleteOptions _ _) in *. set (co := commandOptions _) in *.
  intros Hshown. unfold option_at.
  destruct (Z.ltb_spec (autocompleteIndex st) 0); [lia |].
  destruct (Nat.ltb_spec 0 (length mo)).
  - apply fmap_is_Some, lookup_lt_is_Some. lia.
  - simpl in Hshown. apply Nat.ltb_lt in Hshown.
    apply fmap_is_Some, lookup_lt_is_Some. lia.
Qed.

Lemma highlighted_option_exists_witness :
  highlighted sample_props
    (input_run sample_parser
       ([(sample_props, KeyPress "@" no_key)] ++ [(sample_props, KeyPress EmptyString key_down)])
       new_input) = Some "opus"
  /\ is_Some (highlighted sample_props
       (input_run sample_parser
          ([(sample_props, KeyPress "@" no_key)]
           ++ [(sample_props, KeyPress EmptyString key_down)])
          new_input)).
Proof.
  split; [reflexivity |].
  apply (highlighted_option_exists sample_parser
           [(sample_props, KeyPress "@" no_key)] sample_props
           (KeyPress EmptyString key_down)).
  reflexivity.
Defined.

Lemma rev_app_append (s1 s2 : string) :
  String.rev_app s1 s2 = String.rev s1 +:+ s2.
Proof.
  unfold String.rev. revert s2.
  induction s1 as [|a s1 IH]; intros s2; [done |].
  simpl. rewrite (IH (String a s2)), (IH (String a EmptyString)).
  by rewrite append_assoc.
Qed.

Lemma rev_cons (a : ascii) (s : string) :
  String.rev (String a s) = String.rev s +:+ String a EmptyString.
Proof. unfold String.rev at 1. simpl. apply rev_app_append. Qed.

Lemma ends_clean_snoc (s : string) (a : ascii) :
  is_space a = false -> ends_clean (s +:+ String a EmptyString).
Proof.
  intros Ha. induction s as [|b s IH]; [done |].
  change (ends_clean (String b (s +:+ String a EmptyString))).
  simpl. by destruct (s +:+ String a EmptyString) eqn:E; [destruct s |].
Qed.

Lemma ends_clean_append (s1 s2 : string) :
  s2 <> EmptyString -> ends_clean s2 -> ends_clean (s1 +:+ s2).
Proof.
  intros Hne H. induction s1 as [|b s1 IH]; [done |].
  change (ends_clean (String b (s1 +:+ s2))).
  simpl. by destruct (s1 +:+ s2) eqn:E; [destruct s1, s2 |].
Qed.

Lemma append_nonempty_r (s1 s2 : string) :
  s2 <> EmptyString -> s1 +:+ s2 <> EmptyString.
Proof.
  intros H. destruct s1 as [|a s1]; [done |].
  by change (String a (s1 +:+ s2) <> EmptyString).
Qed.

Lemma ends_clean_tail (a : ascii) (s : string) :
  ends_clean (String a s) -> ends_clean s.
Proof. by destruct s. Qed.

Lemma trimStart_starts_clean (s : string) :
  match trimStart s with
  | EmptyString => True
  | String c _ => is_space c = false
  end.
Proof.
  induction s as [|a s IH]; [done |]. simpl.
  by destruct (is_space a) eqn:E; [| rewrite E].
Qed.

Lemma trim_ends_clean (s : string) : ends_clean (trim s).
Proof.
  unfold trim. pose proof (trimStart_starts_clean (String.rev (trimStart s))) as H.
  destruct (trimStart (String.rev (trimStart s))) as [|c t]; [done |].
  rewrite rev_cons. by apply ends_clean_snoc.
Qed.

Lemma no_space_snoc (s : string) (a : ascii) :
  no_space s -> is_space a = false -> no_space (s +:+ String a EmptyString).
Proof.
  intros Hs Ha. induction s as [|b s IH]; [done |].
  change (no_space (String b (s +:+ String a EmptyString))).
  destruct Hs as [Hb Hs]. split; [done | by apply IH].
Qed.

Lemma snoc_nonempty (s : string) (a : ascii) :
  s +:+ String a EmptyString <> EmptyString.
Proof. by destruct s. Qed.

(** The pieces of a text that does not end in white space: the first may be
    empty, the others are words. *)
Lemma split_spaces_from_words (s current : string) (in_space : bool) :
  ends_clean s -> (s = EmptyString -> in_space = false) -> no_space current ->
  exists first rest,
    split_spaces_from s current in_space = first :: rest
    /\ no_space first
    /\ Forall (fun a => a <> EmptyString /\ no_space a) rest
    /\ (current <> EmptyString \/ (in_space = true /\ s <> EmptyString) ->
        first <> EmptyString).
Proof.
  revert current in_space.
  induction s as [|c s IH]; intros current in_space Hclean Hempty Hcurrent.
  - exists current, []. simpl. repeat split; [done | constructor |].
    intros [H | [_ H]]; done.
  - simpl. destruct (is_space c) eqn:Hc.
    + assert (Hs : s <> EmptyString).
      { intros ->. simpl in Hclean. congruence. }
      apply ends_clean_tail in Hclean.
      destruct in_space.
      * destruct (IH current true Hclean ltac:(done) Hcurrent)
          as (first & rest & -> & Hfirst & Hrest & Hne).
        exists first, rest. repeat split; try done. intros _. apply Hne. by right.
      * destruct (IH EmptyString true Hclean ltac:(done) I)
          as (first & rest & -> & Hfirst & Hrest & Hne).
        exists current, (first :: rest). repeat split; try done.
        -- constructor; [| done]. split; [| done]. apply Hne. by right.
        -- intros [H | [H _]]; done.
    + apply ends_clean_tail in Hclean.
      destruct (IH (current +:+ String c EmptyString) false Hclean ltac:(done)
                  (no_space_snoc _ _ Hcurrent Hc))
        as (first & rest & -> & Hfirst & Hrest & Hne).
      exists first, rest. repeat split; try done.
      intros _. apply Hne. left. apply snoc_nonempty.
Qed.

Lemma slice_from_1 (a : ascii) (s : string) : slice_from (String a s) 1 = s.
Proof.
  unfold slice_from. simpl. rewrite Nat.sub_0_r.
  induction s as [|b s IH]; [done |]. simpl. by rewrite IH.
Qed.

Lemma nonempty_spec (s : string) : nonempty s = true <-> s <> EmptyString.
Proof. by destruct s. Qed.

Lemma handleSubmit_calls parseMentions props st :
  exists added,
    calls (handleSubmit parseMentions props st) = calls st ++ added
    /\ Forall command_ok added.
Proof.
  unfold handleSubmit. cbv zeta.
  set (typed := trim (value st)).
  set (pasted := match pastedContent st with Some p => trim p | None => EmptyString end).
  set (fullMessage := if nonempty typed && nonempty pasted then _ else _).
  assert (Hclean : ends_clean fullMessage).
  { assert (ends_clean typed) by apply trim_ends_clean.
    assert (ends_clean pasted).
    { subst pasted. destruct (pastedContent st); [apply trim_ends_clean | done]. }
    subst fullMessage.
    destruct (nonempty typed) eqn:Ht; [| done].
    destruct (nonempty pasted) eqn:Hp; [| done]. simpl.
    apply nonempty_spec in Hp.
    repeat (apply ends_clean_append; [by repeat apply append_nonempty_r |]). done. }
  clearbody fullMessage.
  destruct (negb (nonempty fullMessage)).
  { exists []. by rewrite app_nil_r. }
  destruct (String.prefix "/" fullMessage) eqn:Hslash.
  - destruct (has_onCommand props); simpl.
    + eexists [_]. split; [done |]. constructor; [| done].
      destruct fullMessage as [|a rest]; [done |].
      rewrite slice_from_1. apply ends_clean_tail in Hclean.
      destruct (split_spaces_from_words rest EmptyString false Hclean ltac:(done) I)
        as (first & args & Hsplit & Hfirst & Hargs & _).
      unfold split_spaces. rewrite Hsplit. by simpl.
    + exists []. by rewrite app_nil_r.
  - simpl. eexists [_]. split; [done |]. by constructor.
Qed.

Lemma on_key_calls parseMentions props input key st :
  exists added,
    calls (on_key parseMentions props input key st) = calls st ++ added
    /\ Forall command_ok added.
Proof.
  assert (Hnone : exists added, calls st = calls st ++ added /\ Forall command_ok added).
  { exists []. by rewrite app_nil_r. }
  unfold on_key. cbv zeta.
  set (mc := getMentionContext _ _). set (cc := getCommandContext _ _).
  set (mo := autocompleteOptions _ _). set (co := commandOptions _).
  unfold insertMention, insertCommand.
  repeat (key_case; try exact Hnone); try apply handleSubmit_calls;
    simpl; eexists [_]; split; try done; by constructor.
Qed.

Lemma input_step_calls parseMentions st ev :
  exists added,
    calls (input_step parseMentions st ev) = calls st ++ added
    /\ Forall command_ok added.
Proof.
  unfold input_step.
  destruct (after_render_fields ev.1
              (handle_input parseMentions ev.1 ev.2 (after_render ev.1 st)))
    as (_ & _ & _ & _ & _ & ->).
  destruct (after_render_fields ev.1 st) as (_ & _ & _ & _ & _ & Hc).
  rewrite <- Hc.
  destruct ev.2 as [input key|text|]; simpl.
  - apply on_key_calls.
  - exists []. rewrite app_nil_r. unfold on_paste. by destruct (_ && _).
  - exists []. rewrite app_nil_r. unfold on_exitHint_timeout.
    by destruct (exitHintTimer _).
Qed.

(** X30: every slash command handed to [onCommand] has a command word free of
    white space, and its arguments are words: none is empty and none
    contains white space. *)
Theorem commands_are_split_into_words parseMentions evs :
  Forall command_ok (calls (input_run parseMentions evs new_input)).
Proof.
  apply (input_run_invariant (fun st => Forall command_ok (calls st))).
  - constructor.
  - intros st ev Hok.
    destruct (input_step_calls parseMentions st ev) as (added & -> & Hadded).
    apply Forall_app. by split.
Qed.
